(** * smallsh: a shallow embedding of the parser, the signal/job manager and
      the process launcher, with the properties checked against the C source.

    C strings are lists of characters; the terminating NUL of a buffer is the
    end of the list, and a NUL stored inside a buffer ends the string that
    starts before it, exactly as in C.  Indices are naturals: they stay
    within the length of the line, far from where an [int] wraps. *)

From Stdlib Require Import Ascii String DecimalString DecimalFacts DecimalPos DecimalZ.
From Stdlib Require Import ZArith Lia Bool Arith List.
Import ListNotations.

Local Open Scope char_scope.
Local Open Scope list_scope.
Local Open Scope nat_scope.

(** ** config.h *)

Module Config.

Definition MAX_INPUT_CHARS_SIZE : nat := 2050.
Definition MAX_ARGV_SIZE : nat := 514.

End Config.

(** ** Characters and C strings *)

Module CStr.

Definition NUL : ascii := "000".
Definition SP : ascii := " ".
Definition NL : ascii := "010".

(** A string literal of the source as a list of characters. *)
Definition str (s : string) : list ascii := list_ascii_of_string s.
Arguments str s%_string.

(** [s[i]]; reading the terminator (or beyond a shorter model list) gives NUL. *)
Definition get (s : list ascii) (i : nat) : ascii := nth i s NUL.

(** [s[i] = 0].  The source only stores a NUL where it has just read a
    character, so the index is inside the list; elsewhere nothing changes. *)
Definition put0 (s : list ascii) (i : nat) : list ascii :=
  if i <? length s then firstn i s ++ NUL :: skipn (S i) s else s.

(** The C string that starts at a pointer: the characters before the first NUL. *)
Fixpoint cstr (s : list ascii) : list ascii :=
  match s with
  | [] => []
  | c :: r => if Ascii.eqb c NUL then [] else c :: cstr r
  end.

(** The C string at [&s[k]]. *)
Definition cstr_at (s : list ascii) (k : nat) : list ascii := cstr (skipn k s).

(** [*p == 0]: the pointer is at the end of its string. *)
Definition at_end (s : list ascii) : bool :=
  match s with
  | [] => true
  | c :: _ => Ascii.eqb c NUL
  end.

(** [strncmp(a, b, n) == 0]. *)
Fixpoint strncmp_eq (a b : list ascii) (n : nat) : bool :=
  match n with
  | 0 => true
  | S n' =>
      let ca := hd NUL a in
      let cb := hd NUL b in
      if Ascii.eqb ca cb
      then if Ascii.eqb ca NUL then true else strncmp_eq (tl a) (tl b) n'
      else false
  end.

(** [sprintf(buf, "%d", v)]: the decimal numeral of a signed integer. *)
Definition sprintf_d (v : Z) : list ascii :=
  str (NilEmpty.string_of_int (Z.to_int v)).

End CStr.

Import CStr.

(** ** parsers.c *)

Module Parsers.

Import Config.

(** [struct command] of parsers.h; a NULL stream is [None]. *)
Record command : Type := mk_command {
  argv : list (list ascii);
  background : bool;
  i_stream : option (list ascii);
  o_stream : option (list ascii)
}.

(** Outcome of a C function that can leave defined behaviour: it dereferences
    a null pointer, or it writes past the end of an array of its own frame
    (after which nothing of the call, its return included, is determined).
    A write past the end of a block of the heap is recorded with the block,
    see [rs_blocks]. *)
Inductive result (A : Type) : Type :=
| Ret (a : A)
| UB.
Arguments Ret {A} a.
Arguments UB {A}.

(** [truncate_right(&s[base], len)]: NULs are stored over trailing spaces and
    newlines, from index [len - 1] downwards; the new length is returned. *)
Fixpoint truncate_right (s : list ascii) (base len : nat) : list ascii * nat :=
  match len with
  | 0 => (s, 0)
  | S l =>
      let c := get s (base + l) in
      if Ascii.eqb c SP || Ascii.eqb c NL
      then truncate_right (put0 s (base + l)) base l
      else (s, len)
  end.

(** *** expand *)

(** [while (input_string[i] == ' ') i++;] on the rest of the input. *)
Fixpoint skip_spaces (inp : list ascii) : list ascii :=
  match inp with
  | c :: rest => if Ascii.eqb c SP then skip_spaces rest else inp
  | [] => []
  end.

(** The loop that copies one character at a time until a space, a dollar or
    the end of the string: the rest of the input and the grown output. *)
Fixpoint copy_word (inp out : list ascii) : list ascii * list ascii :=
  match inp with
  | c :: rest =>
      if Ascii.eqb c SP || Ascii.eqb c "$" || Ascii.eqb c NUL
      then (inp, out)
      else copy_word rest (out ++ [c])
  | [] => ([], out)
  end.

(** The two-way test on [$]: [$$] writes the process id and skips both
    characters, a lone [$] is copied. *)
Definition expand_dollar (pid_as_str inp out : list ascii)
  : list ascii * list ascii :=
  if Ascii.eqb (get inp 0) "$" && Ascii.eqb (get inp 1) "$"
  then (skipn 2 inp, out ++ pid_as_str)
  else if Ascii.eqb (get inp 0) "$"
       then (skipn 1 inp, out ++ ["$"])
       else (inp, out).

(** [if (input_string[i] == ' ') { output_string[j] = ' '; i++; j++; }] *)
Definition expand_space (inp out : list ascii) : list ascii * list ascii :=
  if Ascii.eqb (get inp 0) SP then (skipn 1 inp, out ++ [SP]) else (inp, out).

(** One turn of the outer [while (input_string[i] != 0)]. *)
Definition expand_body (pid_as_str inp out : list ascii)
  : list ascii * list ascii :=
  let inp := skip_spaces inp in
  let (inp, out) := copy_word inp out in
  let (inp, out) := expand_dollar pid_as_str inp out in
  expand_space inp out.

Fixpoint expand_loop (fuel : nat) (pid_as_str inp out : list ascii)
  : list ascii :=
  match fuel with
  | 0 => out
  | S fuel' =>
      if at_end inp then out
      else let (inp', out') := expand_body pid_as_str inp out in
           expand_loop fuel' pid_as_str inp' out'
  end.

(** [expand(input_string, output_string)]: the characters written to the
    output buffer; the returned length [j] is the length of that list.  Every
    turn of the loop consumes a character, so the length of the input is
    enough fuel (see [expand_loop_spec]). *)
Definition expand (pid : Z) (input_string : list ascii) : list ascii :=
  expand_loop (length input_string) (sprintf_d pid) input_string [].

(** *** parse_args *)

(** [strtok_r(s, " ", &save_ptr)] from the saved position [s]: the token and
    the new saved position, or [None] for a NULL token.  The NULs it stores
    over delimiters fall inside the argv span, which nothing reads again. *)
Fixpoint span_token (s : list ascii) : list ascii * list ascii :=
  match s with
  | c :: rest =>
      if Ascii.eqb c SP || Ascii.eqb c NUL then ([], s)
      else let (tok, r) := span_token rest in (c :: tok, r)
  | [] => ([], [])
  end.

Definition strtok_r (s : list ascii) : option (list ascii * list ascii) :=
  let s := skip_spaces s in
  if at_end s then None
  else let (tok, rest) := span_token s in
       Some (tok, if Ascii.eqb (get rest 0) SP then skipn 1 rest else rest).

(** The [do ... while (arg_token != NULL && i < MAX_ARGV_SIZE)] loop. *)
Fixpoint parse_args_loop (fuel i : nat) (arg_token save_ptr : list ascii)
  (argv : list (list ascii)) : list (list ascii) :=
  let argv := argv ++ [arg_token] in
  let next := strtok_r save_ptr in
  let i := S i in
  match next, fuel with
  | Some (tok, save), S fuel' =>
      if i <? MAX_ARGV_SIZE
      then parse_args_loop fuel' i tok save argv
      else argv
  | _, _ => argv
  end.

(** [parse_args]: the first token is dereferenced without a test, so a string
    with no token at all is undefined behaviour ([strlen(NULL)]). *)
Definition parse_args (argv_string : list ascii) : result (list (list ascii)) :=
  match strtok_r argv_string with
  | None => UB
  | Some (tok, save) => Ret (parse_args_loop MAX_ARGV_SIZE 0 tok save [])
  end.

(** *** parse_command *)

(** [strncmp(&cs[k], " > ", 3) == 0 || strncmp(&cs[k], " < ", 3) == 0] *)
Definition is_redirect_at (cs : list ascii) (k : nat) : bool :=
  strncmp_eq (skipn k cs) (str " > ") 3 || strncmp_eq (skipn k cs) (str " < ") 3.

(** [while (k < right && no operator at k) k++;]  The loops on indices take
    the distance to [right] as fuel and end by their own test (see
    [scan_to_redirect_stops], [skip_spaces_to_stops], [redirect_loop_done]). *)
Fixpoint scan_to_redirect (fuel : nat) (cs : list ascii) (right k : nat) : nat :=
  match fuel with
  | 0 => k
  | S fuel' =>
      if (k <? right) && negb (is_redirect_at cs k)
      then scan_to_redirect fuel' cs right (S k)
      else k
  end.

(** [while (cs[left] == ' ' && left < right) left++;] *)
Fixpoint skip_spaces_to (fuel : nat) (cs : list ascii) (right left : nat) : nat :=
  match fuel with
  | 0 => left
  | S fuel' =>
      if Ascii.eqb (get cs left) SP && (left <? right)
      then skip_spaces_to fuel' cs right (S left)
      else left
  end.

(** The state of the redirection loop.  [rs_blocks] lists the blocks it has
    allocated for filenames, oldest first: the number of bytes asked of
    [calloc] and the number of bytes that [strcpy] then wrote to the block. *)
Record redirect_state : Type := mk_redirect_state {
  rs_buffer : list ascii;
  rs_left : nat;
  rs_i_stream : option (list ascii);
  rs_o_stream : option (list ascii);
  rs_blocks : list (nat * nat)
}.

(** One turn of [while (left < right)] in step (4). *)
Definition redirect_body (right : nat) (st : redirect_state) : redirect_state :=
  let cs := rs_buffer st in
  let left := rs_left st in
  let redirect_input := Ascii.eqb (get cs left) "<" in
  let left := S left in
  let left := skip_spaces_to (right - left) cs right left in
  let filename_end := scan_to_redirect (right - left) cs right left in
  let (cs, n) := truncate_right cs left (filename_end - left + 1) in
  let i := if (0 <? n) && redirect_input then Some (cstr_at cs left)
           else rs_i_stream st in
  let o := if (0 <? n) && negb redirect_input then Some (cstr_at cs left)
           else rs_o_stream st in
  let blocks := if 0 <? n
                then rs_blocks st ++ [(filename_end - left + 1,
                                       List.length (cstr_at cs left) + 1)]
                else rs_blocks st in
  mk_redirect_state cs (filename_end + 1) i o blocks.

Fixpoint redirect_loop (fuel right : nat) (st : redirect_state) : redirect_state :=
  match fuel with
  | 0 => st
  | S fuel' =>
      if rs_left st <? right
      then redirect_loop fuel' right (redirect_body right st)
      else st
  end.

(** Step (2): the test for a trailing [&] and the truncation before it. *)
Definition detect_background (cs : list ascii) (left right : nat)
  : bool * list ascii * nat :=
  if Ascii.eqb (get cs right) "&" && (left + 1 <? right)
     && Ascii.eqb (get cs (right - 1)) SP
  then (true, put0 cs (right - 1), right - 2)
  else (false, cs, right).

(** Steps (3) and (4): the argv span, then the redirections. *)
Definition parse_spans (bg : bool) (cs : list ascii) (left right : nat)
  : result (option command) :=
  let argv_right := scan_to_redirect (right - left) cs right left in
  let (cs, argv_right) :=
    if Ascii.eqb (get cs argv_right) SP
    then (put0 cs argv_right, S argv_right)
    else (cs, argv_right) in
  match parse_args (cstr_at cs left) with
  | UB => UB
  | Ret args =>
      let st := redirect_loop (right - argv_right) right
                  (mk_redirect_state cs argv_right None None []) in
      Ret (Some (mk_command args bg (rs_i_stream st) (rs_o_stream st)))
  end.

(** [parse_command]: [Ret None] is the NULL of a blank line or a comment.
    [command_string] is an array of [MAX_INPUT_CHARS_SIZE] characters on the
    stack; [expand] stores the [len] characters of the expansion and a NUL
    after them, whatever [len] is, so an expansion of
    [MAX_INPUT_CHARS_SIZE] characters or more is written past the array. *)
Definition parse_command (pid : Z) (input_string : list ascii)
  : result (option command) :=
  let command_string := expand pid input_string in
  let len := length command_string in
  if MAX_INPUT_CHARS_SIZE <=? len then UB
  else
    let (command_string, len) := truncate_right command_string 0 len in
    if len =? 0 then Ret None
    else
      let left := 0 in
      let right := len - 1 in
      if Ascii.eqb (get command_string left) "#" then Ret None
      else
        match detect_background command_string left right with
        | (bg, command_string, new_right) =>
            parse_spans bg command_string left new_right
        end.

(** The filename blocks of the same call, for a line that leaves a
    descriptor: what step (4) allocated and how much it copied to each
    block.  A block that received more bytes than it holds was overrun. *)
Definition parse_spans_blocks (cs : list ascii) (left right : nat)
  : list (nat * nat) :=
  let argv_right := scan_to_redirect (right - left) cs right left in
  let (cs, argv_right) :=
    if Ascii.eqb (get cs argv_right) SP
    then (put0 cs argv_right, S argv_right)
    else (cs, argv_right) in
  rs_blocks (redirect_loop (right - argv_right) right
               (mk_redirect_state cs argv_right None None [])).

Definition parse_command_blocks (pid : Z) (input_string : list ascii)
  : list (nat * nat) :=
  let command_string := expand pid input_string in
  let len := length command_string in
  let (command_string, len) := truncate_right command_string 0 len in
  if len =? 0 then []
  else
    let left := 0 in
    let right := len - 1 in
    if Ascii.eqb (get command_string left) "#" then []
    else
      match detect_background command_string left right with
      | (_, command_string, new_right) =>
          parse_spans_blocks command_string left new_right
      end.

(** A block that [strcpy] wrote past. *)
Definition overrun (block : nat * nat) : bool := fst block <? snd block.

End Parsers.

Import Parsers.

(** ** signal_handlers.c *)

Module Signals.

Local Open Scope Z_scope.

Inductive signal : Type := SIGINT | SIGTSTP | SIGCHLD | SIGTERM.

(** What [sa_handler] can hold in this program. *)
Inductive sighandler : Type :=
| SIG_DFL
| SIG_IGN
| Fn_SIGCHLD_handler
| Fn_SIGCHLD_handler_no_output
| Fn_SIGTSTP_handler_normal_mode
| Fn_SIGTSTP_handler_foreground_only_mode.

Inductive open_mode : Type := O_RDONLY | O_WRONLY | O_WRONLY_CREAT_TRUNC.

(** The system and library calls a process makes, in program order. *)
Inductive event : Type :=
| Ev_write (fd : Z) (bytes : list ascii)
| Ev_stdout (text : list ascii)
| Ev_stderr (text : list ascii)
| Ev_perror (prefix : list ascii)
| Ev_open (path : list ascii) (mode : open_mode) (fd : Z)
| Ev_close (fd : Z)
| Ev_dup2 (oldfd newfd : Z)
| Ev_fork (pid : Z)
| Ev_execvp (file : list ascii) (args : list (list ascii))
| Ev_waitpid (pid status : Z)
| Ev_kill (pid : Z) (sig : signal)
| Ev_usleep (usec : Z)
| Ev_sigaction (sig : signal) (h : sighandler)
| Ev_sigprocmask (block : bool) (sig : signal)
| Ev_chdir (path : option (list ascii))
| Ev_clearerr
| Ev_setsid
| Ev_exit (code : Z).

Inductive proc_status : Type :=
| Running
| Exited (code : Z)
| Killed (sig : signal)
| Stopped
| Replaced (file : list ascii)
| Undefined.

(** One process: the file-scope variables of signal_handlers.c and commands.c,
    the kernel's view of it (dispositions, terminated children that wait to
    be reaped, the signal mask and the pending set, both for SIGCHLD, the
    only signal the program ever blocks) and the calls it has made. *)
Record process : Type := mk_process {
  foreground_flag : Z;
  exit_status : Z;
  by_signal : bool;
  handlers : signal -> sighandler;
  zombies : list (Z * Z);
  sigchld_blocked : bool;
  sigchld_pending : bool;
  trace : list event;
  status : proc_status
}.

Definition emit (es : list event) (p : process) : process :=
  mk_process (foreground_flag p) (exit_status p) (by_signal p) (handlers p)
             (zombies p) (sigchld_blocked p) (sigchld_pending p) (trace p ++ es) (status p).

Definition set_foreground_flag (v : Z) (p : process) : process :=
  mk_process v (exit_status p) (by_signal p) (handlers p)
             (zombies p) (sigchld_blocked p) (sigchld_pending p) (trace p) (status p).

Definition set_exit_status (v : Z) (p : process) : process :=
  mk_process (foreground_flag p) v (by_signal p) (handlers p)
             (zombies p) (sigchld_blocked p) (sigchld_pending p) (trace p) (status p).

Definition set_by_signal (b : bool) (p : process) : process :=
  mk_process (foreground_flag p) (exit_status p) b (handlers p)
             (zombies p) (sigchld_blocked p) (sigchld_pending p) (trace p) (status p).

Definition set_zombies (zs : list (Z * Z)) (p : process) : process :=
  mk_process (foreground_flag p) (exit_status p) (by_signal p) (handlers p)
             zs (sigchld_blocked p) (sigchld_pending p) (trace p) (status p).

Definition set_sigchld_blocked (b : bool) (p : process) : process :=
  mk_process (foreground_flag p) (exit_status p) (by_signal p) (handlers p)
             (zombies p) b (sigchld_pending p) (trace p) (status p).

Definition set_sigchld_pending (b : bool) (p : process) : process :=
  mk_process (foreground_flag p) (exit_status p) (by_signal p) (handlers p)
             (zombies p) (sigchld_blocked p) b (trace p) (status p).

Definition set_status (s : proc_status) (p : process) : process :=
  mk_process (foreground_flag p) (exit_status p) (by_signal p) (handlers p)
             (zombies p) (sigchld_blocked p) (sigchld_pending p) (trace p) s.

Definition signal_eqb (a b : signal) : bool :=
  match a, b with
  | SIGINT, SIGINT | SIGTSTP, SIGTSTP | SIGCHLD, SIGCHLD | SIGTERM, SIGTERM => true
  | _, _ => false
  end.

(** [sigaction(sig, &action, NULL)] with [action.sa_handler = h]. *)
Definition sigaction (sig : signal) (h : sighandler) (p : process) : process :=
  emit [Ev_sigaction sig h]
    (mk_process (foreground_flag p) (exit_status p) (by_signal p)
       (fun s => if signal_eqb s sig then h else handlers p s)
       (zombies p) (sigchld_blocked p) (sigchld_pending p) (trace p) (status p)).

Definition STDIN_FILENO : Z := 0.
Definition STDOUT_FILENO : Z := 1.

(** [write(fd, buf, n)] *)
Definition sys_write (fd : Z) (buf : list ascii) (n : nat) (p : process) : process :=
  emit [Ev_write fd (firstn n buf)] p.

(** The wait-status macros of <sys/wait.h> (Linux encoding). *)
Definition WTERMSIG (s : Z) : Z := Z.land s 127.
Definition WIFEXITED (s : Z) : bool := WTERMSIG s =? 0.
Definition WEXITSTATUS (s : Z) : Z := Z.shiftr (Z.land s 65280) 8.
Definition WIFSIGNALED (s : Z) : bool :=
  let v := Z.land s 127 + 1 in
  let as_signed_char := if 128 <=? v then v - 256 else v in
  0 <? Z.shiftr as_signed_char 1.

Definition get_foreground_flag (p : process) : Z := foreground_flag p.

(** The digit loop of [write_int]: [buffer[i] = '0' + value % 10; value /= 10]. *)
Fixpoint write_int_digits (fuel : nat) (value : Z) (buffer : list ascii) : list ascii :=
  match fuel with
  | O => buffer
  | S fuel' =>
      if value =? 0 then buffer
      else write_int_digits fuel' (Z.quot value 10)
             (ascii_of_nat (48 + Z.to_nat (Z.rem value 10)) :: buffer)
  end.

(** [write_int]: a ten-character buffer, filled from the right. *)
Definition write_int (value : Z) (p : process) : process :=
  if value =? 0 then sys_write STDOUT_FILENO ["0"%char] 1 p
  else
    let p := if value <? 0 then sys_write STDOUT_FILENO ["-"%char] 1 p else p in
    let value := if value <? 0 then - value else value in
    let digits := write_int_digits 10 value [] in
    sys_write STDOUT_FILENO digits (List.length digits) p.

(** The body of the reaping loop of [SIGCHLD_handler] for one child that
    [waitpid(-1, &child_exit_status, WNOHANG)] returned. *)
Definition report_child (child_pid child_exit_status : Z) (p : process) : process :=
  let p := sys_write STDOUT_FILENO (str "Background PID ") 15 p in
  let p := write_int child_pid p in
  let p := sys_write STDOUT_FILENO (str " is done: ") 10 p in
  let p :=
    if WIFEXITED child_exit_status
    then write_int (WEXITSTATUS child_exit_status)
           (sys_write STDOUT_FILENO (str "exit value ") 11 p)
    else if WIFSIGNALED child_exit_status
         then write_int (WTERMSIG child_exit_status)
                (sys_write STDOUT_FILENO (str "terminated by signal ") 21 p)
         else p in
  sys_write STDOUT_FILENO [NL] 1 p.

(** [waitpid(-1, ..., WNOHANG)] hands out the terminated children one at a
    time and then returns 0 or -1, which ends the loop. *)
Fixpoint reap_and_report (zs : list (Z * Z)) (p : process) : process :=
  match zs with
  | [] => p
  | (child_pid, st) :: rest =>
      reap_and_report rest
        (report_child child_pid st (emit [Ev_waitpid child_pid st] p))
  end.

Definition SIGCHLD_handler (p : process) : process :=
  set_zombies [] (reap_and_report (zombies p) p).

Fixpoint reap_silently (zs : list (Z * Z)) (p : process) : process :=
  match zs with
  | [] => p
  | (child_pid, st) :: rest => reap_silently rest (emit [Ev_waitpid child_pid st] p)
  end.

Definition SIGCHLD_handler_no_output (p : process) : process :=
  set_zombies [] (reap_silently (zombies p) p).

(** [set_SIGTSTP_handler(mode)] *)
Definition set_SIGTSTP_handler (mode : Z) (p : process) : process :=
  sigaction SIGTSTP
    (if mode =? 0 then Fn_SIGTSTP_handler_normal_mode
     else Fn_SIGTSTP_handler_foreground_only_mode) p.

Definition enter_message : list ascii :=
  NL :: str "Entering foreground-only mode (& is now ignored)" ++ NL :: str ": ".

Definition exit_message : list ascii :=
  NL :: str "Exiting foreground-only mode" ++ NL :: str ": ".

Definition SIGTSTP_handler_normal_mode (p : process) : process :=
  let p := sys_write STDOUT_FILENO enter_message 52 p in
  let p := set_foreground_flag 1 p in
  set_SIGTSTP_handler 1 p.

Definition SIGTSTP_handler_foreground_only_mode (p : process) : process :=
  let p := sys_write STDOUT_FILENO exit_message 32 p in
  let p := set_foreground_flag 0 p in
  set_SIGTSTP_handler 0 p.

Definition set_initial_signal_handlers (p : process) : process :=
  let p := set_SIGTSTP_handler 0 p in
  let p := sigaction SIGCHLD Fn_SIGCHLD_handler p in
  sigaction SIGINT SIG_IGN p.

Definition set_child_signal_handlers (background_mode : bool) (p : process) : process :=
  let p := sigaction SIGTSTP SIG_IGN p in
  let p := sigaction SIGINT (if background_mode then SIG_IGN else SIG_DFL) p in
  sigaction SIGCHLD SIG_DFL p.

Definition set_cleanup_signal_handlers (p : process) : process :=
  let p := sigaction SIGCHLD Fn_SIGCHLD_handler_no_output p in
  sigaction SIGTERM SIG_IGN p.

(** The kernel's default action for the four signals. *)
Definition default_action (sig : signal) (p : process) : process :=
  match sig with
  | SIGINT | SIGTERM => set_status (Killed sig) p
  | SIGTSTP => set_status Stopped p
  | SIGCHLD => p
  end.

(** What the installed disposition of a signal does. *)
Definition run_disposition (sig : signal) (p : process) : process :=
  match handlers p sig with
  | SIG_DFL => default_action sig p
  | SIG_IGN => p
  | Fn_SIGCHLD_handler => SIGCHLD_handler p
  | Fn_SIGCHLD_handler_no_output => SIGCHLD_handler_no_output p
  | Fn_SIGTSTP_handler_normal_mode => SIGTSTP_handler_normal_mode p
  | Fn_SIGTSTP_handler_foreground_only_mode =>
      SIGTSTP_handler_foreground_only_mode p
  end.

(** Delivery of one signal to a running process: a SIGCHLD that is blocked
    stays pending, anything else goes to the installed disposition. *)
Definition deliver (sig : signal) (p : process) : process :=
  match status p with
  | Running =>
      if signal_eqb sig SIGCHLD && sigchld_blocked p
      then set_sigchld_pending true p
      else run_disposition sig p
  | _ => p
  end.

(** [sigprocmask(how, &sigchld_set, NULL)] with the set of main.c, which
    holds SIGCHLD alone; [block] is [SIG_BLOCK], otherwise [SIG_UNBLOCK].
    A SIGCHLD that was pending is delivered when it is unblocked. *)
Definition sigprocmask (block : bool) (p : process) : process :=
  match status p with
  | Running =>
      let p := set_sigchld_blocked block (emit [Ev_sigprocmask block SIGCHLD] p) in
      if negb block && sigchld_pending p
      then run_disposition SIGCHLD (set_sigchld_pending false p)
      else p
  | _ => p
  end.

(** A child of the process terminates: it becomes reapable and the kernel
    sends SIGCHLD. *)
Definition child_terminates (child_pid st : Z) (p : process) : process :=
  deliver SIGCHLD (set_zombies (zombies p ++ [(child_pid, st)]) p).

End Signals.

Import Signals.

(** ** error_handlers.c *)

Module ErrorHandlers.

Definition handle_exec_error (command : list ascii) (p : process) : process :=
  emit [Ev_stderr (str "Error. Command " ++ command ++ str " not found. ");
        Ev_perror []] p.

Definition handle_fork_error (p : process) : process :=
  emit [Ev_perror (str "Error. fork failed")] p.

Definition handle_path_error (p : process) : process :=
  emit [Ev_stderr (str "Error. Path not found" ++ [NL])] p.

Definition handle_file_error (file_name : list ascii) (for_input : bool)
  (p : process) : process :=
  emit [Ev_stderr (str "Error. Could not open file " ++ file_name ++ [SP]);
        Ev_perror (if for_input then str "for input" else str "for output")] p.

End ErrorHandlers.

Import ErrorHandlers.

(** ** commands.c *)

Module Commands.

Local Open Scope Z_scope.

(** The answers of the operating system to the calls of one command, and
    the children ([sys_terminated], process id and wait status) that
    terminate while the interpreter waits for the line of that command. *)
Record os : Type := mk_os {
  sys_open : list ascii -> open_mode -> Z;
  sys_fork : Z;
  sys_waitpid : Z -> Z;
  sys_execvp : list ascii -> bool;
  sys_chdir : option (list ascii) -> Z;
  sys_terminated : list (Z * Z)
}.

(** [usleep(usec)]; the children in [arrivals] terminate while the process
    sleeps. *)
Fixpoint children_terminate (arrivals : list (Z * Z)) (p : process) : process :=
  match arrivals with
  | [] => p
  | (child_pid, st) :: rest => children_terminate rest (child_terminates child_pid st p)
  end.

Definition usleep (usec : Z) (arrivals : list (Z * Z)) (p : process) : process :=
  match status p with
  | Running => children_terminate arrivals (emit [Ev_usleep usec] p)
  | _ => p
  end.

(** [kill(0, sig)]: the signal goes to every process of the caller's process
    group, the caller included. *)
Definition kill_group (sig : signal) (p : process) : process :=
  match status p with
  | Running => deliver sig (emit [Ev_kill 0 sig] p)
  | _ => p
  end.

(** [exit(code)] *)
Definition sys_exit (code : Z) (p : process) : process :=
  match status p with
  | Running => set_status (Exited code) (emit [Ev_exit code] p)
  | _ => p
  end.

Definition builtin_exit (arrivals : list (Z * Z)) (p : process) : process :=
  let p := set_cleanup_signal_handlers p in
  let p := kill_group SIGTERM p in
  let p := usleep 5000 arrivals p in
  sys_exit 0 p.

Definition builtin_cd (w : os) (args : list (list ascii)) (p : process) : process :=
  let path := nth_error args 1 in
  let p := emit [Ev_chdir path] p in
  if sys_chdir w path =? -1 then handle_path_error p else p.

Definition builtin_status (p : process) : process :=
  emit [Ev_stdout (str "Last foreground process status: "
                   ++ (if by_signal p then str "terminated by signal"
                       else str "exit value")
                   ++ [SP] ++ sprintf_d (exit_status p) ++ [NL])] p.

Definition dev_null : list ascii := str "/dev/null".

(** The two conditional expressions that choose the streams: [open] is only
    called, and only then recorded, where the source calls it. *)
Definition open_input (w : os) (input_file : option (list ascii))
  (in_background : bool) (p : process) : Z * process :=
  match input_file with
  | None =>
      if in_background
      then let fd := sys_open w dev_null O_RDONLY in
           (fd, emit [Ev_open dev_null O_RDONLY fd] p)
      else (STDIN_FILENO, p)
  | Some f =>
      let fd := sys_open w f O_RDONLY in (fd, emit [Ev_open f O_RDONLY fd] p)
  end.

Definition open_output (w : os) (output_file : option (list ascii))
  (in_background : bool) (p : process) : Z * process :=
  match output_file with
  | None =>
      if in_background
      then let fd := sys_open w dev_null O_WRONLY in
           (fd, emit [Ev_open dev_null O_WRONLY fd] p)
      else (STDOUT_FILENO, p)
  | Some f =>
      let fd := sys_open w f O_WRONLY_CREAT_TRUNC in
      (fd, emit [Ev_open f O_WRONLY_CREAT_TRUNC fd] p)
  end.

Definition file_or_dev_null (file : option (list ascii)) : list ascii :=
  match file with None => dev_null | Some f => f end.

(** The branch of [run_command] that runs in the forked child ([pid == 0]). *)
Definition run_child (w : os) (args : list (list ascii)) (input_fd output_fd : Z)
  (in_background : bool) (p : process) : process :=
  let p := set_child_signal_handlers in_background p in
  let file := hd [] args in
  let p := emit [Ev_dup2 input_fd STDIN_FILENO; Ev_dup2 output_fd STDOUT_FILENO;
                 Ev_execvp file args] p in
  if sys_execvp w file then set_status (Replaced file) p
  else sys_exit 1 (handle_exec_error file p).

(** The branch that runs in the parent ([pid > 0]). *)
Definition run_parent (w : os) (pid : Z) (in_background : bool) (p : process)
  : process :=
  if in_background
  then emit [Ev_stdout (str "Background PID " ++ sprintf_d pid ++ [NL])] p
  else
    let st := sys_waitpid w pid in
    let p := set_exit_status st (emit [Ev_waitpid pid st] p) in
    if WIFEXITED (exit_status p)
    then let p := set_by_signal false p in
         set_exit_status (WEXITSTATUS (exit_status p)) p
    else let p := set_by_signal true p in
         let p := set_exit_status (WTERMSIG (exit_status p)) p in
         builtin_status (emit [Ev_stdout [NL]] p).

Definition run_command (w : os) (args : list (list ascii))
  (input_file output_file : option (list ascii)) (in_background : bool)
  (p : process) : process :=
  let (input_fd, p) := open_input w input_file in_background p in
  if input_fd =? -1
  then set_exit_status 1 (handle_file_error (file_or_dev_null input_file) true p)
  else
    let (output_fd, p) := open_output w output_file in_background p in
    if output_fd =? -1
    then
      let p := if negb (input_fd =? STDIN_FILENO) then emit [Ev_close input_fd] p
               else p in
      set_exit_status 1 (handle_file_error (file_or_dev_null output_file) false p)
    else
      let pid := sys_fork w in
      let p := emit [Ev_fork pid] p in
      if pid =? -1 then handle_fork_error p
      else if pid =? 0 then run_child w args input_fd output_fd in_background p
      else run_parent w pid in_background p.

(** The last-foreground-result that [builtin_status] reports. *)
Inductive result_kind : Type := ExitedNormally | TerminatedBySignal.

Definition last_foreground_result (p : process) : result_kind * Z :=
  (if by_signal p then TerminatedBySignal else ExitedNormally, exit_status p).

End Commands.

Import Commands.

(** ** main.c *)

Module Main.

Local Open Scope Z_scope.

(** What [fgets(input_buffer, MAX_INPUT_CHARS_SIZE, stdin)] did: it stored a
    line, or it returned NULL and left the buffer as it was (end of input
    with nothing read, or a read error that stored nothing). *)
Inductive fgets_result : Type :=
| Fgets_line (line : list ascii)
| Fgets_null.

(** The interpreter: its process, the process id that [getpid] returns, and
    the locals of [main] that live across turns of the loop. *)
Record shell : Type := mk_shell {
  proc : process;
  shell_pid : Z;
  input_buffer : list ascii;
  exit_triggered : bool
}.

(** [strcmp(a, b) == 0] *)
Definition strcmp_eq (a b : list ascii) : bool :=
  if list_eq_dec ascii_dec (cstr a) (cstr b) then true else false.

(** The [if / else if] chain on [argv[0]]; the second component tells whether
    [exit_triggered] was set. *)
Definition dispatch (w : os) (c : command) (p : process) : process * bool :=
  match argv c with
  | [] => (set_status Undefined p, false)
  | argv0 :: _ =>
      if strcmp_eq argv0 (str "exit") then (p, true)
      else if strcmp_eq argv0 (str "cd") then (builtin_cd w (argv c) p, false)
      else if strcmp_eq argv0 (str "status") then (builtin_status p, false)
      else (run_command w (argv c) (i_stream c) (o_stream c)
              (background c && negb (get_foreground_flag p =? 1)) p, false)
  end.

(** The body of [while (!exit_triggered)].  SIGCHLD is blocked from the
    first statement to the last but one: the children that terminate while
    [fgets] waits for the line stay unreaped, their signal pending, until
    the [SIG_UNBLOCK] after the command of the line has been dealt with. *)
Definition main_body (w : os) (r : fgets_result) (sh : shell) : shell :=
  let p := sigprocmask true (proc sh) in
  let p := emit [Ev_stdout (str ": ")] p in
  let p := children_terminate (sys_terminated w) p in
  let (buffer, p) :=
    match r with
    | Fgets_line line => (line, p)
    | Fgets_null => (input_buffer sh, emit [Ev_clearerr] p)
    end in
  let (p, triggered) :=
    match parse_command (shell_pid sh) buffer with
    | UB => (set_status Undefined p, false)
    | Ret None => (p, false)
    | Ret (Some parsed_command) => dispatch w parsed_command p
    end in
  let p := sigprocmask false p in
  let p := usleep 5000 [] p in
  mk_shell p (shell_pid sh) buffer triggered.

(** What happens to the interpreter from outside between two turns of the
    loop (in the [usleep] that ends a turn, where SIGCHLD is not blocked),
    or the next turn itself. *)
Inductive step_input : Type :=
| In_signal (sig : signal)
| In_child_terminates (child_pid st : Z)
| In_read (w : os) (r : fgets_result).

Definition with_proc (p : process) (sh : shell) : shell :=
  mk_shell p (shell_pid sh) (input_buffer sh) (exit_triggered sh).

(** One step of the interpreter inside its loop: nothing more happens to a
    process that is no longer running or that has left the loop. *)
Definition step (sh : shell) (i : step_input) : shell :=
  match status (proc sh), exit_triggered sh with
  | Running, false =>
      match i with
      | In_signal sig => with_proc (deliver sig (proc sh)) sh
      | In_child_terminates c st => with_proc (child_terminates c st (proc sh)) sh
      | In_read w r => main_body w r sh
      end
  | _, _ => sh
  end.

Definition run (inputs : list step_input) (sh : shell) : shell :=
  fold_left step inputs sh.

(** The process as it starts: every disposition at its default. *)
Definition fresh_process : process :=
  mk_process 0 0 false (fun _ => SIG_DFL) [] false false [] Running.

(** [setup()] *)
Definition setup (p : process) : process :=
  emit [Ev_setsid] (set_initial_signal_handlers p).

(** The interpreter on entry to the loop; [garbage] is what the
    uninitialised [input_buffer] happens to hold. *)
Definition initial_shell (pid : Z) (garbage : list ascii) : shell :=
  mk_shell (setup fresh_process) pid garbage false.

(** [main()]: the loop over the given inputs, then [builtin_exit] once the
    loop has been left. *)
Definition main (pid : Z) (garbage : list ascii) (inputs : list step_input)
  (arrivals : list (Z * Z)) : shell :=
  let sh := run inputs (initial_shell pid garbage) in
  if exit_triggered sh then with_proc (builtin_exit arrivals (proc sh)) sh else sh.

End Main.

Import Main.

(** * Vocabulary of the properties *)

(** ** The parser, in the words of its description *)

Module ParserSpec.

Definition is_digit (c : ascii) : bool := existsb (Ascii.eqb c) (str "0123456789").

(** A character that is neither a space, nor a dollar, nor the terminator. *)
Definition is_plain (c : ascii) : bool :=
  negb (Ascii.eqb c SP || Ascii.eqb c "$" || Ascii.eqb c NUL).

Definition is_blank (c : ascii) : bool := Ascii.eqb c SP || Ascii.eqb c NL.

(** Every occurrence of [$$], scanning left to right without overlap, is
    replaced by the numeral; every other character, a lone [$] included, is
    copied. *)
Fixpoint replace_dollars (numeral s : list ascii) : list ascii :=
  match s with
  | [] => []
  | c :: rest =>
      match rest with
      | d :: rest' =>
          if Ascii.eqb c "$" && Ascii.eqb d "$"
          then numeral ++ replace_dollars numeral rest'
          else c :: replace_dollars numeral rest
      | [] => [c]
      end
  end.

(** Every run of spaces becomes a single space. *)
Fixpoint collapse_spaces (s : list ascii) : list ascii :=
  match s with
  | [] => []
  | c :: rest =>
      if Ascii.eqb c SP && Ascii.eqb (hd NUL rest) SP
      then collapse_spaces rest
      else c :: collapse_spaces rest
  end.

Fixpoint drop_leading_spaces (s : list ascii) : list ascii :=
  match s with
  | [] => []
  | c :: rest => if Ascii.eqb c SP then drop_leading_spaces rest else s
  end.

(** The expansion pass as the description words it, on the C string held by
    the input buffer. *)
Definition expand_spec (numeral input : list ascii) : list ascii :=
  drop_leading_spaces (collapse_spaces (replace_dollars numeral (cstr input))).

(** Trailing spaces and newlines removed. *)
Fixpoint rtrim (s : list ascii) : list ascii :=
  match s with
  | [] => []
  | c :: rest =>
      match rtrim rest with
      | [] => if is_blank c then [] else [c]
      | kept => c :: kept
      end
  end.

(** The line after expansion and right trim. *)
Definition trimmed (pid : Z) (line : list ascii) : list ascii :=
  rtrim (expand pid line).

(** The expansion of the line and its terminator fit the array that
    [parse_command] has for them. *)
Definition fits_buffer (pid : Z) (line : list ascii) : Prop :=
  List.length (expand pid line) < Config.MAX_INPUT_CHARS_SIZE.

(** The space-delimited tokens of a C string: [tokens_from cur s] has read
    the characters [cur] of the current token. *)
Fixpoint tokens_from (cur s : list ascii) : list (list ascii) :=
  let flush := match cur with [] => [] | _ => [cur] end in
  match s with
  | [] => flush
  | c :: rest =>
      if Ascii.eqb c NUL then flush
      else if Ascii.eqb c SP then flush ++ tokens_from [] rest
      else tokens_from (cur ++ [c]) rest
  end.

Definition tokens (s : list ascii) : list (list ascii) := tokens_from [] s.

(** Two buffers that hold the same characters up to index [n]. *)
Definition buf_agree (n : nat) (a b : list ascii) : Prop :=
  forall i, i <= n -> get a i = get b i.

(** The states of the redirection loop on two buffers that agree up to the
    NUL after index [right]. *)
Definition states_agree (r : nat) (sa sb : redirect_state) : Prop :=
  rs_left sa = rs_left sb /\ rs_i_stream sa = rs_i_stream sb /\
  rs_o_stream sa = rs_o_stream sb /\
  buf_agree (r + 1) (rs_buffer sa) (rs_buffer sb) /\
  get (rs_buffer sa) (r + 1) = NUL /\
  rs_blocks sa = rs_blocks sb.

(** A redirection as it is typed: the operator between two spaces, then the
    filename; [true] is [<]. *)
Definition redirect_char (input : bool) : ascii := if input then "<" else ">".

Definition redirection_text (r : bool * list ascii) : list ascii :=
  [SP; redirect_char (fst r); SP] ++ snd r.

(** The text after the space that starts the first of the redirections. *)
Definition redirections_tail (rs : list (bool * list ascii)) : list ascii :=
  tl (concat (map redirection_text rs)).

(** A filename: at least one character, none of them blank or NUL. *)
Definition is_filename (f : list ascii) : Prop :=
  f <> [] /\ Forall (fun c => is_blank c = false /\ c <> NUL) f.

(** The text of the command and its arguments: no NUL, no redirection
    character, no space at either end. *)
Definition is_argument_text (a : list ascii) : Prop :=
  a <> [] /\ Forall (fun c => c <> NUL /\ c <> ">" /\ c <> "<") a /\
  get a 0 <> SP /\ get a (List.length a - 1) <> SP.

(** The filename of the last redirection of one direction, if any. *)
Fixpoint last_stream (input : bool) (rs : list (bool * list ascii))
  (default : option (list ascii)) : option (list ascii) :=
  match rs with
  | [] => default
  | (op, f) :: rest =>
      last_stream input rest (if Bool.eqb op input then Some f else default)
  end.

(** The filename blocks of well-separated redirections, as step (4) of
    [parse_command] leaves them: a filename that another operator follows
    gets a block of its length and one byte more, which holds its
    terminator; the last filename ends the text and gets a block of its
    length alone, so that its terminator is written past the block. *)
Fixpoint blocks_of (rs : list (bool * list ascii)) : list (nat * nat) :=
  match rs with
  | [] => []
  | (_, f) :: rest =>
      match rest with
      | [] => [(List.length f, List.length f + 1)]
      | _ :: _ => (List.length f + 1, List.length f + 1) :: blocks_of rest
      end
  end.



End ParserSpec.

Import ParserSpec.

(** ** The job-control mode *)

Module ModeSpec.

Local Open Scope Z_scope.

Inductive job_mode : Type := Normal | ForegroundOnly.

(** The mode as the launcher reads it: [get_foreground_flag() != 1] is Normal. *)
Definition mode_of (p : process) : job_mode :=
  if get_foreground_flag p =? 1 then ForegroundOnly else Normal.

(** The dispositions of the interactive phase, with the SIGTSTP handler that
    matches the flag. *)
Definition interactive (p : process) : Prop :=
  handlers p SIGINT = SIG_IGN /\
  handlers p SIGCHLD = Fn_SIGCHLD_handler /\
  handlers p SIGTERM = SIG_DFL /\
  ((foreground_flag p = 0 /\ handlers p SIGTSTP = Fn_SIGTSTP_handler_normal_mode) \/
   (foreground_flag p = 1 /\
    handlers p SIGTSTP = Fn_SIGTSTP_handler_foreground_only_mode)).

(** Two processes with the same flag and the same dispositions. *)
Definition same_mode (p q : process) : Prop :=
  foreground_flag p = foreground_flag q /\ forall s, handlers p s = handlers q s.

End ModeSpec.

Import ModeSpec.

(** ** Traces and the last-foreground-result *)

Module TraceSpec.

Local Open Scope Z_scope.

(** The calls a process made between two of its states. *)
Definition new_events (before after : process) : list event :=
  skipn (List.length (trace before)) (trace after).

(** The same process with another history of calls. *)
Definition with_trace (t : list event) (p : process) : process :=
  mk_process (foreground_flag p) (exit_status p) (by_signal p) (handlers p)
             (zombies p) (sigchld_blocked p) (sigchld_pending p) t (status p).

(** An operation that neither reads the history of calls nor cuts it: from
    another history it makes the same calls and reaches the same state. *)
Definition history_free (f : process -> process) : Prop :=
  forall t p,
    f (with_trace t p) = with_trace (t ++ new_events p (f p)) (f p) /\
    trace (f p) = trace p ++ new_events p (f p).

(** What a turn of the loop does after the read, from process [p1]. *)
Definition after_read (w : os) (pid : Z) (buffer : list ascii) (p1 : process)
  : process * bool :=
  let (p, triggered) :=
    match parse_command pid buffer with
    | UB => (set_status Undefined p1, false)
    | Ret None => (p1, false)
    | Ret (Some parsed_command) => dispatch w parsed_command p1
    end in
  (usleep 5000 [] (sigprocmask false p), triggered).

(** Calls that write to the terminal. *)
Definition is_output (e : event) : bool :=
  match e with
  | Ev_write _ _ | Ev_stdout _ | Ev_stderr _ | Ev_perror _ => true
  | _ => false
  end.

Definition is_fork (e : event) : bool :=
  match e with Ev_fork _ => true | _ => false end.

Definition is_open (e : event) : bool :=
  match e with Ev_open _ _ _ => true | _ => false end.

(** The notice the launcher prints for a background child. *)
Definition background_notice (pid : Z) : event :=
  Ev_stdout (str "Background PID " ++ sprintf_d pid ++ [NL]).

Definition is_background_notice (e : event) : bool :=
  match e with
  | Ev_stdout text =>
      if list_eq_dec ascii_dec (firstn 15 text) (str "Background PID ")
      then true else false
  | _ => false
  end.

(** The result a wait status stands for. *)
Definition decode_status (st : Z) : result_kind * Z :=
  if WIFEXITED st then (ExitedNormally, WEXITSTATUS st)
  else (TerminatedBySignal, WTERMSIG st).

(** [argv[0]] names one of the three built-ins (or there is no [argv[0]]). *)
Definition is_builtin (c : command) : bool :=
  match argv c with
  | [] => true
  | argv0 :: _ =>
      strcmp_eq argv0 (str "exit") || strcmp_eq argv0 (str "cd")
      || strcmp_eq argv0 (str "status")
  end.

(** [argv[0]] is [exit]. *)
Definition is_exit_command (c : command) : bool :=
  match argv c with
  | [] => false
  | argv0 :: _ => strcmp_eq argv0 (str "exit")
  end.

(** An operating system on which no file can be opened. *)
Definition os_no_file : os :=
  mk_os (fun _ _ => -1) 100 (fun _ => 0) (fun _ => true) (fun _ => 0) [].

(** An operating system on which the foreground child is killed by signal 2. *)
Definition os_child_interrupted : os :=
  mk_os (fun _ _ => 3) 100 (fun _ => 2) (fun _ => true) (fun _ => 0) [].

(** A foreground [sleep 5] that an interrupt kills, then [cat < missing]. *)
Definition after_interrupted_sleep : process :=
  run_command os_child_interrupted [str "sleep"; str "5"] None None false
    (setup fresh_process).

Definition after_failed_redirect : process :=
  run_command os_no_file [str "cat"] (Some (str "missing")) None false
    after_interrupted_sleep.

End TraceSpec.

Import TraceSpec.


(** ** parsers.c: the blocks that hold the filenames *)

Module Allocations.

(** The span of a filename in one turn of the redirection loop: [left] and
    [filename_end] as they are when [truncate_right] is called. *)
Definition filename_span (right : nat) (st : redirect_state) : nat * nat :=
  let cs := rs_buffer st in
  let left := S (rs_left st) in
  let left := skip_spaces_to (right - left) cs right left in
  (left, scan_to_redirect (right - left) cs right left).

(** What the turn allocates and copies when it stores a filename: the
    number of bytes asked of [calloc], [filename_end - left + 1], and the
    number of bytes that [strcpy] writes, the characters of the string
    at [&command_string[left]] and its terminating NUL.  [None] when
    [truncate_right] leaves nothing and no stream is set. *)
Definition filename_copy (right : nat) (st : redirect_state) : option (nat * nat) :=
  let (left, filename_end) := filename_span right st in
  let (cs, n) := truncate_right (rs_buffer st) left (filename_end - left + 1) in
  if 0 <? n
  then Some (filename_end - left + 1, List.length (cstr_at cs left) + 1)
  else None.

End Allocations.

Import Allocations.

(** ** The documented line format and the text on the terminal *)

Module FormatSpec.

Import Config.

(** The largest value of an [int]. *)
Definition INT_MAX : Z := 2147483647%Z.

(** Words joined by single spaces. *)
Fixpoint join_words (ws : list (list ascii)) : list ascii :=
  match ws with
  | [] => []
  | w :: rest =>
      match rest with
      | [] => w
      | _ :: _ => w ++ SP :: join_words rest
      end
  end.

(** What [strtok_r] hands out: at least one character, none of them a space
    or the terminator. *)
Definition is_token (w : list ascii) : Prop :=
  w <> [] /\ Forall (fun c => c <> SP /\ c <> NUL) w.

(** A character that means nothing to the parser: no blank, no terminator,
    none of [$ < > &]. *)
Definition word_char (c : ascii) : bool :=
  negb (existsb (Ascii.eqb c) [NUL; SP; NL; "$"; "<"; ">"; "&"]).

Definition is_word (w : list ascii) : Prop :=
  w <> [] /\ Forall (fun c => word_char c = true) w.

(** The line of the format [command [arg ...] [< file] [> file] [&]] that
    stands for a descriptor, with the newline that [fgets] stores. *)
Definition render (c : command) : list ascii :=
  join_words (argv c)
  ++ match i_stream c with Some f => str " < " ++ f | None => [] end
  ++ match o_stream c with Some f => str " > " ++ f | None => [] end
  ++ (if background c then str " &" else [])
  ++ [NL].

(** A descriptor that the format can express: words without special
    characters, no more of them than [argv] can hold, and a command that
    is not a comment. *)
Definition well_formed (c : command) : Prop :=
  argv c <> [] /\ List.length (argv c) <= MAX_ARGV_SIZE /\
  Forall is_word (argv c) /\ get (hd [] (argv c)) 0 <> "#" /\
  (forall f, i_stream c = Some f -> is_word f) /\
  (forall f, o_stream c = Some f -> is_word f).

(** A token that the expansion pass and the trimming leave alone. *)
Definition is_plain_token (t : list ascii) : Prop :=
  t <> [] /\ Forall (fun c => is_plain c = true /\ is_blank c = false) t.

(** The tokens that follow the arguments on the line of a descriptor. *)
Definition operator_tokens (c : command) : list (list ascii) :=
  match i_stream c with Some f => [str "<"; f] | None => [] end
  ++ match o_stream c with Some f => [str ">"; f] | None => [] end
  ++ (if background c then [str "&"] else []).

(** The redirections of a descriptor, as they are typed. *)
Definition redirections_of (c : command) : list (bool * list ascii) :=
  match i_stream c with Some f => [(true, f)] | None => [] end
  ++ match o_stream c with Some f => [(false, f)] | None => [] end.

(** A line of [n] pairs of dollars. *)
Definition dollars (n : nat) : list ascii := concat (repeat (str "$$") n).

(** The bytes that the [write] calls among the events send to a descriptor. *)
Definition written (fd : Z) (es : list event) : list ascii :=
  flat_map (fun e => match e with
                     | Ev_write fd' bytes => if Z.eqb fd' fd then bytes else []
                     | _ => []
                     end) es.

(** Events that are all [write] calls on the standard output. *)
Definition only_writes (es : list event) : Prop :=
  Forall (fun e => exists bytes, e = Ev_write STDOUT_FILENO bytes) es.

(** A call that the reaping handler makes: [waitpid], or [write] to the
    standard output. *)
Definition is_reap_call (e : event) : bool :=
  match e with
  | Ev_waitpid _ _ => true
  | Ev_write fd _ => Z.eqb fd STDOUT_FILENO
  | _ => false
  end.

(** The calls that the reaping loop of [SIGCHLD_handler] makes for the
    given terminated children: what it adds to the history of a process. *)
Definition reap_calls (zs : list (Z * Z)) : list event :=
  skipn (List.length (trace fresh_process))
        (trace (reap_and_report zs fresh_process)).

(** The kernel's view of the interpreter between two turns of its loop: no
    child waits to be reaped, no SIGCHLD is pending and none is blocked. *)
Definition nothing_to_reap (p : process) : Prop :=
  zombies p = [] /\ sigchld_pending p = false /\ sigchld_blocked p = false.

(** The interpreter when [fgets] returns in a turn of its loop: SIGCHLD is
    blocked, the prompt is out, and the children that terminated while it
    waited for the line have not been reaped. *)
Definition at_read (w : os) (p : process) : process :=
  children_terminate (sys_terminated w)
    (emit [Ev_stdout (str ": ")] (sigprocmask true p)).

(** The interpreter when the command of the line has been dealt with,
    before SIGCHLD is unblocked. *)
Definition after_command (w : os) (pid : Z) (buffer : list ascii) (p : process)
  : process :=
  fst (match parse_command pid buffer with
       | UB => (set_status Undefined p, false)
       | Ret None => (p, false)
       | Ret (Some parsed_command) => dispatch w parsed_command p
       end).

(** The line that reports a terminated background child. *)
Definition child_notice (z : Z * Z) : list ascii :=
  str "Background PID " ++ sprintf_d (fst z) ++ str " is done: "
  ++ (if WIFEXITED (snd z) then str "exit value " ++ sprintf_d (WEXITSTATUS (snd z))
      else if WIFSIGNALED (snd z)
           then str "terminated by signal " ++ sprintf_d (WTERMSIG (snd z))
           else [])
  ++ [NL].

(** The line that the [status] built-in prints for a last-foreground-result. *)
Definition status_line (r : result_kind * Z) : list ascii :=
  str "Last foreground process status: "
  ++ match fst r with
     | TerminatedBySignal => str "terminated by signal"
     | ExitedNormally => str "exit value"
     end
  ++ [SP] ++ sprintf_d (snd r) ++ [NL].

(** Calls that create, wait for or feed a child. *)
Definition is_launch (e : event) : bool :=
  match e with
  | Ev_open _ _ _ | Ev_close _ | Ev_fork _ | Ev_waitpid _ _ | Ev_execvp _ _
  | Ev_dup2 _ _ => true
  | _ => false
  end.

(** The process has not been killed by an interrupt and has not been
    stopped. *)
Definition survives_keyboard (p : process) : Prop :=
  status p <> Killed SIGINT /\ status p <> Stopped.

(** An operating system on which files open for reading only. *)
Definition os_output_denied : os :=
  mk_os (fun _ mode => match mode with O_RDONLY => 3%Z | _ => (-1)%Z end)
        100%Z (fun _ => 0%Z) (fun _ => true) (fun _ => 0%Z) [].

(** An operating system that cannot create a process. *)
Definition os_no_fork : os :=
  mk_os (fun _ _ => 3%Z) (-1)%Z (fun _ => 0%Z) (fun _ => true) (fun _ => 0%Z) [].

(** The operating system as the forked child sees it ([fork] returned 0),
    with no program to execute. *)
Definition os_child_no_program : os :=
  mk_os (fun _ _ => 3%Z) 0%Z (fun _ => 0%Z) (fun _ => false) (fun _ => 0%Z) [].

(** An operating system on which a background child, process 4711, is
    terminated by signal 15 while the interpreter waits for its next line. *)
Definition os_child_ends : os :=
  mk_os (fun _ _ => 3%Z) 100%Z (fun _ => 0%Z) (fun _ => true) (fun _ => 0%Z)
        [(4711%Z, 15%Z)].

End FormatSpec.

Import FormatSpec.

(** * Properties *)

(** ** The expansion pass *)

Section ExpandPass.

#[local] Arguments Ascii.eqb : simpl never.

(** Case analysis on a character test. *)
Ltac char_cases c d E :=
  destruct (Ascii.eqb c d) eqn:E;
  [apply Ascii.eqb_eq in E; try subst c | apply Ascii.eqb_neq in E].

Lemma is_plain_cases c :
  is_plain c = true <-> c <> SP /\ c <> "$" /\ c <> NUL.
Proof.
  unfold is_plain. rewrite negb_true_iff, !orb_false_iff.
  rewrite !Ascii.eqb_neq. tauto.
Qed.

Lemma drop_leading_is_skip s : drop_leading_spaces s = skip_spaces s.
Proof. induction s as [|c r IH]; simpl; [reflexivity|]. rewrite IH. reflexivity. Qed.

Lemma drop_leading_idem s :
  drop_leading_spaces (drop_leading_spaces s) = drop_leading_spaces s.
Proof.
  induction s as [|c r IH]; simpl; auto.
  destruct (Ascii.eqb c SP) eqn:E; auto. simpl. rewrite E. reflexivity.
Qed.

Lemma drop_leading_head s : Ascii.eqb (get (drop_leading_spaces s) 0) SP = false.
Proof.
  induction s as [|c r IH]; [reflexivity|]. simpl.
  destruct (Ascii.eqb c SP) eqn:E; [exact IH | exact E].
Qed.

Lemma drop_leading_id s :
  Ascii.eqb (get s 0) SP = false -> drop_leading_spaces s = s.
Proof.
  destruct s as [|c r]; [reflexivity|]. unfold get; simpl.
  intros ->. reflexivity.
Qed.

Lemma collapse_space r :
  collapse_spaces (SP :: r) = SP :: drop_leading_spaces (collapse_spaces r).
Proof.
  induction r as [|c r IH].
  - reflexivity.
  - char_cases c SP E.
    + change (collapse_spaces (SP :: SP :: r)) with (collapse_spaces (SP :: r)).
      rewrite IH. simpl drop_leading_spaces at 2.
      rewrite drop_leading_idem. reflexivity.
    + assert (Ascii.eqb c SP = false) as E' by (apply Ascii.eqb_neq; exact E).
      simpl. rewrite E'. simpl. rewrite E'. reflexivity.
Qed.

Lemma collapse_other c r :
  c <> SP -> collapse_spaces (c :: r) = c :: collapse_spaces r.
Proof.
  intros Hc. simpl. apply Ascii.eqb_neq in Hc. rewrite Hc. reflexivity.
Qed.

Lemma replace_other numeral c r :
  c <> "$" -> replace_dollars numeral (c :: r) = c :: replace_dollars numeral r.
Proof.
  intros Hc. apply Ascii.eqb_neq in Hc. simpl. rewrite Hc.
  destruct r; reflexivity.
Qed.

Lemma replace_lone numeral r :
  Ascii.eqb (get r 0) "$" = false ->
  replace_dollars numeral ("$" :: r) = "$" :: replace_dollars numeral r.
Proof.
  intros Hr. destruct r as [|d r]; [reflexivity|].
  unfold get in Hr; simpl in Hr. simpl. rewrite Hr. reflexivity.
Qed.

Lemma replace_pair numeral r :
  replace_dollars numeral ("$" :: "$" :: r) = numeral ++ replace_dollars numeral r.
Proof. reflexivity. Qed.

Lemma cstr_end s : at_end s = true -> cstr s = [].
Proof. destruct s as [|c r]; simpl; auto. intros ->. reflexivity. Qed.

Lemma cstr_cons c r : c <> NUL -> cstr (c :: r) = c :: cstr r.
Proof. intros Hc. apply Ascii.eqb_neq in Hc. simpl. rewrite Hc. reflexivity. Qed.

Lemma get_cstr_0 r d :
  d <> NUL -> Ascii.eqb (get r 0) d = false -> Ascii.eqb (get (cstr r) 0) d = false.
Proof.
  intros Hd. destruct r as [|c r]; [auto|]. unfold get; simpl.
  char_cases c NUL E; simpl; [|auto].
  intros _. apply Ascii.eqb_neq. congruence.
Qed.

Lemma collapse_app_plain w r :
  Forall (fun c => is_plain c = true) w ->
  collapse_spaces (w ++ r) = w ++ collapse_spaces r.
Proof.
  induction 1 as [|c l Hc Hl IH]; [reflexivity|].
  apply is_plain_cases in Hc as (Hsp & _ & _).
  rewrite <- app_comm_cons, collapse_other, IH by exact Hsp. reflexivity.
Qed.

Lemma plain_head w :
  Forall (fun c => is_plain c = true) w -> w <> [] ->
  Ascii.eqb (get w 0) SP = false.
Proof.
  intros [|c l Hc _] Hne; [congruence|].
  apply is_plain_cases in Hc as (Hsp & _). unfold get; simpl.
  apply Ascii.eqb_neq; exact Hsp.
Qed.

Lemma get_app_0 (w x : list ascii) : w <> [] -> get (w ++ x) 0 = get w 0.
Proof. destruct w; [congruence | reflexivity]. Qed.

(** The numeral that replaces [$$]: plain characters, at least one. *)
Variable numeral : list ascii.
Hypothesis numeral_plain : Forall (fun c => is_plain c = true) numeral.
Hypothesis numeral_nonempty : numeral <> [].

(** The pass without and with the removal of leading spaces. *)
Let inner (s : list ascii) : list ascii :=
  collapse_spaces (replace_dollars numeral (cstr s)).
Let outer (s : list ascii) : list ascii := expand_spec numeral s.

Lemma outer_inner s : outer s = drop_leading_spaces (inner s).
Proof. reflexivity. Qed.

Lemma collapse_numeral r :
  collapse_spaces (numeral ++ r) = numeral ++ collapse_spaces r.
Proof. apply collapse_app_plain. exact numeral_plain. Qed.

Lemma inner_end s : at_end s = true -> inner s = [].
Proof. intros H. unfold inner. rewrite cstr_end by exact H. reflexivity. Qed.

Lemma inner_space r : inner (SP :: r) = SP :: outer r.
Proof.
  unfold inner. rewrite cstr_cons by discriminate.
  rewrite replace_other by discriminate.
  rewrite collapse_space. reflexivity.
Qed.

Lemma inner_plain c r : is_plain c = true -> inner (c :: r) = c :: inner r.
Proof.
  intros Hc. apply is_plain_cases in Hc as (Hsp & Hd & Hn).
  unfold inner. rewrite cstr_cons, replace_other, collapse_other; auto.
Qed.

Lemma inner_pair r : inner ("$" :: "$" :: r) = numeral ++ inner r.
Proof.
  unfold inner. rewrite !cstr_cons by discriminate.
  rewrite replace_pair, collapse_numeral. reflexivity.
Qed.

Lemma inner_lone r :
  Ascii.eqb (get r 0) "$" = false -> inner ("$" :: r) = "$" :: inner r.
Proof.
  intros Hr. unfold inner. rewrite cstr_cons by discriminate.
  rewrite replace_lone by (apply get_cstr_0; [discriminate | exact Hr]).
  rewrite collapse_other by discriminate. reflexivity.
Qed.

Lemma inner_app_plain w r :
  Forall (fun c => is_plain c = true) w -> inner (w ++ r) = w ++ inner r.
Proof.
  induction 1 as [|c l Hc Hl IH]; [reflexivity|].
  rewrite <- app_comm_cons, inner_plain, IH by exact Hc. reflexivity.
Qed.

Lemma numeral_head : Ascii.eqb (get numeral 0) SP = false.
Proof. apply plain_head; assumption. Qed.

(** Where the input does not start with a space there is nothing to drop. *)
Lemma outer_no_leading_space s :
  Ascii.eqb (get s 0) SP = false -> outer s = inner s.
Proof.
  intros Hs. rewrite outer_inner. apply drop_leading_id.
  destruct s as [|c r]; [reflexivity|]. unfold get in Hs; simpl in Hs.
  char_cases c NUL En; [rewrite inner_end by reflexivity; reflexivity|].
  char_cases c "$" Ed.
  - destruct (Ascii.eqb (get r 0) "$") eqn:Er.
    + apply Ascii.eqb_eq in Er.
      destruct r as [|d r]; [discriminate|]. unfold get in Er; simpl in Er; subst d.
      rewrite inner_pair, get_app_0 by exact numeral_nonempty.
      exact numeral_head.
    + rewrite inner_lone by exact Er. reflexivity.
  - rewrite inner_plain; [exact Hs|].
    apply is_plain_cases. apply Ascii.eqb_neq in Hs. auto.
Qed.

Lemma outer_skip s : outer (skip_spaces s) = outer s.
Proof.
  induction s as [|c r IH]; [reflexivity|]. simpl.
  char_cases c SP E; [|reflexivity].
  rewrite IH. rewrite (outer_inner (SP :: r)), inner_space. simpl.
  rewrite outer_inner. rewrite drop_leading_idem. reflexivity.
Qed.

Lemma skip_spaces_length s : List.length (skip_spaces s) <= List.length s.
Proof.
  induction s as [|c r IH]; simpl; [lia|].
  destruct (Ascii.eqb c SP); simpl; lia.
Qed.

Lemma skip_spaces_head s : Ascii.eqb (get (skip_spaces s) 0) SP = false.
Proof. rewrite <- drop_leading_is_skip. apply drop_leading_head. Qed.

Lemma skip_spaces_id s : Ascii.eqb (get s 0) SP = false -> skip_spaces s = s.
Proof. rewrite <- drop_leading_is_skip. apply drop_leading_id. Qed.

(** The word loop splits its input into the plain characters it copies and
    a rest that does not start with a plain character. *)
Lemma copy_word_spec inp : forall out,
  exists w rest,
    copy_word inp out = (rest, out ++ w) /\ inp = w ++ rest /\
    Forall (fun c => is_plain c = true) w /\
    is_plain (get rest 0) = false.
Proof.
  induction inp as [|c r IH]; intros out.
  - exists [], []. rewrite app_nil_r. repeat split; constructor.
  - simpl. destruct (Ascii.eqb c SP || Ascii.eqb c "$" || Ascii.eqb c NUL) eqn:E.
    + exists [], (c :: r). rewrite app_nil_r.
      split; [reflexivity|]. split; [reflexivity|]. split; [constructor|].
      unfold is_plain, get; simpl. rewrite E. reflexivity.
    + destruct (IH (out ++ [c])) as (w & rest & Hcw & Hr & Hw & Hrest).
      exists (c :: w), rest. rewrite Hcw, <- app_assoc. simpl.
      split; [reflexivity|]. split; [rewrite Hr; reflexivity|].
      split; [|exact Hrest]. constructor; [|exact Hw].
      unfold is_plain. rewrite E. reflexivity.
Qed.

(** The two tests after the word loop, from a rest that does not start with
    a plain character. *)
Lemma dollar_space_spec inp out :
  is_plain (get inp 0) = false ->
  exists d inp',
    (let (i, o) := expand_dollar numeral inp out in expand_space i o)
      = (inp', out ++ d) /\
    inner inp = d ++ outer inp' /\
    List.length inp' <= List.length inp /\
    (at_end inp = false -> List.length inp' < List.length inp).
Proof.
  intros Hnp. unfold expand_dollar, expand_space.
  destruct inp as [|c r].
  - exists [], []. rewrite app_nil_r. simpl. repeat split; auto. discriminate.
  - change (get (c :: r) 0) with c in *. change (get (c :: r) 1) with (get r 0).
    char_cases c "$" Ed.
    + (* a dollar *)
      assert (forall r' d0,
                inner ("$" :: r) = d0 ++ inner r' ->
                List.length r' < List.length ("$" :: r) ->
                exists d inp',
                  (if Ascii.eqb (get r' 0) SP
                   then (skipn 1 r', (out ++ d0) ++ [SP]) else (r', out ++ d0))
                    = (inp', out ++ d) /\
                  inner ("$" :: r) = d ++ outer inp' /\
                  List.length inp' <= List.length ("$" :: r) /\
                  (at_end ("$" :: r) = false ->
                   List.length inp' < List.length ("$" :: r))) as Hspace.
      { intros r' d0 Hin Hlen.
        destruct (Ascii.eqb (get r' 0) SP) eqn:Es.
        - destruct r' as [|s r'']; [discriminate|].
          unfold get in Es; simpl in Es. apply Ascii.eqb_eq in Es; subst s.
          exists (d0 ++ [SP]), r''. rewrite app_assoc.
          split; [reflexivity|]. rewrite Hin, inner_space, <- app_assoc.
          simpl in *. repeat split; auto; lia.
        - exists d0, r'. split; [reflexivity|].
          rewrite Hin, outer_no_leading_space by exact Es.
          repeat split; auto; lia. }
      simpl "&&". destruct (Ascii.eqb (get r 0) "$") eqn:Er.
      * destruct r as [|d r']; [discriminate|].
        unfold get in Er; simpl in Er. apply Ascii.eqb_eq in Er; subst d.
        apply (Hspace r' numeral); [apply inner_pair | simpl; lia].
      * change ("$" =? "$")%char with true. cbv iota.
        apply (Hspace r ["$"]); [apply inner_lone; exact Er | simpl; lia].
    + simpl "&&". cbv iota.
      change (get (c :: r) 0) with c.
      char_cases c SP Es.
      * exists [SP], r. split; [reflexivity|]. rewrite inner_space.
        simpl. repeat split; auto; lia.
      * assert (c = NUL) as ->.
        { unfold is_plain in Hnp. apply negb_false_iff in Hnp.
          apply orb_true_iff in Hnp as [Hnp|Hnp];
            [apply orb_true_iff in Hnp as [Hnp|Hnp]|];
            apply Ascii.eqb_eq in Hnp; congruence. }
        exists [], (NUL :: r). rewrite app_nil_r.
        split; [reflexivity|].
        rewrite inner_end by reflexivity.
        rewrite outer_inner, inner_end by reflexivity.
        simpl. repeat split; auto. discriminate.
Qed.

(** One turn of the loop writes a piece of the described output and leaves
    a shorter input. *)
Lemma expand_body_spec inp out :
  at_end inp = false ->
  exists d inp',
    expand_body numeral inp out = (inp', out ++ d) /\
    outer inp = d ++ outer inp' /\
    List.length inp' < List.length inp.
Proof.
  intros Hend. unfold expand_body.
  destruct (copy_word_spec (skip_spaces inp) out) as (w & rest & -> & Hsplit & Hw & Hrest).
  destruct (dollar_space_spec rest (out ++ w) Hrest) as (d & inp' & -> & Hin & Hle & Hlt).
  exists (w ++ d), inp'. rewrite app_assoc. split; [reflexivity|]. split.
  - rewrite <- outer_skip, outer_no_leading_space by apply skip_spaces_head.
    rewrite Hsplit, inner_app_plain, Hin, app_assoc by exact Hw. reflexivity.
  - pose proof (skip_spaces_length inp) as Hskip.
    assert (List.length (skip_spaces inp) = List.length w + List.length rest) as Hlen
      by (rewrite Hsplit, length_app; reflexivity).
    destruct inp as [|c r]; [discriminate|].
    simpl in Hend. char_cases c SP Es.
    + simpl in Hskip, Hlen. pose proof (skip_spaces_length r). simpl. lia.
    + rewrite skip_spaces_id in Hsplit, Hlen
        by (unfold get; simpl; apply Ascii.eqb_neq; exact Es).
      destruct w as [|c' w'].
      * simpl in Hsplit. subst rest. specialize (Hlt Hend). exact Hlt.
      * simpl in Hlen. simpl in *. lia.
Qed.

(** With fuel for every character, the loop writes the described output. *)
Lemma expand_loop_spec fuel : forall inp out,
  List.length inp <= fuel ->
  expand_loop fuel numeral inp out = out ++ outer inp.
Proof.
  induction fuel as [|fuel IH]; intros inp out Hlen.
  - destruct inp; [|simpl in Hlen; lia]. simpl. rewrite app_nil_r. reflexivity.
  - simpl. destruct (at_end inp) eqn:Hend.
    + rewrite outer_inner, inner_end by exact Hend. simpl.
      rewrite app_nil_r. reflexivity.
    + destruct (expand_body_spec inp out Hend) as (d & inp' & -> & Hout & Hlt).
      rewrite IH by lia. rewrite Hout, app_assoc. reflexivity.
Qed.

(** The described pass applied to its own output changes nothing. *)
Lemma inner_idem n : forall s, List.length s <= n -> inner (inner s) = inner s.
Proof.
  induction n as [|n IH]; intros s Hlen.
  - destruct s; [reflexivity | simpl in Hlen; lia].
  - destruct s as [|c r]; [reflexivity|]. simpl in Hlen.
    char_cases c NUL En; [rewrite (inner_end (NUL :: r)) by reflexivity; reflexivity|].
    char_cases c SP Es.
    + rewrite inner_space, inner_space. f_equal.
      rewrite (outer_inner r), drop_leading_is_skip, outer_skip, outer_inner.
      rewrite (IH r) by lia. apply drop_leading_is_skip.
    + char_cases c "$" Ed.
      * destruct (Ascii.eqb (get r 0) "$") eqn:Er.
        -- destruct r as [|d r']; [discriminate|].
           unfold get in Er; simpl in Er. apply Ascii.eqb_eq in Er; subst d.
           rewrite inner_pair, inner_app_plain by exact numeral_plain.
           simpl in Hlen. rewrite (IH r') by lia. reflexivity.
        -- rewrite inner_lone by exact Er.
           (* the output after a lone dollar does not start with a dollar *)
           assert (Ascii.eqb (get (inner r) 0) "$" = false) as Hh.
           { destruct r as [|d r']; [reflexivity|].
             unfold get in Er; simpl in Er.
             char_cases d NUL Edn;
               [rewrite inner_end by reflexivity; reflexivity|].
             char_cases d SP Eds; [rewrite inner_space; reflexivity|].
             rewrite inner_plain; [exact Er|].
             apply is_plain_cases. apply Ascii.eqb_neq in Er. auto. }
           rewrite (inner_lone _ Hh), (IH r) by lia. reflexivity.
      * assert (is_plain c = true) as Hp by (apply is_plain_cases; auto).
        rewrite inner_plain, inner_plain, (IH r) by (auto; lia). reflexivity.
Qed.

Lemma outer_idem s : outer (outer s) = outer s.
Proof.
  rewrite (outer_inner s), drop_leading_is_skip, outer_skip, outer_inner.
  rewrite (inner_idem (List.length s)) by lia. apply drop_leading_is_skip.
Qed.

End ExpandPass.

(** ** The numeral of the process identifier *)

Section Numeral.

Lemma digit_plain c : is_digit c = true -> is_plain c = true.
Proof.
  unfold is_digit. intros H. apply existsb_exists in H as (d & Hin & Hd).
  apply Ascii.eqb_eq in Hd; subst d.
  simpl in Hin. repeat (destruct Hin as [<-|Hin]; [reflexivity|]). destruct Hin.
Qed.

Lemma uint_digits d :
  Forall (fun c => is_digit c = true) (str (NilEmpty.string_of_uint d)).
Proof. induction d; simpl; constructor; auto. Qed.

Lemma uint_empty d : str (NilEmpty.string_of_uint d) = [] -> d = Decimal.Nil.
Proof. destruct d; simpl; intros H; congruence. Qed.

Lemma uint_leading_zero d :
  get (str (NilEmpty.string_of_uint d)) 0 = "0" -> exists d', d = Decimal.D0 d'.
Proof.
  destruct d; unfold get; simpl; intros H; try discriminate.
  eexists; reflexivity.
Qed.

(** The numeral of a positive number is in normal form. *)
Lemma pos_to_uint_normal p d' : Pos.to_uint p <> Decimal.D0 d'.
Proof.
  intros H.
  pose proof (DecimalPos.Unsigned.to_of (Pos.to_uint p)) as Hto.
  rewrite DecimalPos.Unsigned.of_to in Hto. simpl in Hto.
  pose proof (DecimalPos.Unsigned.to_uint_nonzero p) as Hnz.
  unfold Decimal.unorm in Hto.
  destruct (Decimal.nzhead (Pos.to_uint p)) eqn:Hnz';
    try (rewrite Hto in H; apply (nzhead_nonzero (Pos.to_uint p) d');
         rewrite Hnz'; exact H).
  apply Hnz. exact Hto.
Qed.

Lemma sprintf_d_plain v : Forall (fun c => is_plain c = true) (sprintf_d v).
Proof.
  unfold sprintf_d. destruct v; simpl.
  - repeat constructor.
  - eapply Forall_impl; [|apply uint_digits]. intros c; apply digit_plain.
  - constructor; [reflexivity|].
    eapply Forall_impl; [|apply uint_digits]. intros c; apply digit_plain.
Qed.

Lemma sprintf_d_nonempty v : sprintf_d v <> [].
Proof.
  unfold sprintf_d. destruct v; simpl; try discriminate.
  intros H. apply uint_empty in H.
  exact (DecimalPos.Unsigned.to_uint_nonnil p H).
Qed.

(** For a process identifier (never negative): decimal digits only, no
    leading zero unless the numeral is ["0"], and the numeral reads back as
    the number. *)
Lemma sprintf_d_numeral v :
  (0 <= v)%Z ->
  Forall (fun c => is_digit c = true) (sprintf_d v) /\
  (sprintf_d v = ["0"] \/ get (sprintf_d v) 0 <> "0") /\
  option_map Z.of_int
    (NilEmpty.int_of_string (string_of_list_ascii (sprintf_d v))) = Some v.
Proof.
  intros Hv. split; [|split].
  - unfold sprintf_d. destruct v; simpl; [repeat constructor | apply uint_digits | lia].
  - unfold sprintf_d. destruct v; simpl; [left; reflexivity | right | lia].
    intros H. apply uint_leading_zero in H as (d' & H).
    exact (pos_to_uint_normal p d' H).
  - unfold sprintf_d, str. rewrite string_of_list_ascii_of_string.
    rewrite NilEmpty.isi. simpl. rewrite DecimalZ.of_to. reflexivity.
Qed.

End Numeral.

(** ** The expansion pass, as [expand] computes it *)

Section ExpandTheorem.

Lemma expand_is_spec pid s : expand pid s = expand_spec (sprintf_d pid) s.
Proof.
  unfold expand.
  rewrite (expand_loop_spec (sprintf_d pid) (sprintf_d_plain pid)
             (sprintf_d_nonempty pid)) by lia.
  reflexivity.
Qed.

(** C5: the expansion pass replaces every [$$] (left to right, without
    overlap) by the decimal numeral of the process identifier, copies a lone
    [$], collapses every run of spaces to one space and drops leading
    spaces; applied to its own output it changes nothing; and the numeral of
    a process identifier consists of decimal digits, has no leading zero
    unless it is ["0"], and reads back as the identifier. *)
Theorem C5_expansion_pass (pid : Z) (input : list ascii) :
  expand pid input =
    drop_leading_spaces
      (collapse_spaces (replace_dollars (sprintf_d pid) (cstr input))) /\
  expand pid (expand pid input) = expand pid input /\
  ((0 <= pid)%Z ->
   Forall (fun c => is_digit c = true) (sprintf_d pid) /\
   (sprintf_d pid = ["0"] \/ get (sprintf_d pid) 0 <> "0") /\
   option_map Z.of_int
     (NilEmpty.int_of_string (string_of_list_ascii (sprintf_d pid))) = Some pid).
Proof.
  split; [apply expand_is_spec|]. split.
  - rewrite !expand_is_spec.
    apply outer_idem; first [apply sprintf_d_plain | apply sprintf_d_nonempty].
  - apply sprintf_d_numeral.
Qed.

Lemma C5_expansion_pass_witness :
  expand 4021 (str "  echo   $$ $ x$$$") = str "echo 4021 $ x4021$" /\
  get (sprintf_d 4021) 0 <> "0".
Proof.
  destruct (C5_expansion_pass 4021 (str "  echo   $$ $ x$$$")) as (H1 & _ & H3).
  split.
  - rewrite H1. reflexivity.
  - destruct H3 as (_ & [H|H] & _); [lia | discriminate | exact H].
Defined.

End ExpandTheorem.

(** ** The line buffer *)

Section Buffer.

#[local] Arguments Ascii.eqb : simpl never.

Lemma get_overflow s i : List.length s <= i -> get s i = NUL.
Proof. intros H. unfold get. apply nth_overflow. exact H. Qed.

Lemma get_app_l a b i : i < List.length a -> get (a ++ b) i = get a i.
Proof. intros H. unfold get. apply app_nth1. exact H. Qed.

Lemma get_app_r a b i : List.length a <= i -> get (a ++ b) i = get b (i - List.length a).
Proof. intros H. unfold get. apply app_nth2. lia. Qed.

Lemma get_skipn s k i : get (skipn k s) i = get s (k + i).
Proof. unfold get. apply nth_skipn. Qed.

Lemma get_repeat_NUL k i : get (repeat NUL k) i = NUL.
Proof.
  unfold get. revert i. induction k as [|k IH]; intros [|i]; simpl; auto.
Qed.

(** Storing a NUL changes that index only. *)
Lemma get_put0 s i j : get (put0 s i) j = if j =? i then NUL else get s j.
Proof.
  unfold put0. destruct (i <? List.length s) eqn:Hi.
  - apply Nat.ltb_lt in Hi.
    assert (List.length (firstn i s) = i) as Hlen by (rewrite length_firstn; lia).
    destruct (Nat.eqb_spec j i) as [->|Hne].
    + rewrite get_app_r by lia. rewrite Hlen, Nat.sub_diag. reflexivity.
    + destruct (Nat.lt_ge_cases j i) as [Hlt|Hge].
      * rewrite get_app_l by lia. unfold get. rewrite nth_firstn.
        apply Nat.ltb_lt in Hlt. rewrite Hlt. reflexivity.
      * rewrite get_app_r by lia. rewrite Hlen.
        destruct (j - i) as [|d] eqn:Hd; [lia|].
        change (get (NUL :: skipn (S i) s) (S d)) with (get (skipn (S i) s) d).
        rewrite get_skipn. f_equal. lia.
  - apply Nat.ltb_ge in Hi.
    destruct (Nat.eqb_spec j i) as [->|Hne]; [|reflexivity].
    apply get_overflow. exact Hi.
Qed.

Lemma put0_length s i : List.length (put0 s i) = List.length s.
Proof.
  unfold put0. destruct (i <? List.length s) eqn:Hi; [|reflexivity].
  apply Nat.ltb_lt in Hi.
  rewrite length_app, length_firstn. cbn [List.length]. rewrite length_skipn. lia.
Qed.

(** The string at an index, one character at a time. *)
Lemma cstr_at_unfold s k :
  cstr_at s k =
    if Ascii.eqb (get s k) NUL then [] else get s k :: cstr_at s (S k).
Proof.
  unfold cstr_at.
  destruct (skipn k s) as [|c r] eqn:Hs.
  - assert (get s k = NUL) as ->.
    { replace k with (k + 0) by lia. rewrite <- get_skipn, Hs. reflexivity. }
    reflexivity.
  - assert (get s k = c) as ->.
    { replace k with (k + 0) by lia. rewrite <- get_skipn, Hs. reflexivity. }
    assert (skipn (S k) s = r) as ->.
    { replace (S k) with (1 + k) by lia. rewrite <- skipn_skipn, Hs. reflexivity. }
    reflexivity.
Qed.

Lemma buf_agree_refl n a : buf_agree n a a.
Proof. intros i _. reflexivity. Qed.

Lemma buf_agree_le n m a b : m <= n -> buf_agree n a b -> buf_agree m a b.
Proof. intros Hle H i Hi. apply H. lia. Qed.

Lemma buf_agree_put0 n a b i :
  buf_agree n a b -> buf_agree n (put0 a i) (put0 b i).
Proof.
  intros H j Hj. rewrite !get_put0. destruct (j =? i); [reflexivity|].
  apply H. exact Hj.
Qed.

(** The strings at an index of two such buffers are the same when a NUL
    stands at or before index [n]. *)
Lemma cstr_at_agree n a b :
  buf_agree n a b -> get a n = NUL ->
  forall d k, k + d = n -> cstr_at a k = cstr_at b k.
Proof.
  intros Hag Hnul. induction d as [|d IH]; intros k Hk.
  - rewrite (cstr_at_unfold a), (cstr_at_unfold b).
    rewrite <- (Hag k) by lia. replace k with n by lia. rewrite Hnul. reflexivity.
  - rewrite (cstr_at_unfold a), (cstr_at_unfold b).
    rewrite <- (Hag k) by lia.
    destruct (Ascii.eqb (get a k) NUL); [reflexivity|].
    f_equal. apply IH. lia.
Qed.

Lemma rtrim_snoc a c :
  rtrim (a ++ [c]) = if is_blank c then rtrim a else a ++ [c].
Proof.
  induction a as [|x a IH].
  - simpl. destruct (is_blank c); reflexivity.
  - change (rtrim ((x :: a) ++ [c]))
      with (match rtrim (a ++ [c]) with
            | [] => if is_blank x then [] else [x]
            | kept => x :: kept
            end).
    rewrite IH. destruct (is_blank c); [reflexivity|].
    destruct (a ++ [c]) eqn:E; [|simpl; rewrite E; reflexivity].
    apply app_eq_nil in E as [_ E]. discriminate.
Qed.

Lemma rtrim_length a : List.length (rtrim a) <= List.length a.
Proof.
  induction a as [|x a IH]; simpl; [lia|].
  destruct (rtrim a); simpl in *; [destruct (is_blank x); simpl; lia | lia].
Qed.

(** The trimmed string is what stands before the trailing blanks. *)
Lemma rtrim_prefix a :
  exists blanks, a = rtrim a ++ blanks /\ Forall (fun c => is_blank c = true) blanks.
Proof.
  induction a as [|c a' IH] using rev_ind.
  - exists []. split; [reflexivity | constructor].
  - rewrite rtrim_snoc. destruct (is_blank c) eqn:Hc.
    + destruct IH as (bl & Ha & Hbl). exists (bl ++ [c]). split.
      * rewrite app_assoc, <- Ha. reflexivity.
      * apply Forall_app; split; [exact Hbl | repeat constructor; exact Hc].
    + exists []. rewrite app_nil_r. split; [reflexivity | constructor].
Qed.

Lemma rtrim_last a : rtrim a <> [] -> is_blank (last (rtrim a) NUL) = false.
Proof.
  induction a as [|c a' IH] using rev_ind; [simpl; congruence|].
  rewrite rtrim_snoc. destruct (is_blank c) eqn:Hc; [exact IH|].
  intros _. rewrite last_last. exact Hc.
Qed.

(** [truncate_right] on the whole buffer: NULs over the trailing blanks. *)
Lemma truncate_right_rtrim a : forall b,
  truncate_right (a ++ b) 0 (List.length a) =
    (rtrim a ++ repeat NUL (List.length a - List.length (rtrim a)) ++ b,
     List.length (rtrim a)).
Proof.
  induction a as [|c a' IH] using rev_ind; intros b.
  - reflexivity.
  - rewrite length_app. simpl List.length. rewrite Nat.add_1_r.
    cbn [truncate_right]. simpl Nat.add.
    assert (get ((a' ++ [c]) ++ b) (List.length a') = c) as ->.
    { rewrite <- app_assoc, get_app_r by lia. rewrite Nat.sub_diag. reflexivity. }
    rewrite rtrim_snoc. unfold is_blank.
    destruct (Ascii.eqb c SP || Ascii.eqb c NL) eqn:Hc.
    + assert (put0 ((a' ++ [c]) ++ b) (List.length a') = a' ++ NUL :: b) as ->.
      { unfold put0. rewrite !length_app. simpl List.length.
        assert ((List.length a' <? List.length a' + 1 + List.length b) = true) as ->
          by (apply Nat.ltb_lt; lia).
        rewrite <- !app_assoc.
        rewrite firstn_app, firstn_all, Nat.sub_diag. simpl firstn.
        rewrite app_nil_r. f_equal.
        replace (S (List.length a')) with (List.length a' + 1) by lia.
        rewrite skipn_app, skipn_all2 by lia.
        replace (List.length a' + 1 - List.length a') with 1 by lia.
        reflexivity. }
      rewrite IH.
      pose proof (rtrim_length a') as Hl.
      replace (S (List.length a') - List.length (rtrim a'))
        with (S (List.length a' - List.length (rtrim a'))) by lia.
      simpl repeat. rewrite repeat_cons, <- app_assoc. reflexivity.
    + rewrite length_app. simpl List.length.
      replace (S (List.length a') - (List.length a' + 1)) with 0 by lia.
      rewrite Nat.add_1_r. reflexivity.
Qed.

End Buffer.

(** ** Tokens *)

Section Tokens.

#[local] Arguments Ascii.eqb : simpl never.

Import Config.

Lemma tokens_skip s : tokens (skip_spaces s) = tokens s.
Proof.
  unfold tokens. induction s as [|c r IH]; [reflexivity|]. simpl.
  destruct (Ascii.eqb c SP) eqn:Es; [|simpl; rewrite Es; reflexivity].
  apply Ascii.eqb_eq in Es; subst c. rewrite IH. reflexivity.
Qed.

Lemma tokens_end s : at_end s = true -> tokens s = [].
Proof.
  unfold tokens. destruct s as [|c r]; [reflexivity|]. simpl.
  intros ->. reflexivity.
Qed.

(** [span_token] reads the characters of one token. *)
Lemma span_token_spec s : forall cur,
  tokens_from cur s = tokens_from (cur ++ fst (span_token s)) (snd (span_token s)) /\
  (Ascii.eqb (get (snd (span_token s)) 0) SP = true \/
   at_end (snd (span_token s)) = true) /\
  (Ascii.eqb (get s 0) SP = false -> at_end s = false -> fst (span_token s) <> []).
Proof.
  induction s as [|c r IH]; intros cur.
  - simpl. rewrite app_nil_r. split; [reflexivity|]. split; [right; reflexivity|].
    intros _ H; discriminate.
  - cbn [span_token tokens_from at_end]. change (get (c :: r) 0) with c.
    destruct (Ascii.eqb c SP) eqn:Es; destruct (Ascii.eqb c NUL) eqn:En;
      cbn [orb fst snd]; try change (get (c :: r) 0) with c.
    + rewrite app_nil_r. cbn [tokens_from]. rewrite ?En, ?Es.
      split; [reflexivity|]. split; [left; reflexivity | congruence].
    + rewrite app_nil_r. cbn [tokens_from]. rewrite ?En, ?Es.
      split; [reflexivity|]. split; [left; reflexivity | congruence].
    + rewrite app_nil_r. cbn [tokens_from]. rewrite ?En, ?Es.
      split; [reflexivity|]. split; [right; simpl; exact En | congruence].
    + destruct (IH (cur ++ [c])) as (Ht & Hr & _).
      destruct (span_token r) as [tok rest]. cbn [fst snd] in *.
      rewrite <- app_assoc in Ht.
      split; [exact Ht|]. split; [exact Hr|].
      intros _ _; discriminate.
Qed.

Lemma strtok_r_tokens s :
  match strtok_r s with
  | None => tokens s = []
  | Some (tok, rest) => tokens s = tok :: tokens rest /\ tok <> []
  end.
Proof.
  unfold strtok_r. rewrite <- (tokens_skip s).
  pose proof (skip_spaces_head s) as Hhead.
  destruct (at_end (skip_spaces s)) eqn:Hend; [apply tokens_end; exact Hend|].
  destruct (span_token_spec (skip_spaces s) []) as (Ht & Hr & Hne).
  specialize (Hne Hhead Hend).
  destruct (span_token (skip_spaces s)) as [tok rest]. simpl in *.
  split; [|exact Hne].
  unfold tokens at 1. rewrite Ht.
  destruct rest as [|c r].
  - destruct tok; [congruence | reflexivity].
  - unfold get; simpl. unfold get in Hr; simpl in Hr.
    destruct (Ascii.eqb c SP) eqn:Es.
    + apply Ascii.eqb_eq in Es; subst c. simpl.
      destruct tok; [congruence | reflexivity].
    + destruct Hr as [Hr|Hr]; [discriminate|].
      simpl. rewrite Hr. unfold tokens. simpl. rewrite Hr.
      destruct tok; [congruence | reflexivity].
Qed.

(** The collecting loop stops at [MAX_ARGV_SIZE] tokens. *)
Lemma parse_args_loop_spec fuel : forall i tok save args,
  i < MAX_ARGV_SIZE -> MAX_ARGV_SIZE - S i <= fuel ->
  parse_args_loop fuel i tok save args =
    args ++ firstn (MAX_ARGV_SIZE - i) (tok :: tokens save).
Proof.
  induction fuel as [|fuel IH]; intros i tok save args Hi Hfuel.
  - assert (MAX_ARGV_SIZE - i = 1) as -> by lia.
    simpl. destruct (strtok_r save) as [[tok' save']|]; reflexivity.
  - cbn [parse_args_loop].
    pose proof (strtok_r_tokens save) as Htk.
    destruct (strtok_r save) as [[tok' save']|].
    + destruct Htk as [Htk _]. rewrite Htk.
      destruct (S i <? MAX_ARGV_SIZE) eqn:Hlt.
      * apply Nat.ltb_lt in Hlt. rewrite IH by lia.
        rewrite <- app_assoc. f_equal.
        replace (MAX_ARGV_SIZE - i) with (S (MAX_ARGV_SIZE - S i)) by lia.
        reflexivity.
      * apply Nat.ltb_ge in Hlt.
        assert (MAX_ARGV_SIZE - i = 1) as -> by lia. reflexivity.
    + rewrite Htk.
      replace (MAX_ARGV_SIZE - i) with (S (MAX_ARGV_SIZE - S i)) by lia.
      simpl. rewrite firstn_nil. reflexivity.
Qed.

Lemma span_token_app s : fst (span_token s) ++ snd (span_token s) = s.
Proof.
  induction s as [|c r IH]; [reflexivity|]. simpl.
  destruct (Ascii.eqb c SP || Ascii.eqb c NUL); [reflexivity|].
  destruct (span_token r) as [tok rest]. simpl in *. rewrite IH. reflexivity.
Qed.

Lemma tokens_nonempty s : Forall (fun t => t <> []) (tokens s).
Proof.
  assert (forall n s, List.length s <= n -> Forall (fun t => t <> []) (tokens s)) as H.
  { clear s. induction n as [|n IH]; intros s Hlen.
    - destruct s; [constructor | simpl in Hlen; lia].
    - pose proof (strtok_r_tokens s) as Htk. unfold strtok_r in Htk.
      destruct (at_end (skip_spaces s)) eqn:Hend; [rewrite Htk; constructor|].
      pose proof (span_token_app (skip_spaces s)) as Happ.
      apply (f_equal (@List.length ascii)) in Happ. rewrite length_app in Happ.
      pose proof (skip_spaces_length s) as Hskip.
      destruct (span_token (skip_spaces s)) as [tok rest]. simpl in Happ.
      destruct Htk as [Htk Htok]. rewrite Htk. constructor; [exact Htok|].
      assert (0 < List.length tok) by (destruct tok; [congruence | simpl; lia]).
      apply IH.
      destruct (Ascii.eqb (get rest 0) SP).
      + rewrite length_skipn. lia.
      + lia. }
  apply (H (List.length s)). lia.
Qed.

(** [parse_args] on a string that holds a token: the first [MAX_ARGV_SIZE]
    tokens, and no undefined behaviour. *)
Lemma parse_args_spec s :
  tokens s <> [] -> parse_args s = Ret (firstn MAX_ARGV_SIZE (tokens s)).
Proof.
  intros Hne. unfold parse_args.
  pose proof (strtok_r_tokens s) as Htk.
  destruct (strtok_r s) as [[tok save]|]; [|congruence].
  destruct Htk as [Htk _].
  rewrite parse_args_loop_spec by (unfold MAX_ARGV_SIZE; lia).
  rewrite Htk, Nat.sub_0_r. reflexivity.
Qed.

Lemma tokens_head s :
  Ascii.eqb (get s 0) SP = false -> Ascii.eqb (get s 0) NUL = false ->
  tokens s <> [].
Proof.
  intros Hs Hn. pose proof (strtok_r_tokens s) as Htk. unfold strtok_r in Htk.
  rewrite skip_spaces_id in Htk by exact Hs.
  destruct s as [|c r]; [discriminate|]. unfold get in Hn; simpl in Hn.
  simpl at_end in Htk. rewrite Hn in Htk.
  destruct (span_token (c :: r)). destruct Htk as [-> _]. discriminate.
Qed.

End Tokens.

(** ** The shape of a parsed line *)

Section ParseCommand.

#[local] Arguments Ascii.eqb : simpl never.

Import Config.

Lemma cstr_no_nul s : Forall (fun c => c <> NUL) (cstr s).
Proof.
  induction s as [|c r IH]; simpl; [constructor|].
  destruct (Ascii.eqb c NUL) eqn:E; constructor; [|exact IH].
  apply Ascii.eqb_neq; exact E.
Qed.

Lemma replace_Forall (P : ascii -> Prop) numeral :
  Forall P numeral ->
  forall n x, List.length x <= n -> Forall P x -> Forall P (replace_dollars numeral x).
Proof.
  intros Hn. induction n as [|n IH]; intros x Hlen Hx.
  - destruct x; [constructor | simpl in Hlen; lia].
  - destruct x as [|c [|d r]]; [constructor | exact Hx |].
    change (replace_dollars numeral (c :: d :: r))
      with (if Ascii.eqb c "$" && Ascii.eqb d "$"
            then numeral ++ replace_dollars numeral r
            else c :: replace_dollars numeral (d :: r)).
    simpl in Hlen.
    inversion Hx as [|? ? Hc Hx']; subst.
    destruct (Ascii.eqb c "$" && Ascii.eqb d "$").
    + apply Forall_app; split; [exact Hn|].
      inversion Hx'; subst. apply IH; [lia | assumption].
    + constructor; [exact Hc|]. apply IH; [simpl; lia | exact Hx'].
Qed.

Lemma collapse_Forall (P : ascii -> Prop) x :
  Forall P x -> Forall P (collapse_spaces x).
Proof.
  induction 1 as [|c r Hc Hr IH]; simpl; [constructor|].
  destruct (Ascii.eqb c SP && Ascii.eqb (hd NUL r) SP); [exact IH|].
  constructor; assumption.
Qed.

Lemma drop_leading_Forall (P : ascii -> Prop) x :
  Forall P x -> Forall P (drop_leading_spaces x).
Proof.
  induction 1 as [|c r Hc Hr IH]; simpl; [constructor|].
  destruct (Ascii.eqb c SP); [exact IH | constructor; assumption].
Qed.

(** The expanded line holds no NUL and does not start with a space. *)
Lemma expand_no_nul pid s : Forall (fun c => c <> NUL) (expand pid s).
Proof.
  rewrite expand_is_spec. unfold expand_spec.
  apply drop_leading_Forall, collapse_Forall.
  eapply replace_Forall; [| reflexivity | apply cstr_no_nul].
  eapply Forall_impl; [|apply sprintf_d_plain].
  intros c Hc. apply is_plain_cases in Hc. tauto.
Qed.

Lemma expand_head pid s : Ascii.eqb (get (expand pid s) 0) SP = false.
Proof. rewrite expand_is_spec. apply drop_leading_head. Qed.

Lemma trimmed_head pid s :
  trimmed pid s <> [] ->
  Ascii.eqb (get (trimmed pid s) 0) SP = false /\
  Ascii.eqb (get (trimmed pid s) 0) NUL = false.
Proof.
  unfold trimmed. intros Hne.
  destruct (rtrim_prefix (expand pid s)) as (bl & He & _).
  pose proof (expand_head pid s) as Hh.
  pose proof (expand_no_nul pid s) as Hn.
  rewrite He in Hh, Hn.
  destruct (rtrim (expand pid s)) as [|c t]; [congruence|].
  unfold get in *; simpl in *. split; [exact Hh|].
  inversion Hn; subst. apply Ascii.eqb_neq. assumption.
Qed.

(** [parse_command] after the two trimming passes, where the expansion
    fits the buffer. *)
Lemma parse_command_unfold pid line :
  fits_buffer pid line ->
  exists k,
    parse_command pid line =
      if List.length (trimmed pid line) =? 0 then Ret None
      else if Ascii.eqb (get (trimmed pid line) 0) "#" then Ret None
           else match detect_background (trimmed pid line ++ repeat NUL k) 0
                        (List.length (trimmed pid line) - 1) with
                | (bg, cs, new_right) => parse_spans bg cs 0 new_right
                end.
Proof.
  intros Hfit. unfold parse_command, trimmed.
  assert ((MAX_INPUT_CHARS_SIZE <=? List.length (expand pid line)) = false) as ->
    by (apply Nat.leb_gt; exact Hfit).
  exists (List.length (expand pid line) - List.length (rtrim (expand pid line))).
  pose proof (truncate_right_rtrim (expand pid line) []) as Htr.
  rewrite !app_nil_r in Htr. rewrite Htr.
  destruct (List.length (rtrim (expand pid line)) =? 0) eqn:Hlen; [reflexivity|].
  apply Nat.eqb_neq in Hlen.
  rewrite get_app_l by lia. reflexivity.
Qed.

(** The blocks of the call, after the same two passes. *)
Lemma parse_command_blocks_unfold pid line :
  exists k,
    parse_command_blocks pid line =
      if List.length (trimmed pid line) =? 0 then []
      else if Ascii.eqb (get (trimmed pid line) 0) "#" then []
           else match detect_background (trimmed pid line ++ repeat NUL k) 0
                        (List.length (trimmed pid line) - 1) with
                | (_, cs, new_right) => parse_spans_blocks cs 0 new_right
                end.
Proof.
  unfold parse_command_blocks, trimmed.
  exists (List.length (expand pid line) - List.length (rtrim (expand pid line))).
  pose proof (truncate_right_rtrim (expand pid line) []) as Htr.
  rewrite !app_nil_r in Htr. rewrite Htr.
  destruct (List.length (rtrim (expand pid line)) =? 0) eqn:Hlen; [reflexivity|].
  apply Nat.eqb_neq in Hlen.
  rewrite get_app_l by lia. reflexivity.
Qed.

(** The buffer that steps (3) and (4) receive starts with a character of
    the command. *)
Lemma detect_background_head cs r :
  fst (fst (detect_background cs 0 r)) = true \/
  fst (fst (detect_background cs 0 r)) = false ->
  get (snd (fst (detect_background cs 0 r))) 0 = get cs 0.
Proof.
  intros _. unfold detect_background.
  destruct (Ascii.eqb (get cs r) "&" && (0 + 1 <? r)
            && Ascii.eqb (get cs (r - 1)) SP) eqn:E; [|reflexivity].
  simpl. rewrite get_put0.
  apply andb_true_iff in E as [E _]. apply andb_true_iff in E as [_ E].
  apply Nat.ltb_lt in E.
  destruct (Nat.eqb_spec 0 (r - 1)); [lia | reflexivity].
Qed.

(** Steps (3) and (4) on a buffer that starts with a character of the
    command: a descriptor, its [argv] the first [MAX_ARGV_SIZE] tokens of a
    string that holds one. *)
Lemma parse_spans_ok bg cs r :
  Ascii.eqb (get cs 0) SP = false -> Ascii.eqb (get cs 0) NUL = false ->
  exists c arg_string,
    parse_spans bg cs 0 r = Ret (Some c) /\ background c = bg /\
    tokens arg_string <> [] /\
    argv c = firstn MAX_ARGV_SIZE (tokens arg_string).
Proof.
  intros Hsp Hnul. unfold parse_spans.
  set (ar := scan_to_redirect (r - 0) cs r 0).
  assert (exists cs1 ar1,
            (if Ascii.eqb (get cs ar) SP then (put0 cs ar, S ar) else (cs, ar))
              = (cs1, ar1) /\ get cs1 0 = get cs 0) as (cs1 & ar1 & -> & Hget).
  { destruct (Ascii.eqb (get cs ar) SP) eqn:E.
    - eexists _, _. split; [reflexivity|]. rewrite get_put0.
      destruct (Nat.eqb_spec 0 ar) as [<-|]; [congruence | reflexivity].
    - eexists _, _. split; reflexivity. }
  assert (tokens (cstr_at cs1 0) <> []) as Htok.
  { apply tokens_head; rewrite cstr_at_unfold, Hget, Hnul; unfold get; simpl;
      assumption. }
  rewrite (parse_args_spec _ Htok).
  eexists _, (cstr_at cs1 0). split; [reflexivity|]. simpl. auto.
Qed.

Lemma Forall_firstn_keep {A} (P : A -> Prop) n : forall l,
  Forall P l -> Forall P (firstn n l).
Proof.
  induction n as [|n IH]; intros l Hl; [constructor|].
  destruct Hl; simpl; constructor; auto.
Qed.

Lemma firstn_tokens_facts s :
  tokens s <> [] ->
  firstn MAX_ARGV_SIZE (tokens s) <> [] /\
  Forall (fun t => t <> []) (firstn MAX_ARGV_SIZE (tokens s)) /\
  List.length (firstn MAX_ARGV_SIZE (tokens s)) <= MAX_ARGV_SIZE.
Proof.
  intros Hne. split; [|split].
  - destruct (tokens s); [congruence | discriminate].
  - apply Forall_firstn_keep, tokens_nonempty.
  - rewrite length_firstn. lia.
Qed.

(** Every line that is neither blank nor a comment yields a descriptor. *)
Lemma parse_command_descriptor pid line :
  fits_buffer pid line ->
  trimmed pid line <> [] -> get (trimmed pid line) 0 <> "#" ->
  exists c arg_string,
    parse_command pid line = Ret (Some c) /\
    tokens arg_string <> [] /\
    argv c = firstn MAX_ARGV_SIZE (tokens arg_string).
Proof.
  intros Hfit Hne Hhash.
  destruct (parse_command_unfold pid line Hfit) as (k & ->).
  destruct (trimmed_head pid line Hne) as [Hsp Hnul].
  destruct (List.length (trimmed pid line) =? 0) eqn:Hlen.
  { apply Nat.eqb_eq in Hlen. destruct (trimmed pid line); [congruence | discriminate]. }
  apply Nat.eqb_neq in Hlen.
  apply Ascii.eqb_neq in Hhash. rewrite Hhash.
  pose proof (detect_background_head (trimmed pid line ++ repeat NUL k)
                (List.length (trimmed pid line) - 1)) as Hhead.
  destruct (detect_background _ 0 _) as [[bg cs] r]. simpl in Hhead.
  rewrite get_app_l in Hhead by lia.
  assert (get cs 0 = get (trimmed pid line) 0) as Hcs
    by (apply Hhead; destruct bg; auto).
  destruct (parse_spans_ok bg cs r) as (c & arg_string & Hc & _ & Htok & Hargv);
    [rewrite Hcs; exact Hsp | rewrite Hcs; exact Hnul |].
  exists c, arg_string. auto.
Qed.

(** The two outcomes of [parse_command]. *)
Lemma parse_command_cases pid line :
  fits_buffer pid line ->
  ((trimmed pid line = [] \/ get (trimmed pid line) 0 = "#") /\
   parse_command pid line = Ret None) \/
  (trimmed pid line <> [] /\ get (trimmed pid line) 0 <> "#" /\
   exists c arg_string,
     parse_command pid line = Ret (Some c) /\
     tokens arg_string <> [] /\
     argv c = firstn MAX_ARGV_SIZE (tokens arg_string)).
Proof.
  intros Hfit.
  destruct (trimmed pid line) as [|t0 t] eqn:Ht.
  - left. destruct (parse_command_unfold pid line Hfit) as (k & Hp).
    rewrite Ht in Hp. simpl in Hp. auto.
  - destruct (Ascii.eqb t0 "#") eqn:Hhash.
    + left. destruct (parse_command_unfold pid line Hfit) as (k & Hp).
      rewrite Ht in Hp. change (get (t0 :: t) 0) with t0 in Hp.
      rewrite Hhash in Hp. simpl in Hp.
      apply Ascii.eqb_eq in Hhash. auto.
    + right. apply Ascii.eqb_neq in Hhash.
      split; [discriminate|]. split; [exact Hhash|].
      apply parse_command_descriptor; [exact Hfit | |]; rewrite Ht;
        [discriminate | exact Hhash].
Qed.

(** Where the expansion fits the buffer, [parse_command] returns no
    descriptor exactly when the line, after the expansion pass and the right
    trim, is empty or starts with [#]; it stays within defined behaviour;
    and the [argv] of a returned descriptor has at least one element and no
    empty one. *)
Lemma descriptor_invariant_within_buffer (pid : Z) (line : list ascii) :
  fits_buffer pid line ->
  trimmed pid line = rtrim (expand_spec (sprintf_d pid) line) /\
  (parse_command pid line = Ret None <->
   trimmed pid line = [] \/ get (trimmed pid line) 0 = "#") /\
  parse_command pid line <> UB /\
  (forall c, parse_command pid line = Ret (Some c) ->
     argv c <> [] /\ Forall (fun a => a <> []) (argv c)).
Proof.
  intros Hfit.
  split; [unfold trimmed; rewrite expand_is_spec; reflexivity|].
  destruct (parse_command_cases pid line Hfit)
    as [(Hblank & Hp)|(Hne & Hhash & c & s & Hp & Htok & Hargv)]; rewrite Hp.
  - split; [split; auto|]. split; [discriminate|]. intros c Hc; discriminate.
  - split; [|split].
    + split; [discriminate|]. intros [H|H]; contradiction.
    + discriminate.
    + intros c' Hc'. inversion Hc'; subst c'. rewrite Hargv.
      destruct (firstn_tokens_facts s Htok) as (H1 & H2 & _). auto.
Qed.

(** An expansion that does not fit is written past the buffer. *)
Lemma parse_command_overrun pid line :
  MAX_INPUT_CHARS_SIZE <= List.length (expand pid line) ->
  parse_command pid line = UB.
Proof.
  intros H. unfold parse_command.
  apply Nat.leb_le in H. rewrite H. reflexivity.
Qed.

(** C3, evaluated on a line of 1000 [$$] and its newline, which [fgets]
    stores whole, in a process whose id has four digits: the expansion has
    4001 characters and is written past the 2050 of the buffer, although the
    trimmed text is neither empty nor a comment; so is the expansion of the
    same line as a comment, which should give no descriptor. *)
Theorem C3_long_expansion_overruns :
  List.length (dollars 1000 ++ [NL]) < MAX_INPUT_CHARS_SIZE /\
  List.length (expand 4021 (dollars 1000 ++ [NL])) = 4001 /\
  trimmed 4021 (dollars 1000 ++ [NL]) <> [] /\
  get (trimmed 4021 (dollars 1000 ++ [NL])) 0 <> "#" /\
  parse_command 4021 (dollars 1000 ++ [NL]) = UB /\
  get (trimmed 4021 ("#" :: dollars 1000 ++ [NL])) 0 = "#" /\
  parse_command 4021 ("#" :: dollars 1000 ++ [NL]) = UB.
Proof.
  assert (expand 4021 (dollars 1000 ++ [NL])
          = concat (repeat (str "4021") 1000) ++ [NL]) as He
    by (vm_compute; reflexivity).
  assert (expand 4021 ("#" :: dollars 1000 ++ [NL])
          = "#" :: concat (repeat (str "4021") 1000) ++ [NL]) as Hc
    by (vm_compute; reflexivity).
  split; [apply Nat.ltb_lt; vm_compute; reflexivity|].
  split; [rewrite He; vm_compute; reflexivity|].
  split; [unfold trimmed; rewrite He; vm_compute; discriminate|].
  split; [unfold trimmed; rewrite He; vm_compute; discriminate|].
  split; [apply parse_command_overrun; rewrite He; apply Nat.leb_le;
          vm_compute; reflexivity|].
  split; [unfold trimmed; rewrite Hc; vm_compute; reflexivity|].
  apply parse_command_overrun. rewrite Hc. apply Nat.leb_le. vm_compute. reflexivity.
Qed.





End ParseCommand.

(** ** What steps (3) and (4) read *)

Section SpansRead.

#[local] Arguments Ascii.eqb : simpl never.

Lemma get_tl (a : list ascii) i : get (tl a) i = get a (S i).
Proof. destruct a; [destruct i; reflexivity | reflexivity]. Qed.

Lemma strncmp_eq_agree n : forall a b pat,
  (forall i, i < n -> get a i = get b i) ->
  strncmp_eq a pat n = strncmp_eq b pat n.
Proof.
  induction n as [|n IH]; intros a b pat H; [reflexivity|].
  cbn [strncmp_eq].
  assert (hd NUL a = hd NUL b) as ->.
  { specialize (H 0). unfold get in H. destruct a, b; simpl in *; apply H; lia. }
  destruct (Ascii.eqb (hd NUL b) (hd NUL pat)); [|reflexivity].
  destruct (Ascii.eqb (hd NUL b) NUL); [reflexivity|].
  apply IH. intros i Hi. rewrite !get_tl. apply H. lia.
Qed.

Lemma is_redirect_at_agree a b k :
  buf_agree (k + 2) a b -> is_redirect_at a k = is_redirect_at b k.
Proof.
  intros H. unfold is_redirect_at.
  rewrite (strncmp_eq_agree 3 (skipn k a) (skipn k b) (str " > ")),
          (strncmp_eq_agree 3 (skipn k a) (skipn k b) (str " < "));
    [reflexivity | |]; intros i Hi; rewrite !get_skipn; apply H; lia.
Qed.

Lemma scan_to_redirect_agree r a b :
  buf_agree (r + 1) a b ->
  forall fuel k, scan_to_redirect fuel a r k = scan_to_redirect fuel b r k.
Proof.
  intros H. induction fuel as [|fuel IH]; intros k; [reflexivity|].
  cbn [scan_to_redirect]. destruct (k <? r) eqn:Hk; [|reflexivity].
  apply Nat.ltb_lt in Hk.
  rewrite (is_redirect_at_agree a b k) by (eapply buf_agree_le; [|exact H]; lia).
  rewrite IH. reflexivity.
Qed.

Lemma scan_to_redirect_bound cs r : forall fuel k,
  k <= r -> k <= scan_to_redirect fuel cs r k <= r.
Proof.
  induction fuel as [|fuel IH]; intros k Hk; simpl; [lia|].
  destruct (k <? r) eqn:Hlt; simpl; [|lia].
  apply Nat.ltb_lt in Hlt.
  destruct (is_redirect_at cs k); simpl; [lia|].
  specialize (IH (S k)). lia.
Qed.

Lemma skip_spaces_to_agree r a b :
  buf_agree r a b ->
  forall fuel left, left <= r ->
    skip_spaces_to fuel a r left = skip_spaces_to fuel b r left.
Proof.
  intros H. induction fuel as [|fuel IH]; intros left Hl; [reflexivity|].
  cbn [skip_spaces_to]. rewrite (H left Hl).
  destruct (left <? r) eqn:Hlt; [|rewrite !andb_false_r; reflexivity].
  apply Nat.ltb_lt in Hlt. rewrite IH by lia. reflexivity.
Qed.

Lemma skip_spaces_to_bound cs r : forall fuel left,
  left <= r -> left <= skip_spaces_to fuel cs r left <= r.
Proof.
  induction fuel as [|fuel IH]; intros left Hl; simpl; [lia|].
  destruct (left <? r) eqn:Hlt; [|rewrite andb_false_r; lia].
  apply Nat.ltb_lt in Hlt.
  destruct (Ascii.eqb (get cs left) SP); simpl; [|lia].
  specialize (IH (S left)). lia.
Qed.

(** The index loops end because their test fails, not for lack of fuel. *)
Lemma scan_to_redirect_stops cs r : forall fuel k,
  r - k <= fuel ->
  (scan_to_redirect fuel cs r k <? r)
  && negb (is_redirect_at cs (scan_to_redirect fuel cs r k)) = false.
Proof.
  induction fuel as [|fuel IH]; intros k Hk; cbn [scan_to_redirect].
  - assert ((k <? r) = false) as -> by (apply Nat.ltb_ge; lia). reflexivity.
  - destruct ((k <? r) && negb (is_redirect_at cs k)) eqn:E; [|exact E].
    apply IH. lia.
Qed.

Lemma skip_spaces_to_stops cs r : forall fuel left,
  r - left <= fuel ->
  Ascii.eqb (get cs (skip_spaces_to fuel cs r left)) SP
  && (skip_spaces_to fuel cs r left <? r) = false.
Proof.
  induction fuel as [|fuel IH]; intros left Hl; cbn [skip_spaces_to].
  - assert ((left <? r) = false) as -> by (apply Nat.ltb_ge; lia).
    apply andb_false_r.
  - destruct (Ascii.eqb (get cs left) SP && (left <? r)) eqn:E; [|exact E].
    apply IH. lia.
Qed.

Lemma redirect_body_advances r st :
  rs_left st < r -> rs_left st + 2 <= rs_left (redirect_body r st).
Proof.
  intros Hlt. unfold redirect_body.
  set (left1 := S (rs_left st)).
  set (left2 := skip_spaces_to (r - left1) (rs_buffer st) r left1).
  assert (left1 <= left2 <= r) as Hl2
    by (apply skip_spaces_to_bound; unfold left1; lia).
  set (fe := scan_to_redirect (r - left2) (rs_buffer st) r left2).
  assert (left2 <= fe <= r) as Hfe by (apply scan_to_redirect_bound; lia).
  destruct (truncate_right (rs_buffer st) left2 (fe - left2 + 1)).
  simpl. unfold left1 in *. lia.
Qed.

Lemma redirect_loop_done r : forall fuel st,
  r - rs_left st <= fuel -> r <= rs_left (redirect_loop fuel r st).
Proof.
  induction fuel as [|fuel IH]; intros st Hf; cbn [redirect_loop].
  - lia.
  - destruct (rs_left st <? r) eqn:Hlt.
    + apply Nat.ltb_lt in Hlt. apply IH.
      pose proof (redirect_body_advances r st Hlt). lia.
    + apply Nat.ltb_ge in Hlt. exact Hlt.
Qed.

Lemma truncate_right_agree n base : forall len a b,
  buf_agree n a b -> base + len <= n + 1 ->
  snd (truncate_right a base len) = snd (truncate_right b base len) /\
  buf_agree n (fst (truncate_right a base len)) (fst (truncate_right b base len)) /\
  (forall j, get a j = NUL -> get (fst (truncate_right a base len)) j = NUL).
Proof.
  induction len as [|len IH]; intros a b H Hlen.
  - simpl. auto.
  - cbn [truncate_right]. rewrite (H (base + len)) by lia.
    destruct (Ascii.eqb (get b (base + len)) SP || Ascii.eqb (get b (base + len)) NL).
    + destruct (IH (put0 a (base + len)) (put0 b (base + len))) as (H1 & H2 & H3);
        [apply buf_agree_put0; exact H | lia |].
      split; [exact H1|]. split; [exact H2|].
      intros j Hj. apply H3. rewrite get_put0.
      destruct (j =? base + len); [reflexivity | exact Hj].
    + simpl. auto.
Qed.

Lemma redirect_body_agree r sa sb :
  states_agree r sa sb -> rs_left sa < r ->
  states_agree r (redirect_body r sa) (redirect_body r sb).
Proof.
  intros (Hl & Hi & Ho & Hag & Hnul & Hb) Hlt.
  unfold redirect_body. rewrite <- Hl, <- Hi, <- Ho, <- Hb.
  rewrite <- (Hag (rs_left sa)) by lia.
  set (left1 := S (rs_left sa)).
  rewrite <- (skip_spaces_to_agree r (rs_buffer sa) (rs_buffer sb))
    by (try (eapply buf_agree_le; [|exact Hag]); lia).
  set (left2 := skip_spaces_to (r - left1) (rs_buffer sa) r left1).
  assert (left1 <= left2 <= r) as Hl2
    by (apply skip_spaces_to_bound; unfold left1; lia).
  rewrite <- (scan_to_redirect_agree r (rs_buffer sa) (rs_buffer sb) Hag).
  set (fe := scan_to_redirect (r - left2) (rs_buffer sa) r left2).
  assert (left2 <= fe <= r) as Hfe by (apply scan_to_redirect_bound; lia).
  destruct (truncate_right_agree (r + 1) left2 (fe - left2 + 1)
              (rs_buffer sa) (rs_buffer sb) Hag) as (Hn & Hag' & Hnul'); [lia|].
  destruct (truncate_right (rs_buffer sa) left2 (fe - left2 + 1)) as [ca na].
  destruct (truncate_right (rs_buffer sb) left2 (fe - left2 + 1)) as [cb nb].
  simpl in Hn, Hag', Hnul'. subst nb.
  assert (cstr_at ca left2 = cstr_at cb left2) as Hstr.
  { apply (cstr_at_agree (r + 1) ca cb Hag' (Hnul' _ Hnul) (r + 1 - left2)). lia. }
  rewrite Hstr. unfold states_agree; simpl.
  split; [reflexivity|]. split; [reflexivity|]. split; [reflexivity|].
  split; [exact Hag'|]. split; [apply Hnul'; exact Hnul | reflexivity].
Qed.

Lemma redirect_loop_agree r : forall fuel sa sb,
  states_agree r sa sb ->
  states_agree r (redirect_loop fuel r sa) (redirect_loop fuel r sb).
Proof.
  induction fuel as [|fuel IH]; intros sa sb H; [exact H|].
  cbn [redirect_loop]. destruct H as (Hl & H).
  rewrite <- Hl. destruct (rs_left sa <? r) eqn:Hlt.
  - apply Nat.ltb_lt in Hlt. apply IH. apply redirect_body_agree; [|exact Hlt].
    split; [exact Hl | exact H].
  - split; [exact Hl | exact H].
Qed.

(** Steps (3) and (4) read the buffer up to the NUL after [right] only. *)
Lemma parse_spans_agree bg r a b :
  buf_agree (r + 1) a b -> get a (r + 1) = NUL ->
  parse_spans bg a 0 r = parse_spans bg b 0 r.
Proof.
  intros Hag Hnul. unfold parse_spans.
  rewrite <- (scan_to_redirect_agree r a b Hag).
  set (ar := scan_to_redirect (r - 0) a r 0).
  assert (0 <= ar <= r) as Har by (apply scan_to_redirect_bound; lia).
  rewrite <- (Hag ar) by lia.
  assert (exists ca cb ar1,
            (if Ascii.eqb (get a ar) SP then (put0 a ar, S ar) else (a, ar)) = (ca, ar1) /\
            (if Ascii.eqb (get a ar) SP then (put0 b ar, S ar) else (b, ar)) = (cb, ar1) /\
            buf_agree (r + 1) ca cb /\ get ca (r + 1) = NUL)
    as (ca & cb & ar1 & -> & -> & Hag1 & Hnul1).
  { destruct (Ascii.eqb (get a ar) SP).
    - eexists _, _, _. split; [reflexivity|]. split; [reflexivity|].
      split; [apply buf_agree_put0; exact Hag|].
      rewrite get_put0. destruct (r + 1 =? ar); [reflexivity | exact Hnul].
    - eexists _, _, _. split; [reflexivity|]. split; [reflexivity|]. auto. }
  rewrite (cstr_at_agree (r + 1) ca cb Hag1 Hnul1 (r + 1) 0) by lia.
  destruct (parse_args (cstr_at cb 0)); [|reflexivity].
  destruct (redirect_loop_agree r (r - ar1)
              (mk_redirect_state ca ar1 None None [])
              (mk_redirect_state cb ar1 None None [])) as (_ & Hi & Ho & _).
  { unfold states_agree; simpl. auto 6. }
  rewrite Hi, Ho. reflexivity.
Qed.

(** So do the blocks of step (4). *)
Lemma parse_spans_blocks_agree r a b :
  buf_agree (r + 1) a b -> get a (r + 1) = NUL ->
  parse_spans_blocks a 0 r = parse_spans_blocks b 0 r.
Proof.
  intros Hag Hnul. unfold parse_spans_blocks.
  rewrite <- (scan_to_redirect_agree r a b Hag).
  set (ar := scan_to_redirect (r - 0) a r 0).
  assert (0 <= ar <= r) as Har by (apply scan_to_redirect_bound; lia).
  rewrite <- (Hag ar) by lia.
  assert (exists ca cb ar1,
            (if Ascii.eqb (get a ar) SP then (put0 a ar, S ar) else (a, ar)) = (ca, ar1) /\
            (if Ascii.eqb (get a ar) SP then (put0 b ar, S ar) else (b, ar)) = (cb, ar1) /\
            buf_agree (r + 1) ca cb /\ get ca (r + 1) = NUL)
    as (ca & cb & ar1 & -> & -> & Hag1 & Hnul1).
  { destruct (Ascii.eqb (get a ar) SP).
    - eexists _, _, _. split; [reflexivity|]. split; [reflexivity|].
      split; [apply buf_agree_put0; exact Hag|].
      rewrite get_put0. destruct (r + 1 =? ar); [reflexivity | exact Hnul].
    - eexists _, _, _. split; [reflexivity|]. split; [reflexivity|]. auto. }
  apply (redirect_loop_agree r (r - ar1)
           (mk_redirect_state ca ar1 None None [])
           (mk_redirect_state cb ar1 None None [])).
  unfold states_agree; simpl. auto 6.
Qed.

End SpansRead.

(** ** The background operator *)

Section BackgroundOperator.

#[local] Arguments Ascii.eqb : simpl never.

Import Config.

Lemma get_padded t k i : get (t ++ repeat NUL k) i = get t i.
Proof.
  destruct (Nat.lt_ge_cases i (List.length t)) as [Hlt|Hge].
  - apply get_app_l; exact Hlt.
  - rewrite get_app_r, get_repeat_NUL, get_overflow by lia. reflexivity.
Qed.

(** A list of at least two elements, split before the last two. *)
Lemma split_last_two (t : list ascii) n :
  List.length t = n + 2 -> t = firstn n t ++ [get t n; get t (n + 1)].
Proof.
  revert t. induction n as [|n IH]; intros t Hlen.
  - destruct t as [|x [|y [|z t]]]; simpl in Hlen; try lia. reflexivity.
  - destruct t as [|x t]; simpl in Hlen; [lia|].
    simpl firstn. change (get (x :: t) (S n)) with (get t n).
    change (get (x :: t) (S n + 1)) with (get t (n + 1)).
    rewrite <- app_comm_cons. f_equal. apply IH. lia.
Qed.

(** The test of step (2), read on the trimmed line. *)
Lemma background_test t :
  t <> [] -> Ascii.eqb (get t 0) SP = false ->
  (Ascii.eqb (get t (List.length t - 1)) "&" && (0 + 1 <? List.length t - 1)
   && Ascii.eqb (get t (List.length t - 1 - 1)) SP = true
   <-> exists u, t = u ++ [SP; "&"] /\ Exists (fun ch => ch <> SP) u).
Proof.
  intros Hne Hhead. split.
  - intros H. apply andb_true_iff in H as [H Hsp].
    apply andb_true_iff in H as [Hamp Hlen].
    apply Nat.ltb_lt in Hlen. apply Ascii.eqb_eq in Hamp, Hsp.
    exists (firstn (List.length t - 2) t). split.
    + rewrite (split_last_two t (List.length t - 2)) at 1 by lia.
      replace (List.length t - 2 + 1) with (List.length t - 1) by lia.
      replace (List.length t - 2) with (List.length t - 1 - 1) at 2 by lia.
      rewrite Hamp, Hsp. reflexivity.
    + destruct t as [|c t']; [congruence|].
      simpl List.length in *. destruct (S (List.length t') - 2) eqn:E; [lia|].
      simpl. apply Exists_cons_hd. unfold get in Hhead; simpl in Hhead.
      apply Ascii.eqb_neq; exact Hhead.
  - intros (u & -> & Hex).
    assert (0 < List.length u) as Hu
      by (destruct u; [inversion Hex | simpl; lia]).
    rewrite length_app. simpl List.length.
    replace (List.length u + 2 - 1) with (List.length u + 1) by lia.
    replace (List.length u + 1 - 1) with (List.length u) by lia.
    rewrite !get_app_r by lia.
    replace (List.length u + 1 - List.length u) with 1 by lia.
    rewrite Nat.sub_diag.
    assert ((0 + 1 <? List.length u + 1) = true) as -> by (apply Nat.ltb_lt; lia).
    reflexivity.
Qed.

(** Where the expansion fits the buffer and the line is neither blank nor a
    comment, the descriptor has [background = true] exactly when the
    trimmed, expanded line ends in [&], that [&] follows a space, and a
    character other than a space stands before that space; the spans are
    then parsed from the line without the trailing [ &], and otherwise from
    the whole line; the line [&] alone gives [argv = ["&"]] in the
    foreground. *)
Lemma background_operator_within_buffer (pid : Z) (line : list ascii) :
  fits_buffer pid line ->
  trimmed pid line <> [] -> get (trimmed pid line) 0 <> "#" ->
  (exists c,
     parse_command pid line = Ret (Some c) /\
     (background c = true <->
      exists u, trimmed pid line = u ++ [SP; "&"] /\ Exists (fun ch => ch <> SP) u) /\
     (forall u, trimmed pid line = u ++ [SP; "&"] -> Exists (fun ch => ch <> SP) u ->
        parse_spans true u 0 (List.length u - 1) = Ret (Some c)) /\
     (background c = false ->
        parse_spans false (trimmed pid line) 0 (List.length (trimmed pid line) - 1)
          = Ret (Some c))) /\
  parse_command pid (str "&") = Ret (Some (mk_command [str "&"] false None None)).
Proof.
  intros Hfit Hne Hhash. split; [|reflexivity].
  destruct (parse_command_unfold pid line Hfit) as (k & Hp).
  destruct (trimmed_head pid line Hne) as [Hsp Hnul].
  set (t := trimmed pid line) in *.
  assert (0 < List.length t) as Hlen by (destruct t; [congruence | simpl; lia]).
  assert ((List.length t =? 0) = false) as Hlen' by (apply Nat.eqb_neq; lia).
  rewrite Hlen' in Hp. apply Ascii.eqb_neq in Hhash. rewrite Hhash in Hp.
  unfold detect_background in Hp. rewrite !get_padded in Hp.
  pose proof (background_test t Hne Hsp) as Htest.
  destruct (Ascii.eqb (get t (List.length t - 1)) "&" && (0 + 1 <? List.length t - 1)
            && Ascii.eqb (get t (List.length t - 1 - 1)) SP) eqn:Hbg.
  - (* the operator is present *)
    destruct Htest as [Htest _]. destruct (Htest eq_refl) as (u & Hu & Hex).
    assert (0 < List.length u) as Hlu by (destruct u; [inversion Hex | simpl; lia]).
    assert (List.length t = List.length u + 2) as Hlt
      by (rewrite Hu, length_app; reflexivity).
    assert (parse_spans true (put0 (t ++ repeat NUL k) (List.length t - 1 - 1)) 0
              (List.length t - 1 - 2)
            = parse_spans true u 0 (List.length u - 1)) as Hspans.
    { replace (List.length t - 1 - 2) with (List.length u - 1) by lia.
      apply parse_spans_agree.
      - intros i Hi. rewrite get_put0, get_padded.
        replace (List.length t - 1 - 1) with (List.length u) by lia.
        destruct (Nat.eqb_spec i (List.length u)) as [->|Hneq].
        + symmetry. apply get_overflow. lia.
        + rewrite Hu. apply get_app_l. lia.
      - rewrite get_put0.
        replace (List.length t - 1 - 1) with (List.length u) by lia.
        replace (List.length u - 1 + 1) with (List.length u) by lia.
        rewrite Nat.eqb_refl. reflexivity. }
    rewrite Hspans in Hp.
    destruct (parse_spans_ok true u (List.length u - 1)) as (c & s & Hc & Hb & _).
    { rewrite Hu in Hsp. rewrite get_app_l in Hsp by lia. exact Hsp. }
    { rewrite Hu in Hnul. rewrite get_app_l in Hnul by lia. exact Hnul. }
    exists c. rewrite Hp. split; [exact Hc|]. split; [|split].
    + split; [intros _; exists u; auto | intros _; exact Hb].
    + intros u' Hu' _. assert (u' = u) as ->; [|exact Hc].
      rewrite Hu in Hu'. apply app_inv_tail in Hu'. congruence.
    + intros Hf. congruence.
  - (* no operator *)
    assert (parse_spans false (t ++ repeat NUL k) 0 (List.length t - 1)
            = parse_spans false t 0 (List.length t - 1)) as Hspans.
    { apply parse_spans_agree.
      - intros i _. apply get_padded.
      - rewrite get_padded. apply get_overflow. lia. }
    rewrite Hspans in Hp.
    destruct (parse_spans_ok false t (List.length t - 1) Hsp Hnul)
      as (c & s & Hc & Hb & _).
    exists c. rewrite Hp. split; [exact Hc|]. split; [|split].
    + split; [intros Ht; congruence|].
      intros Hex. apply Htest in Hex. discriminate.
    + intros u Hu Hex. exfalso.
      assert (false = true) by (apply Htest; exists u; auto). discriminate.
    + intros _. exact Hc.
Qed.

Example background_operator_sleep :
  parse_spans true (str "sleep 5") 0 6
  = Ret (Some (mk_command [str "sleep"; str "5"] true None None)).
Proof.
  destruct (background_operator_within_buffer 42 (str "sleep   5 &"))
    as [(c & Hc & _ & Hu & _) _].
  - unfold fits_buffer. apply Nat.ltb_lt. vm_compute. reflexivity.
  - discriminate.
  - discriminate.
  - assert (Exists (fun ch => ch <> SP) (str "sleep 5")) as Hex
      by (apply Exists_cons_hd; discriminate).
    pose proof (Hu (str "sleep 5") eq_refl Hex) as Hx.
    vm_compute in Hc. injection Hc as <-. exact Hx.
Qed.

(** C4, evaluated on a line of 1000 [$$] followed by [ &] and the newline,
    which [fgets] stores whole, in a process whose id has four digits: the
    trimmed, expanded line ends in [&] after a space, with characters other
    than spaces before it, so the descriptor should have
    [background = true]; the expansion is written past the buffer before
    the test of step (2) is reached.  So is that of the same line without
    the operator, which should run in the foreground. *)
Theorem C4_long_expansion_overruns :
  List.length (dollars 1000 ++ str " &" ++ [NL]) < MAX_INPUT_CHARS_SIZE /\
  trimmed 4021 (dollars 1000 ++ str " &" ++ [NL])
    = concat (repeat (str "4021") 1000) ++ [SP; "&"] /\
  Exists (fun ch => ch <> SP) (concat (repeat (str "4021") 1000)) /\
  parse_command 4021 (dollars 1000 ++ str " &" ++ [NL]) = UB /\
  parse_command 4021 (dollars 1000 ++ [NL]) = UB.
Proof.
  assert (expand 4021 (dollars 1000 ++ str " &" ++ [NL])
          = concat (repeat (str "4021") 1000) ++ [SP; "&"; NL]) as He
    by (vm_compute; reflexivity).
  assert (expand 4021 (dollars 1000 ++ [NL])
          = concat (repeat (str "4021") 1000) ++ [NL]) as Hf
    by (vm_compute; reflexivity).
  split; [apply Nat.ltb_lt; vm_compute; reflexivity|].
  split; [unfold trimmed; rewrite He; vm_compute; reflexivity|].
  split; [apply Exists_cons_hd; discriminate|].
  split; apply parse_command_overrun; [rewrite He | rewrite Hf];
    apply Nat.leb_le; vm_compute; reflexivity.
Qed.

End BackgroundOperator.

(** ** Redirections separated by filenames *)

Section SeparatedRedirections.

#[local] Arguments Ascii.eqb : simpl never.

Import Config.

(** The comparison with a three-character operator, character by character. *)
Lemma strncmp_eq_3 a c1 c2 c3 :
  c1 <> NUL -> c2 <> NUL ->
  strncmp_eq a [c1; c2; c3] 3 =
    Ascii.eqb (get a 0) c1 && Ascii.eqb (get a 1) c2 && Ascii.eqb (get a 2) c3.
Proof.
  intros H1 H2. cbn [strncmp_eq hd tl].
  assert (forall x : list ascii, hd NUL x = get x 0) as Hhd
    by (intros [|? ?]; reflexivity).
  rewrite !Hhd. rewrite get_tl, !get_tl.
  destruct (Ascii.eqb (get a 0) c1) eqn:E1; [|reflexivity].
  apply Ascii.eqb_eq in E1.
  assert (Ascii.eqb (get a 0) NUL = false) as -> by (apply Ascii.eqb_neq; congruence).
  destruct (Ascii.eqb (get a 1) c2) eqn:E2; [|reflexivity].
  apply Ascii.eqb_eq in E2.
  assert (Ascii.eqb (get a 1) NUL = false) as -> by (apply Ascii.eqb_neq; congruence).
  simpl. destruct (Ascii.eqb (get a 2) c3); [|reflexivity].
  destruct (Ascii.eqb (get a 2) NUL); reflexivity.
Qed.

Lemma is_redirect_at_get cs k :
  is_redirect_at cs k =
    Ascii.eqb (get cs k) SP
    && (Ascii.eqb (get cs (k + 1)) ">" || Ascii.eqb (get cs (k + 1)) "<")
    && Ascii.eqb (get cs (k + 2)) SP.
Proof.
  unfold is_redirect_at.
  change (str " > ") with [SP; ">"; SP]. change (str " < ") with [SP; "<"; SP].
  rewrite !strncmp_eq_3 by discriminate. rewrite !get_skipn.
  rewrite Nat.add_0_r.
  destruct (Ascii.eqb (get cs k) SP), (Ascii.eqb (get cs (k + 1)) ">"),
    (Ascii.eqb (get cs (k + 1)) "<"), (Ascii.eqb (get cs (k + 2)) SP); reflexivity.
Qed.

(** The scan goes to the first index that ends it. *)
Lemma scan_to_redirect_to cs r e : forall fuel k,
  k <= e -> e <= r -> e - k <= fuel ->
  (forall j, k <= j < e -> is_redirect_at cs j = false) ->
  e = r \/ is_redirect_at cs e = true ->
  scan_to_redirect fuel cs r k = e.
Proof.
  induction fuel as [|fuel IH]; intros k Hk He Hfuel Hno Hend.
  - simpl. lia.
  - cbn [scan_to_redirect]. destruct (Nat.eq_dec k e) as [->|Hne].
    + destruct Hend as [->|Hend]; [rewrite Nat.ltb_irrefl; reflexivity|].
      rewrite Hend, andb_false_r. reflexivity.
    + assert ((k <? r) = true) as -> by (apply Nat.ltb_lt; lia).
      rewrite Hno by lia. simpl. apply IH; try lia; auto.
      intros j Hj. apply Hno. lia.
Qed.

(** The filename loop steps over exactly one space. *)
Lemma skip_one_space cs r left fuel :
  get cs left = SP -> get cs (S left) <> SP -> left < r -> 0 < fuel ->
  skip_spaces_to fuel cs r left = S left.
Proof.
  intros Hsp Hno Hlt Hfuel. destruct fuel as [|fuel]; [lia|].
  cbn [skip_spaces_to]. rewrite Hsp.
  assert ((left <? r) = true) as -> by (apply Nat.ltb_lt; exact Hlt).
  change (Ascii.eqb SP SP) with true. cbn [andb].
  destruct fuel as [|fuel]; [reflexivity|].
  cbn [skip_spaces_to].
  assert (Ascii.eqb (get cs (S left)) SP = false) as ->
    by (apply Ascii.eqb_neq; exact Hno).
  reflexivity.
Qed.

(** The string at an index where a word stands before a NUL. *)
Lemma cstr_at_word f : forall cs k,
  (forall j, j < List.length f -> get cs (k + j) = get f j) ->
  Forall (fun c => c <> NUL) f ->
  get cs (k + List.length f) = NUL ->
  cstr_at cs k = f.
Proof.
  induction f as [|c f IH]; intros cs k Hget Hnn Hnul.
  - rewrite cstr_at_unfold. simpl in Hnul. rewrite Nat.add_0_r in Hnul.
    rewrite Hnul. reflexivity.
  - rewrite cstr_at_unfold.
    pose proof (Hget 0 ltac:(simpl; lia)) as H0. rewrite Nat.add_0_r in H0.
    change (get (c :: f) 0) with c in H0. rewrite H0.
    apply Forall_cons_iff in Hnn as [Hc Hf].
    assert (Ascii.eqb c NUL = false) as -> by (apply Ascii.eqb_neq; exact Hc).
    f_equal. apply IH; [|exact Hf|].
    + intros j Hj. replace (S k + j) with (k + S j) by lia.
      rewrite Hget by (simpl; lia). reflexivity.
    + replace (S k + List.length f) with (k + List.length (c :: f)) by (simpl; lia).
      exact Hnul.
Qed.

Lemma is_filename_facts f :
  is_filename f ->
  0 < List.length f /\ Forall (fun c => c <> NUL) f /\
  (forall j, j < List.length f -> get f j <> SP) /\
  is_blank (get f (List.length f - 1)) = false.
Proof.
  intros [Hne Hall].
  assert (0 < List.length f) as Hlen by (destruct f; [congruence | simpl; lia]).
  assert (forall j, j < List.length f ->
                    is_blank (get f j) = false /\ get f j <> NUL) as Hj.
  { intros j Hj. rewrite Forall_forall in Hall. apply Hall.
    unfold get. apply nth_In. exact Hj. }
  split; [exact Hlen|]. split; [|split].
  - eapply Forall_impl; [|exact Hall]. intros c [_ Hc]; exact Hc.
  - intros j Hlt Hsp. destruct (Hj j Hlt) as [Hb _]. rewrite Hsp in Hb. discriminate.
  - apply Hj. lia.
Qed.

Lemma redirections_tail_cons op f rs :
  redirections_tail ((op, f) :: rs) =
    redirect_char op :: SP :: f ++ concat (map redirection_text rs).
Proof. reflexivity. Qed.

Lemma concat_redirections_cons r rs :
  concat (map redirection_text (r :: rs)) = SP :: redirections_tail (r :: rs).
Proof. reflexivity. Qed.

Lemma blocks_of_cons op f r rs :
  blocks_of ((op, f) :: r :: rs)
  = (List.length f + 1, List.length f + 1) :: blocks_of (r :: rs).
Proof. reflexivity. Qed.

(** The redirection loop on well-separated redirections: each filename is
    captured, the last one of each direction stays, and each gets its
    block. *)
Lemma redirect_loop_last_wins rs : forall fuel cs left right i o bl,
  rs <> [] ->
  Forall (fun r => is_filename (snd r)) rs ->
  (forall j, get cs (left + j) = get (redirections_tail rs) j) ->
  right + 1 = left + List.length (redirections_tail rs) ->
  right - left <= fuel ->
  rs_i_stream (redirect_loop fuel right (mk_redirect_state cs left i o bl))
    = last_stream true rs i /\
  rs_o_stream (redirect_loop fuel right (mk_redirect_state cs left i o bl))
    = last_stream false rs o /\
  rs_blocks (redirect_loop fuel right (mk_redirect_state cs left i o bl))
    = bl ++ blocks_of rs.
Proof.
  induction rs as [|[op f] rs IH];
    intros fuel cs left right i o bl Hne Hfiles Hget Hlen Hfuel; [congruence|].
  inversion Hfiles as [|? ? Hf Hrest]; subst. simpl in Hf.
  destruct (is_filename_facts f Hf) as (Hflen & Hfnn & Hfsp & Hflast).
  rewrite redirections_tail_cons in Hget, Hlen.
  set (rest := concat (map redirection_text rs)) in *.
  cbn [List.length] in Hlen. rewrite length_app in Hlen.
  (* what the buffer holds from [left] on *)
  assert (get cs left = redirect_char op) as G0
    by (rewrite <- (Nat.add_0_r left), Hget; reflexivity).
  assert (get cs (S left) = SP) as G1
    by (replace (S left) with (left + 1) by lia; rewrite Hget; reflexivity).
  assert (forall j, j < List.length f -> get cs (left + 2 + j) = get f j) as Gf.
  { intros j Hj. replace (left + 2 + j) with (left + S (S j)) by lia.
    rewrite Hget. change (get (redirect_char op :: SP :: f ++ rest) (S (S j)))
      with (get (f ++ rest) j). apply get_app_l. exact Hj. }
  assert (forall j, get cs (left + 2 + List.length f + j) = get rest j) as GS.
  { intros j. replace (left + 2 + List.length f + j)
      with (left + S (S (List.length f + j))) by lia.
    rewrite Hget.
    change (get (redirect_char op :: SP :: f ++ rest)
              (S (S (List.length f + j))))
      with (get (f ++ rest) (List.length f + j)).
    rewrite get_app_r by lia. f_equal. lia. }
  destruct fuel as [|fuel]; [lia|].
  cbn [redirect_loop rs_left].
  assert ((left <? right) = true) as -> by (apply Nat.ltb_lt; lia).
  unfold redirect_body. cbn [rs_buffer rs_left rs_i_stream rs_o_stream rs_blocks].
  rewrite G0.
  assert (Ascii.eqb (redirect_char op) "<" = op) as -> by (destruct op; reflexivity).
  assert (skip_spaces_to (right - S left) cs right (S left) = left + 2) as Hskip.
  { replace (left + 2) with (S (S left)) by lia. apply skip_one_space.
    - exact G1.
    - replace (S (S left)) with (left + 2 + 0) by lia.
      rewrite Gf by lia. apply Hfsp. lia.
    - lia.
    - lia. }
  rewrite Hskip.
  (* no operator inside the filename *)
  assert (forall j, left + 2 <= j < left + 2 + List.length f ->
                    is_redirect_at cs j = false) as Hnoop.
  { intros j Hj. rewrite is_redirect_at_get.
    replace j with (left + 2 + (j - (left + 2))) by lia.
    rewrite Gf by lia.
    assert (Ascii.eqb (get f (j - (left + 2))) SP = false) as ->
      by (apply Ascii.eqb_neq, Hfsp; lia).
    reflexivity. }
  destruct rs as [|[op' f'] rs'].
  - (* the last redirection: the filename runs to the end of the line *)
    unfold rest in *. cbn [map concat List.length] in *. rewrite Nat.add_0_r in Hlen.
    assert (right = left + 1 + List.length f) as Hright by lia.
    assert (scan_to_redirect (right - (left + 2)) cs right (left + 2) = right)
      as Hscan.
    { apply scan_to_redirect_to; [lia | lia | lia | | left; reflexivity].
      intros j Hj. apply Hnoop. lia. }
    rewrite Hscan.
    replace (right - (left + 2) + 1) with (S (List.length f - 1)) by lia.
    cbn [truncate_right].
    rewrite Gf by lia. unfold is_blank in Hflast. rewrite Hflast.
    assert (cstr_at cs (left + 2) = f) as Hstr.
    { apply cstr_at_word; [exact Gf | exact Hfnn |].
      rewrite <- (Nat.add_0_r (left + 2 + List.length f)), GS. reflexivity. }
    rewrite Hstr. cbn [Nat.ltb Nat.leb andb].
    set (st := mk_redirect_state cs (right + 1) _ _ _).
    assert (redirect_loop fuel right st = st) as ->.
    { destruct fuel; [reflexivity|]. cbn [redirect_loop]. unfold st. cbn [rs_left].
      assert ((right + 1 <? right) = false) as -> by (apply Nat.ltb_ge; lia).
      reflexivity. }
    unfold st. cbn [rs_i_stream rs_o_stream rs_blocks last_stream blocks_of].
    replace (S (List.length f - 1)) with (List.length f) by lia.
    destruct op; repeat split; reflexivity.
  - (* another redirection follows *)
    assert (rest = SP :: redirections_tail ((op', f') :: rs')) as HS by reflexivity.
    set (e := left + 2 + List.length f).
    assert (get cs e = SP) as Ge
      by (unfold e; rewrite <- (Nat.add_0_r (left + 2 + List.length f)), GS, HS;
          reflexivity).
    inversion Hrest as [|? ? Hf' Hrest']; subst. simpl in Hf'.
    destruct (is_filename_facts f' Hf') as (Hflen' & _).
    assert (List.length rest = 3 + List.length f'
                            + List.length (concat (map redirection_text rs'))) as HlenS.
    { unfold rest. cbn [map concat]. unfold redirection_text at 1.
      cbn [fst snd]. rewrite !length_app. simpl. lia. }
    assert (scan_to_redirect (right - (left + 2)) cs right (left + 2) = e)
      as Hscan.
    { apply scan_to_redirect_to.
      - unfold e; lia.
      - unfold e; lia.
      - unfold e; lia.
      - intros j Hj. apply Hnoop. unfold e in Hj. lia.
      - right. rewrite is_redirect_at_get, Ge. unfold e.
        rewrite (GS 1), (GS 2), HS. destruct op'; reflexivity. }
    rewrite Hscan.
    replace (e - (left + 2) + 1) with (S (S (List.length f - 1)))
      by (unfold e; lia).
    cbn [truncate_right].
    replace (left + 2 + S (List.length f - 1)) with e by (unfold e; lia).
    rewrite Ge. change (Ascii.eqb SP SP || Ascii.eqb SP NL) with true. cbn iota.
    rewrite get_put0.
    assert ((left + 2 + (List.length f - 1) =? e) = false) as ->
      by (apply Nat.eqb_neq; unfold e; lia).
    rewrite Gf by lia. unfold is_blank in Hflast. rewrite Hflast.
    assert (cstr_at (put0 cs e) (left + 2) = f) as Hstr.
    { apply cstr_at_word; [| exact Hfnn |].
      - intros j Hj. rewrite get_put0.
        assert ((left + 2 + j =? e) = false) as ->
          by (apply Nat.eqb_neq; unfold e; lia).
        apply Gf; exact Hj.
      - rewrite get_put0. fold e. rewrite Nat.eqb_refl. reflexivity. }
    rewrite Hstr.
    replace (0 <? S (List.length f - 1)) with true by reflexivity.
    cbn [andb].
    edestruct (IH fuel (put0 cs e) (e + 1) right) as (Hi & Ho & Hb).
    + discriminate.
    + exact Hrest.
    + intros j. rewrite get_put0.
      assert ((e + 1 + j =? e) = false) as -> by (apply Nat.eqb_neq; lia).
      unfold e. replace (left + 2 + List.length f + 1 + j)
        with (left + 2 + List.length f + S j) by lia.
      rewrite GS, HS. reflexivity.
    + rewrite HS in Hlen. cbn [List.length] in Hlen. unfold e. lia.
    + unfold e. lia.
    + rewrite Hi, Ho, Hb, blocks_of_cons, <- app_assoc. cbn [last_stream].
      replace (S (S (List.length f - 1))) with (List.length f + 1) by lia.
      destruct op; repeat split; reflexivity.
Qed.

Lemma is_argument_text_facts a :
  is_argument_text a ->
  0 < List.length a /\ Forall (fun c => c <> NUL) a /\
  (forall j, j < List.length a ->
     Ascii.eqb (get a j) ">" || Ascii.eqb (get a j) "<" = false) /\
  tokens a <> [].
Proof.
  intros (Hne & Hall & Hfirst & Hlast).
  assert (0 < List.length a) as Hlen by (destruct a; [congruence | simpl; lia]).
  split; [exact Hlen|]. split; [|split].
  - eapply Forall_impl; [|exact Hall]. intros c (Hc & _); exact Hc.
  - intros j Hj. rewrite Forall_forall in Hall.
    destruct (Hall (get a j)) as (_ & Hgt & Hlt); [unfold get; apply nth_In; exact Hj|].
    apply Ascii.eqb_neq in Hgt, Hlt. rewrite Hgt, Hlt. reflexivity.
  - apply tokens_head; apply Ascii.eqb_neq; [exact Hfirst|].
    rewrite Forall_forall in Hall.
    destruct (Hall (get a 0)) as (Hn & _); [unfold get; apply nth_In; exact Hlen|].
    exact Hn.
Qed.

(** Step (3) on a command with no redirection after it. *)
Lemma argv_span_alone args :
  is_argument_text args ->
  scan_to_redirect (List.length args - 1) args (List.length args - 1) 0
    = List.length args - 1 /\
  Ascii.eqb (get args (List.length args - 1)) SP = false /\
  cstr_at args 0 = args.
Proof.
  intros Hargs. pose proof Hargs as (_ & _ & _ & Hlast).
  destruct (is_argument_text_facts args Hargs) as (Hlen & Hnn & Hnoop & Htok).
  split; [|split].
  - apply scan_to_redirect_to; [lia | lia | lia | | left; reflexivity].
    intros j Hj. rewrite is_redirect_at_get.
    rewrite Hnoop by lia. rewrite andb_false_r. reflexivity.
  - apply Ascii.eqb_neq; exact Hlast.
  - apply cstr_at_word; [reflexivity | exact Hnn | apply get_overflow; lia].
Qed.

(** Steps (3) and (4) on a command followed by well-separated redirections:
    where the argv span ends, what it holds, and what the loop leaves. *)
Lemma argv_span_redirected args r rs' :
  is_argument_text args ->
  Forall (fun r => is_filename (snd r)) (r :: rs') ->
  forall cs e right,
  cs = args ++ SP :: redirections_tail (r :: rs') ->
  e = List.length args -> right = List.length cs - 1 ->
  scan_to_redirect right cs right 0 = e /\
  get cs e = SP /\
  cstr_at (put0 cs e) 0 = args /\
  forall st,
    st = redirect_loop (right - S e) right
           (mk_redirect_state (put0 cs e) (S e) None None []) ->
    rs_i_stream st = last_stream true (r :: rs') None /\
    rs_o_stream st = last_stream false (r :: rs') None /\
    rs_blocks st = blocks_of (r :: rs').
Proof.
  intros Hargs Hfiles cs e right Hcsdef Hedef Hrdef.
  destruct (is_argument_text_facts args Hargs) as (Hlen & Hnn & Hnoop & Htok).
  set (tail := redirections_tail (r :: rs')) in *.
  assert (List.length cs = e + 1 + List.length tail) as Hcs
    by (subst cs e; rewrite length_app; simpl; lia).
  assert (0 < List.length tail) as Htail
    by (unfold tail; destruct r as [op f]; rewrite redirections_tail_cons;
        simpl; lia).
  assert (forall j, j < e -> get cs j = get args j) as Gargs
    by (intros j Hj; subst cs e; apply get_app_l; exact Hj).
  assert (forall j, get cs (e + j) = get (SP :: tail) j) as Gtail.
  { intros j. subst cs e. rewrite get_app_r by lia. f_equal. lia. }
  assert (get cs e = SP) as Ge
    by (rewrite <- (Nat.add_0_r e), Gtail; reflexivity).
  split; [|split; [exact Ge|split]].
  - apply scan_to_redirect_to; [lia | lia | lia | |].
    + intros j Hj. rewrite is_redirect_at_get.
      destruct (Nat.eq_dec (j + 1) e) as [He|He].
      * rewrite He, Ge. rewrite andb_false_r. reflexivity.
      * rewrite (Gargs (j + 1)) by lia. rewrite Hnoop by lia.
        rewrite andb_false_r. reflexivity.
    + right. rewrite is_redirect_at_get, Ge, (Gtail 1), (Gtail 2).
      unfold tail. destruct r as [[|] f]; rewrite redirections_tail_cons;
        reflexivity.
  - apply cstr_at_word; [| exact Hnn |].
    + intros j Hj. rewrite get_put0.
      assert ((0 + j =? e) = false) as -> by (apply Nat.eqb_neq; lia).
      apply Gargs. simpl. lia.
    + rewrite get_put0. rewrite <- Hedef. simpl. rewrite Nat.eqb_refl. reflexivity.
  - intros st ->.
    rewrite <- (app_nil_l (blocks_of (r :: rs'))).
    apply redirect_loop_last_wins.
    + discriminate.
    + exact Hfiles.
    + intros j. rewrite get_put0.
      assert ((S e + j =? e) = false) as -> by (apply Nat.eqb_neq; lia).
      replace (S e + j) with (e + S j) by lia. rewrite Gtail. reflexivity.
    + fold tail. lia.
    + lia.
Qed.

(** Steps (3) and (4) on a command followed by well-separated redirections:
    the arguments are the tokens before the first operator, and of the
    filenames of each direction the last one is kept (last write wins). *)
Theorem separated_redirections_last_wins (bg : bool) (args : list ascii)
  (rs : list (bool * list ascii)) :
  is_argument_text args ->
  Forall (fun r => is_filename (snd r)) rs ->
  parse_spans bg (args ++ concat (map redirection_text rs)) 0
    (List.length (args ++ concat (map redirection_text rs)) - 1)
  = Ret (Some (mk_command (firstn MAX_ARGV_SIZE (tokens args)) bg
                 (last_stream true rs None) (last_stream false rs None))).
Proof.
  intros Hargs Hfiles.
  destruct (is_argument_text_facts args Hargs) as (Hlen & Hnn & Hnoop & Htok).
  unfold parse_spans. rewrite Nat.sub_0_r.
  destruct rs as [|r rs'].
  - (* no redirection *)
    cbn [map concat]. rewrite app_nil_r.
    destruct (argv_span_alone args Hargs) as (-> & -> & ->).
    rewrite (parse_args_spec args Htok).
    rewrite Nat.sub_diag. reflexivity.
  - (* at least one redirection *)
    rewrite concat_redirections_cons.
    destruct (argv_span_redirected args r rs' Hargs Hfiles _ _ _
                eq_refl eq_refl eq_refl) as (-> & Hsp & Hstr & Hloop).
    rewrite Hsp. change (Ascii.eqb SP SP) with true. cbn iota.
    rewrite Hstr, (parse_args_spec args Htok).
    destruct (Hloop _ eq_refl) as (-> & -> & _). reflexivity.
Qed.

(** The blocks that step (4) fills on the same text. *)
Lemma separated_redirections_blocks (args : list ascii)
  (rs : list (bool * list ascii)) :
  is_argument_text args ->
  Forall (fun r => is_filename (snd r)) rs ->
  parse_spans_blocks (args ++ concat (map redirection_text rs)) 0
    (List.length (args ++ concat (map redirection_text rs)) - 1)
  = blocks_of rs.
Proof.
  intros Hargs Hfiles.
  unfold parse_spans_blocks. rewrite Nat.sub_0_r.
  destruct rs as [|r rs'].
  - cbn [map concat]. rewrite app_nil_r.
    destruct (argv_span_alone args Hargs) as (-> & -> & _).
    rewrite Nat.sub_diag. reflexivity.
  - rewrite concat_redirections_cons.
    destruct (argv_span_redirected args r rs' Hargs Hfiles _ _ _
                eq_refl eq_refl eq_refl) as (-> & Hsp & _ & Hloop).
    rewrite Hsp. change (Ascii.eqb SP SP) with true. cbn iota.
    apply (Hloop _ eq_refl).
Qed.

Lemma separated_redirections_example :
  parse_spans true (str "wc -l < in.txt > tmp > out.txt < in2.txt") 0 39
  = Ret (Some (mk_command [str "wc"; str "-l"] true
                 (Some (str "in2.txt")) (Some (str "out.txt")))).
Proof.
  apply (separated_redirections_last_wins true (str "wc -l")
           [(true, str "in.txt"); (false, str "tmp"); (false, str "out.txt");
            (true, str "in2.txt")]).
  - unfold is_argument_text. split; [discriminate|]. split.
    + repeat constructor; discriminate.
    + split; discriminate.
  - repeat constructor; try discriminate; simpl; intros H; discriminate.
Qed.

(** A line that does not end in [&] is parsed in the foreground, from its
    trimmed text. *)
Lemma parse_command_foreground pid line :
  fits_buffer pid line ->
  trimmed pid line <> [] -> get (trimmed pid line) 0 <> "#" ->
  get (trimmed pid line) (List.length (trimmed pid line) - 1) <> "&" ->
  parse_command pid line =
    parse_spans false (trimmed pid line) 0 (List.length (trimmed pid line) - 1).
Proof.
  intros Hfit Hne Hhash Hamp.
  destruct (parse_command_unfold pid line Hfit) as (k & ->).
  set (t := trimmed pid line) in *.
  assert (0 < List.length t) as Hlen by (destruct t; [congruence | simpl; lia]).
  assert ((List.length t =? 0) = false) as -> by (apply Nat.eqb_neq; lia).
  apply Ascii.eqb_neq in Hhash, Hamp. rewrite Hhash.
  unfold detect_background. rewrite !get_padded, Hamp. cbn [andb].
  apply parse_spans_agree.
  - intros i _. apply get_padded.
  - rewrite get_padded. apply get_overflow. lia.
Qed.

Lemma parse_command_blocks_foreground pid line :
  trimmed pid line <> [] -> get (trimmed pid line) 0 <> "#" ->
  get (trimmed pid line) (List.length (trimmed pid line) - 1) <> "&" ->
  parse_command_blocks pid line =
    parse_spans_blocks (trimmed pid line) 0 (List.length (trimmed pid line) - 1).
Proof.
  intros Hne Hhash Hamp.
  destruct (parse_command_blocks_unfold pid line) as (k & ->).
  set (t := trimmed pid line) in *.
  assert (0 < List.length t) as Hlen by (destruct t; [congruence | simpl; lia]).
  assert ((List.length t =? 0) = false) as -> by (apply Nat.eqb_neq; lia).
  apply Ascii.eqb_neq in Hhash, Hamp. rewrite Hhash.
  unfold detect_background. rewrite !get_padded, Hamp. cbn [andb].
  apply parse_spans_blocks_agree.
  - intros i _. apply get_padded.
  - rewrite get_padded. apply get_overflow. lia.
Qed.

(** X22: last write wins on whole lines: where the expansion fits the
    buffer and the trimmed, expanded line is a command followed by
    well-separated redirections and does not end in [&], the descriptor
    holds the tokens of the command and, for each direction, the filename
    of its last redirection.  The filenames are copied to the blocks of
    [blocks_of]: the last filename of the line gets a block of its length
    and [strcpy] writes its terminator one byte past it. *)
Theorem parse_command_last_wins (pid : Z) (line args : list ascii)
  (rs : list (bool * list ascii)) :
  fits_buffer pid line ->
  trimmed pid line = args ++ concat (map redirection_text rs) ->
  is_argument_text args ->
  Forall (fun r => is_filename (snd r)) rs ->
  get args 0 <> "#" ->
  get (trimmed pid line) (List.length (trimmed pid line) - 1) <> "&" ->
  parse_command pid line
  = Ret (Some (mk_command (firstn MAX_ARGV_SIZE (tokens args)) false
                 (last_stream true rs None) (last_stream false rs None))) /\
  parse_command_blocks pid line = blocks_of rs /\
  (rs <> [] -> exists n, last (parse_command_blocks pid line) (0, 0) = (n, n + 1)).
Proof.
  intros Hfit Ht Hargs Hfiles Hhash Hamp.
  destruct (is_argument_text_facts args Hargs) as (Hlen & _).
  assert (trimmed pid line <> []) as Hne
    by (rewrite Ht; destruct args; [simpl in Hlen; lia | discriminate]).
  assert (get (trimmed pid line) 0 <> "#") as Hhash'
    by (rewrite Ht, get_app_l by exact Hlen; exact Hhash).
  assert (parse_command_blocks pid line = blocks_of rs) as Hblocks.
  { rewrite parse_command_blocks_foreground by assumption.
    rewrite Ht. apply separated_redirections_blocks; assumption. }
  split; [|split; [exact Hblocks|]].
  - rewrite parse_command_foreground by assumption.
    rewrite Ht. apply separated_redirections_last_wins; assumption.
  - rewrite Hblocks. clear. induction rs as [|[op f] rs IH]; [congruence|].
    intros _. destruct rs as [|r rs'].
    + exists (List.length f). reflexivity.
    + rewrite blocks_of_cons.
      destruct (IH ltac:(discriminate)) as (n & Hn). exists n.
      rewrite <- Hn. destruct r as [op' f']. destruct rs'; reflexivity.
Qed.

Lemma parse_command_last_wins_example :
  parse_command 42 (str "  cmd   >  a >   b ")
  = Ret (Some (mk_command [str "cmd"] false None (Some (str "b")))) /\
  parse_command_blocks 42 (str "  cmd   >  a >   b ") = [(2, 2); (1, 2)].
Proof.
  destruct (parse_command_last_wins 42 (str "  cmd   >  a >   b ") (str "cmd")
              [(false, str "a"); (false, str "b")]) as (H1 & H2 & _).
  - unfold fits_buffer. apply Nat.ltb_lt. vm_compute. reflexivity.
  - reflexivity.
  - unfold is_argument_text. split; [discriminate|]. split.
    + repeat constructor; discriminate.
    + split; discriminate.
  - repeat constructor; try discriminate; simpl; intros H; discriminate.
  - discriminate.
  - discriminate.
  - split; [exact H1 | exact H2].
Defined.

End SeparatedRedirections.

(** ** Repeated and adjacent redirections *)

Section Redirections.

(** C6, evaluated: with a filename between them the later of two [>] wins;
    when the second operator follows the first directly,
    the loop that skips the space after an operator also skips the space that
    starts the next one, and the rest of the line, operator included, is
    taken as the filename. *)
Theorem C6_adjacent_redirections :
  parse_command 42 (str "cmd > a > b")
    = Ret (Some (mk_command [str "cmd"] false None (Some (str "b")))) /\
  parse_command 42 (str "cmd > > b")
    = Ret (Some (mk_command [str "cmd"] false None (Some (str "> b")))) /\
  parse_command 42 (str "cmd > < f")
    = Ret (Some (mk_command [str "cmd"] false None (Some (str "< f")))).
Proof. repeat split; vm_compute; reflexivity. Qed.

(** The examples of the description. *)
Example parse_echo_hi :
  parse_command 42 (str "echo hi")
    = Ret (Some (mk_command [str "echo"; str "hi"] false None None)).
Proof. vm_compute. reflexivity. Qed.

Example parse_both_redirections :
  parse_command 42 (str "wc < in.txt > out.txt")
    = Ret (Some (mk_command [str "wc"] false (Some (str "in.txt"))
                            (Some (str "out.txt")))).
Proof. vm_compute. reflexivity. Qed.

End Redirections.
(** ** The job-control mode flag *)

Section ModeFlag.

Local Open Scope Z_scope.

(** Two processes with the same components are the same. *)
Lemma process_eq (p q : process) :
  foreground_flag p = foreground_flag q -> exit_status p = exit_status q ->
  by_signal p = by_signal q -> handlers p = handlers q ->
  zombies p = zombies q -> sigchld_blocked p = sigchld_blocked q ->
  sigchld_pending p = sigchld_pending q -> trace p = trace q ->
  status p = status q -> p = q.
Proof. destruct p, q; cbn; intros; subst; reflexivity. Qed.

Lemma same_mode_refl p : same_mode p p.
Proof. split; auto. Qed.

Lemma same_mode_trans p q r : same_mode p q -> same_mode q r -> same_mode p r.
Proof.
  intros [H1 H2] [H3 H4]; split; [congruence|].
  intros s; rewrite H2; apply H4.
Qed.

Lemma same_mode_interactive p q : same_mode p q -> interactive p -> interactive q.
Proof.
  intros [Hf Hh] (H1 & H2 & H3 & H4).
  unfold interactive; rewrite <- !Hh, <- Hf; auto.
Qed.

Lemma reap_and_report_mode zs : forall p,
  same_mode p (reap_and_report zs p) /\ status (reap_and_report zs p) = status p.
Proof.
  induction zs as [|[c st] zs IH]; intros p; simpl.
  - split; [apply same_mode_refl | reflexivity].
  - destruct (IH (report_child c st (emit [Ev_waitpid c st] p))) as [Hm Hs].
    split.
    + eapply same_mode_trans; [|exact Hm].
      unfold report_child, write_int, sys_write.
      repeat match goal with |- context [if ?b then _ else _] => destruct b end;
        split; reflexivity.
    + rewrite Hs. unfold report_child, write_int, sys_write.
      repeat match goal with |- context [if ?b then _ else _] => destruct b end;
        reflexivity.
Qed.

Lemma reap_silently_mode zs : forall p,
  same_mode p (reap_silently zs p) /\ status (reap_silently zs p) = status p.
Proof.
  induction zs as [|[c st] zs IH]; intros p; simpl.
  - split; [apply same_mode_refl | reflexivity].
  - destruct (IH (emit [Ev_waitpid c st] p)) as [Hm Hs]. split.
    + eapply same_mode_trans; [|exact Hm]. split; reflexivity.
    + rewrite Hs; reflexivity.
Qed.

Lemma SIGCHLD_handler_mode p :
  same_mode p (SIGCHLD_handler p) /\ status (SIGCHLD_handler p) = status p.
Proof.
  unfold SIGCHLD_handler. destruct (reap_and_report_mode (zombies p) p) as [[Hf Hh] Hs].
  split; [split|]; simpl; auto.
Qed.

(** What a disposition of the interactive phase does to the mode. *)
Lemma run_disposition_interactive sig p :
  interactive p -> status (run_disposition sig p) = Running ->
  interactive (run_disposition sig p).
Proof.
  intros Hi Hrun. pose proof Hi as (H1 & H2 & H3 & H4).
  unfold run_disposition in *.
  destruct sig.
  - rewrite H1 in *; auto.
  - destruct H4 as [[Hf Hh]|[Hf Hh]]; rewrite Hh in *.
    + unfold interactive; simpl. rewrite H1, H2, H3. intuition.
    + unfold interactive; simpl. rewrite H1, H2, H3. intuition.
  - rewrite H2 in *. eapply same_mode_interactive; [|exact Hi].
    apply SIGCHLD_handler_mode.
  - rewrite H3 in *. simpl in Hrun. discriminate.
Qed.

Lemma run_disposition_other_flag sig p :
  interactive p -> sig <> SIGTSTP ->
  foreground_flag (run_disposition sig p) = foreground_flag p.
Proof.
  intros (H1 & H2 & H3 & H4) Hne.
  unfold run_disposition.
  destruct sig; try congruence.
  - rewrite H1; reflexivity.
  - rewrite H2. symmetry. apply SIGCHLD_handler_mode.
  - rewrite H3; reflexivity.
Qed.

(** The child handler of the interactive phase keeps mode and status. *)
Lemma run_disposition_sigchld p :
  interactive p ->
  same_mode p (run_disposition SIGCHLD p) /\
  status (run_disposition SIGCHLD p) = status p.
Proof.
  intros (_ & H2 & _). unfold run_disposition. rewrite H2.
  apply SIGCHLD_handler_mode.
Qed.

(** Delivery of any signal keeps a running interactive process interactive. *)
Lemma deliver_interactive sig p :
  interactive p -> status (deliver sig p) = Running -> interactive (deliver sig p).
Proof.
  intros Hi Hrun.
  unfold deliver in *. destruct (status p) eqn:Hs; auto.
  destruct (signal_eqb sig SIGCHLD && sigchld_blocked p); [exact Hi|].
  apply run_disposition_interactive; assumption.
Qed.

(** Delivery of a signal other than SIGTSTP leaves the flag alone. *)
Lemma deliver_other_flag sig p :
  interactive p -> sig <> SIGTSTP ->
  foreground_flag (deliver sig p) = foreground_flag p.
Proof.
  intros Hi Hne.
  unfold deliver. destruct (status p); auto.
  destruct (signal_eqb sig SIGCHLD && sigchld_blocked p); [reflexivity|].
  apply run_disposition_other_flag; assumption.
Qed.

(** Delivery of SIGCHLD, blocked or not, keeps mode and status. *)
Lemma deliver_sigchld_mode p :
  interactive p ->
  same_mode p (deliver SIGCHLD p) /\ status (deliver SIGCHLD p) = status p.
Proof.
  intros Hi. unfold deliver.
  destruct (status p) eqn:Hs; try (split; [apply same_mode_refl | exact Hs]).
  destruct (signal_eqb SIGCHLD SIGCHLD && sigchld_blocked p).
  - split; [split; reflexivity | exact Hs].
  - rewrite <- Hs. apply run_disposition_sigchld. exact Hi.
Qed.

Lemma child_terminates_mode c st p :
  interactive p ->
  same_mode p (child_terminates c st p) /\
  status (child_terminates c st p) = status p.
Proof.
  intros Hi. unfold child_terminates.
  apply (deliver_sigchld_mode (set_zombies (zombies p ++ [(c, st)]) p)). exact Hi.
Qed.

Lemma child_terminates_interactive c st p :
  interactive p -> status (child_terminates c st p) = Running ->
  interactive (child_terminates c st p).
Proof.
  intros Hi Hrun. unfold child_terminates in *.
  apply deliver_interactive; auto.
Qed.

Lemma child_terminates_flag c st p :
  interactive p -> foreground_flag (child_terminates c st p) = foreground_flag p.
Proof.
  intros Hi. unfold child_terminates.
  rewrite deliver_other_flag; [reflexivity | exact Hi | discriminate].
Qed.

Lemma children_terminate_mode arrivals : forall p,
  interactive p ->
  same_mode p (children_terminate arrivals p) /\
  status (children_terminate arrivals p) = status p.
Proof.
  induction arrivals as [|[c st] arrivals IH]; intros p Hi; cbn [children_terminate].
  - split; [apply same_mode_refl | reflexivity].
  - destruct (child_terminates_mode c st p Hi) as [Hm Hs].
    destruct (IH (child_terminates c st p)) as [Hm' Hs'].
    { eapply same_mode_interactive; eassumption. }
    split; [eapply same_mode_trans; eassumption | congruence].
Qed.

(** Whatever its disposition, SIGCHLD leaves the status of the process. *)
Lemma run_disposition_sigchld_status p :
  status (run_disposition SIGCHLD p) = status p.
Proof.
  unfold run_disposition. destruct (handlers p SIGCHLD); try reflexivity.
  - apply SIGCHLD_handler_mode.
  - unfold SIGCHLD_handler_no_output. cbn [status set_zombies].
    apply reap_silently_mode.
Qed.

Lemma deliver_sigchld_status p : status (deliver SIGCHLD p) = status p.
Proof.
  unfold deliver. destruct (status p) eqn:Hs; try exact Hs.
  destruct (signal_eqb SIGCHLD SIGCHLD && sigchld_blocked p); [exact Hs|].
  rewrite run_disposition_sigchld_status. exact Hs.
Qed.

Lemma children_terminate_status arrivals : forall p,
  status (children_terminate arrivals p) = status p.
Proof.
  induction arrivals as [|[c st] arrivals IH]; intros p; cbn [children_terminate];
    [reflexivity|].
  rewrite IH. unfold child_terminates. rewrite deliver_sigchld_status. reflexivity.
Qed.

Lemma sigprocmask_status b p : status (sigprocmask b p) = status p.
Proof.
  unfold sigprocmask. destruct (status p) eqn:Hs; try exact Hs.
  destruct (negb b && _); [|exact Hs].
  rewrite run_disposition_sigchld_status. exact Hs.
Qed.

(** [sigprocmask] keeps mode and status. *)
Lemma sigprocmask_mode b p :
  interactive p ->
  same_mode p (sigprocmask b p) /\ status (sigprocmask b p) = status p.
Proof.
  intros Hi. unfold sigprocmask.
  destruct (status p) eqn:Hs; try (split; [apply same_mode_refl | exact Hs]).
  destruct (negb b && _).
  - match goal with |- context [run_disposition SIGCHLD ?q] =>
      destruct (run_disposition_sigchld q) as [Hm Hq]; [exact Hi|]
    end.
    split; [|rewrite Hq; exact Hs].
    eapply same_mode_trans; [|exact Hm]. split; reflexivity.
  - split; [split; reflexivity | exact Hs].
Qed.

Ltac crush_ifs :=
  repeat match goal with
         | |- context [if ?b then _ else _] => destruct b
         | |- context [match ?x with _ => _ end] => destruct x
         end.

Lemma run_command_flag w args i o bg p :
  foreground_flag (run_command w args i o bg p) = foreground_flag p.
Proof.
  unfold run_command, open_input, open_output, run_child, run_parent, sys_exit,
    handle_file_error, handle_fork_error, handle_exec_error, builtin_status.
  destruct i, o, bg; simpl; crush_ifs; reflexivity.
Qed.

Lemma run_command_handlers w args i o bg p :
  status p = Running -> status (run_command w args i o bg p) = Running ->
  forall s, handlers (run_command w args i o bg p) s = handlers p s.
Proof.
  intros Hp. unfold run_command, open_input, open_output, run_child, run_parent,
    sys_exit, handle_file_error, handle_fork_error, handle_exec_error,
    builtin_status.
  destruct i, o, bg; simpl;
    repeat match goal with
           | |- context [if ?b then _ else _] => destruct b; simpl
           end; try rewrite Hp; simpl; intros; try discriminate; reflexivity.
Qed.

Lemma dispatch_flag w c p :
  foreground_flag (fst (dispatch w c p)) = foreground_flag p.
Proof.
  unfold dispatch. destruct (argv c); simpl; auto.
  crush_ifs; simpl; auto.
  - unfold builtin_cd, handle_path_error. crush_ifs; reflexivity.
  - apply run_command_flag.
Qed.

Lemma dispatch_handlers w c p :
  status p = Running -> status (fst (dispatch w c p)) = Running ->
  forall s, handlers (fst (dispatch w c p)) s = handlers p s.
Proof.
  intros Hp. unfold dispatch. destruct (argv c); simpl; auto.
  crush_ifs; simpl; auto.
  - unfold builtin_cd, handle_path_error. crush_ifs; reflexivity.
  - apply run_command_handlers; exact Hp.
Qed.

Lemma usleep_quiet usec p :
  usleep usec [] p = match status p with Running => emit [Ev_usleep usec] p | _ => p end.
Proof. unfold usleep. destruct (status p); reflexivity. Qed.

Lemma usleep_quiet_flag usec p :
  foreground_flag (usleep usec [] p) = foreground_flag p.
Proof. rewrite usleep_quiet. destruct (status p); reflexivity. Qed.

Lemma usleep_quiet_handlers usec p s :
  handlers (usleep usec [] p) s = handlers p s.
Proof. rewrite usleep_quiet. destruct (status p); reflexivity. Qed.

Lemma usleep_quiet_status usec p : status (usleep usec [] p) = status p.
Proof. rewrite usleep_quiet. destruct (status p) eqn:E; simpl; auto. Qed.

(** What the command of a line does to mode and status. *)
Lemma parsed_mode w pid buffer p :
  let q := fst (match parse_command pid buffer with
                | UB => (set_status Undefined p, false)
                | Ret None => (p, false)
                | Ret (Some parsed_command) => dispatch w parsed_command p
                end) in
  foreground_flag q = foreground_flag p /\
  (status p = Running -> status q = Running ->
   forall s, handlers q s = handlers p s).
Proof.
  destruct (parse_command pid buffer) as [[c|]|]; cbn [fst].
  - split; [apply dispatch_flag | apply dispatch_handlers].
  - auto.
  - split; [reflexivity|]. intros _ Hbad; discriminate.
Qed.

(** A turn of the loop keeps the mode of a running interactive process. *)
Lemma main_body_mode w r sh :
  status (proc sh) = Running -> interactive (proc sh) ->
  foreground_flag (proc (main_body w r sh)) = foreground_flag (proc sh) /\
  (status (proc (main_body w r sh)) = Running ->
   forall s, handlers (proc (main_body w r sh)) s = handlers (proc sh) s).
Proof.
  intros Hrun Hi. unfold main_body.
  destruct (sigprocmask_mode true (proc sh) Hi) as [Hm1 Hs1].
  set (p1 := sigprocmask true (proc sh)) in *.
  set (p2 := emit [Ev_stdout (str ": ")] p1).
  assert (same_mode (proc sh) p2 /\ status p2 = Running) as [Hm2 Hs2].
  { split; [|unfold p2; cbn [status emit]; congruence].
    eapply same_mode_trans; [exact Hm1|]. split; reflexivity. }
  destruct (children_terminate_mode (sys_terminated w) p2) as [Hm3 Hs3].
  { eapply same_mode_interactive; eassumption. }
  set (p3 := children_terminate (sys_terminated w) p2) in *.
  assert (forall buffer p4,
    same_mode (proc sh) p4 -> status p4 = Running ->
    foreground_flag
      (proc (let (p, triggered) :=
               match parse_command (shell_pid sh) buffer with
               | UB => (set_status Undefined p4, false)
               | Ret None => (p4, false)
               | Ret (Some parsed_command) => dispatch w parsed_command p4
               end in
             mk_shell (usleep 5000 [] (sigprocmask false p))
               (shell_pid sh) buffer triggered))
    = foreground_flag (proc sh) /\
    (status
       (proc (let (p, triggered) :=
                match parse_command (shell_pid sh) buffer with
                | UB => (set_status Undefined p4, false)
                | Ret None => (p4, false)
                | Ret (Some parsed_command) => dispatch w parsed_command p4
                end in
              mk_shell (usleep 5000 [] (sigprocmask false p))
                (shell_pid sh) buffer triggered)) = Running ->
     forall s,
       handlers
         (proc (let (p, triggered) :=
                  match parse_command (shell_pid sh) buffer with
                  | UB => (set_status Undefined p4, false)
                  | Ret None => (p4, false)
                  | Ret (Some parsed_command) => dispatch w parsed_command p4
                  end in
                mk_shell (usleep 5000 [] (sigprocmask false p))
                  (shell_pid sh) buffer triggered)) s
       = handlers (proc sh) s)) as Hgen.
  { intros buffer p4 Hm4 Hs4.
    pose proof (parsed_mode w (shell_pid sh) buffer p4) as Hq. cbv zeta in Hq.
    destruct (match parse_command (shell_pid sh) buffer with
              | UB => (set_status Undefined p4, false)
              | Ret None => (p4, false)
              | Ret (Some parsed_command) => dispatch w parsed_command p4
              end) as [q t].
    cbn [fst] in Hq. destruct Hq as [Hqf Hqh]. cbn [proc].
    rewrite usleep_quiet_flag, usleep_quiet_status.
    destruct Hm4 as [Hf4 Hh4].
    destruct (status q) eqn:Hsq;
      try (unfold sigprocmask; rewrite Hsq; split; [congruence|];
           intros Hbad; rewrite Hsq in Hbad; discriminate).
    assert (forall s, handlers q s = handlers (proc sh) s) as Hhq
      by (intros s; rewrite Hqh by auto; symmetry; apply Hh4).
    assert (interactive q) as Hiq.
    { eapply same_mode_interactive; [|exact Hi]. split; [congruence|].
      intros s; symmetry; apply Hhq. }
    destruct (sigprocmask_mode false q Hiq) as [[Hf5 Hh5] Hs5].
    split; [congruence|]. intros _ s.
    rewrite usleep_quiet_handlers, <- Hh5. apply Hhq. }
  destruct r.
  - apply (Hgen line p3); [eapply same_mode_trans; eassumption | congruence].
  - apply (Hgen (input_buffer sh) (emit [Ev_clearerr] p3)).
    + eapply same_mode_trans; [eapply same_mode_trans; eassumption|].
      split; reflexivity.
    + cbn [status emit]. congruence.
Qed.

Lemma main_body_flag w r sh :
  status (proc sh) = Running -> interactive (proc sh) ->
  foreground_flag (proc (main_body w r sh)) = foreground_flag (proc sh).
Proof. intros Hrun Hi. apply main_body_mode; assumption. Qed.

Lemma main_body_handlers w r sh :
  status (proc sh) = Running -> interactive (proc sh) ->
  status (proc (main_body w r sh)) = Running ->
  forall s, handlers (proc (main_body w r sh)) s = handlers (proc sh) s.
Proof. intros Hrun Hi. apply main_body_mode; assumption. Qed.

Lemma step_interactive sh i :
  (status (proc sh) = Running -> interactive (proc sh)) ->
  status (proc (step sh i)) = Running -> interactive (proc (step sh i)).
Proof.
  intros Hinv. unfold step.
  destruct (status (proc sh)) eqn:Hs; try (intros; rewrite Hs in *; discriminate).
  destruct (exit_triggered sh); [auto|].
  specialize (Hinv eq_refl).
  destruct i; simpl.
  - apply deliver_interactive; assumption.
  - apply child_terminates_interactive; assumption.
  - intros Hrun. eapply same_mode_interactive; [|exact Hinv].
    split; [symmetry; apply main_body_flag; assumption|].
    intros s; symmetry; apply main_body_handlers; assumption.
Qed.

Lemma setup_interactive : interactive (setup fresh_process).
Proof. unfold interactive; simpl; intuition. Qed.

Lemma run_interactive inputs : forall sh,
  (status (proc sh) = Running -> interactive (proc sh)) ->
  status (proc (run inputs sh)) = Running -> interactive (proc (run inputs sh)).
Proof.
  unfold run. induction inputs as [|i inputs IH]; intros sh Hinv; simpl; auto.
  apply IH. apply step_interactive; assumption.
Qed.

(** C8: the flag starts in Normal; in every state the interpreter reaches in
    its loop, delivery of the toggle signal (SIGTSTP) moves the flag to the
    other mode and makes exactly the calls of that direction: one write of
    the fixed notice to standard output and the registration of the other
    handler; no other step (another signal, a terminating child, a turn of
    the loop with whatever command) changes the flag. *)
Theorem C8_toggle_flag (pid : Z) (garbage : list ascii) (inputs : list step_input) :
  let sh := run inputs (initial_shell pid garbage) in
  status (proc sh) = Running -> exit_triggered sh = false ->
  mode_of (proc (initial_shell pid garbage)) = Normal /\
  (let sh' := step sh (In_signal SIGTSTP) in
   (mode_of (proc sh) = Normal /\ mode_of (proc sh') = ForegroundOnly /\
    trace (proc sh') = trace (proc sh) ++
      [Ev_write 1 (NL :: str "Entering foreground-only mode (& is now ignored)"
                      ++ NL :: str ": ");
       Ev_sigaction SIGTSTP Fn_SIGTSTP_handler_foreground_only_mode]) \/
   (mode_of (proc sh) = ForegroundOnly /\ mode_of (proc sh') = Normal /\
    trace (proc sh') = trace (proc sh) ++
      [Ev_write 1 (NL :: str "Exiting foreground-only mode" ++ NL :: str ": ");
       Ev_sigaction SIGTSTP Fn_SIGTSTP_handler_normal_mode])) /\
  (forall i, i <> In_signal SIGTSTP ->
     foreground_flag (proc (step sh i)) = foreground_flag (proc sh)).
Proof.
  intros sh Hrun Hloop.
  assert (interactive (proc sh)) as Hi.
  { apply run_interactive; [|exact Hrun]. intros _; apply setup_interactive. }
  split; [reflexivity|]. split.
  - unfold step. rewrite Hrun, Hloop. simpl. unfold deliver. rewrite Hrun.
    cbn [signal_eqb andb]. unfold run_disposition.
    destruct Hi as (_ & _ & _ & [[Hf Hh]|[Hf Hh]]); rewrite Hh; [left|right];
      unfold mode_of, get_foreground_flag; rewrite Hf; simpl;
      repeat split; rewrite <- app_assoc; reflexivity.
  - intros i Hne. unfold step. rewrite Hrun, Hloop.
    destruct i; simpl.
    + apply deliver_other_flag; [exact Hi | congruence].
    + apply child_terminates_flag; exact Hi.
    + apply main_body_flag; assumption.
Qed.

Lemma C8_toggle_flag_witness :
  mode_of (proc (run [In_signal SIGTSTP; In_child_terminates 7 0;
                      In_signal SIGTSTP; In_signal SIGTSTP]
                   (initial_shell 42 []))) = ForegroundOnly /\
  mode_of (proc (step (run [In_signal SIGTSTP; In_child_terminates 7 0;
                            In_signal SIGTSTP; In_signal SIGTSTP]
                         (initial_shell 42 []))
                   (In_signal SIGTSTP))) = Normal.
Proof.
  pose proof (C8_toggle_flag 42 []
                [In_signal SIGTSTP; In_child_terminates 7 0; In_signal SIGTSTP;
                 In_signal SIGTSTP] eq_refl eq_refl) as (_ & H & _).
  destruct H as [(H1 & _)|(H1 & H2 & _)].
  - vm_compute in H1. discriminate.
  - split; assumption.
Defined.

End ModeFlag.

(** ** The exit built-in *)

Section ExitBuiltin.

Local Open Scope Z_scope.

Lemma reap_silently_trace zs : forall p,
  trace (reap_silently zs p) =
    trace p ++ map (fun z => Ev_waitpid (fst z) (snd z)) zs.
Proof.
  induction zs as [|[c st] zs IH]; intros p; simpl.
  - rewrite app_nil_r; reflexivity.
  - rewrite IH. simpl. rewrite <- app_assoc. reflexivity.
Qed.

Lemma waitpid_not_output zs :
  Forall (fun e => is_output e = false)
         (map (fun z : Z * Z => Ev_waitpid (fst z) (snd z)) zs).
Proof. induction zs; simpl; constructor; auto. Qed.

Lemma reap_silently_blocked zs : forall p,
  sigchld_blocked (reap_silently zs p) = sigchld_blocked p.
Proof.
  induction zs as [|[c st] zs IH]; intros p; simpl; [reflexivity|].
  rewrite IH. reflexivity.
Qed.

(** Children that terminate while the cleanup dispositions are installed and
    SIGCHLD is not blocked are reaped, and nothing is written. *)
Lemma children_terminate_cleanup arrivals : forall p,
  status p = Running -> sigchld_blocked p = false ->
  handlers p SIGCHLD = Fn_SIGCHLD_handler_no_output ->
  let q := children_terminate arrivals p in
  status q = Running /\ same_mode p q /\
  exists reaps,
    trace q = trace p ++ reaps /\
    Forall (fun e => is_output e = false) reaps /\
    (forall c st, In (c, st) arrivals -> In (Ev_waitpid c st) reaps) /\
    (arrivals <> [] -> zombies q = []).
Proof.
  induction arrivals as [|[c st] arrivals IH]; intros p Hrun Hmask Hh; simpl.
  - split; [exact Hrun|]. split; [apply same_mode_refl|].
    exists []. rewrite app_nil_r.
    split; [reflexivity|]. split; [constructor|].
    split; [intros ? ? [] | intros Hne; congruence].
  - set (p1 := child_terminates c st p).
    assert (p1 = SIGCHLD_handler_no_output
                   (set_zombies (zombies p ++ [(c, st)]) p)) as Hp1.
    { unfold p1, child_terminates, deliver, run_disposition. simpl.
      rewrite Hrun, Hmask, Hh. reflexivity. }
    destruct (reap_silently_mode (zombies p ++ [(c, st)])
                (set_zombies (zombies p ++ [(c, st)]) p)) as [[Hf1 Hh1] Hs1].
    assert (status p1 = Running) as Hrun1.
    { rewrite Hp1. unfold SIGCHLD_handler_no_output; simpl.
      simpl in Hs1. rewrite Hs1. exact Hrun. }
    assert (same_mode p p1) as Hm1.
    { rewrite Hp1. unfold SIGCHLD_handler_no_output; simpl. split; simpl; auto. }
    assert (handlers p1 SIGCHLD = Fn_SIGCHLD_handler_no_output) as Hh1'.
    { destruct Hm1 as [_ Hm1]. rewrite <- Hm1. exact Hh. }
    assert (sigchld_blocked p1 = false) as Hmask1.
    { rewrite Hp1. unfold SIGCHLD_handler_no_output; simpl.
      rewrite reap_silently_blocked. exact Hmask. }
    destruct (IH p1 Hrun1 Hmask1 Hh1') as (Hq & Hm & reaps & Ht & Hout & Hin & Hz).
    split; [exact Hq|]. split; [eapply same_mode_trans; eassumption|].
    assert (trace p1 = trace p ++
              map (fun z => Ev_waitpid (fst z) (snd z)) (zombies p ++ [(c, st)]))
      as Ht1.
    { rewrite Hp1. unfold SIGCHLD_handler_no_output; simpl.
      rewrite reap_silently_trace. reflexivity. }
    exists (map (fun z => Ev_waitpid (fst z) (snd z)) (zombies p ++ [(c, st)])
            ++ reaps).
    split; [rewrite Ht, Ht1, app_assoc; reflexivity|].
    split; [apply Forall_app; split; [apply waitpid_not_output | exact Hout]|].
    split.
    + intros c' st' [Heq|Hin'].
      * inversion Heq; subst. apply in_or_app; left.
        rewrite map_app. apply in_or_app; right. simpl; auto.
      * apply in_or_app; right. apply Hin; exact Hin'.
    + intros _. destruct arrivals as [|a arrivals'].
      * simpl. rewrite Hp1. reflexivity.
      * apply Hz. discriminate.
Qed.

(** C9, in the order the code has: the exit built-in, which [main] calls
    after its loop, where SIGCHLD is not blocked, first installs the cleanup
    dispositions (SIGTERM ignored, SIGCHLD reaping without output), only
    then broadcasts SIGTERM to its own process group, which therefore leaves
    the interpreter itself running, sleeps for the fixed 5000 microseconds
    during which terminating children are reaped and nothing is written,
    and then always exits with status 0. *)
Theorem C9_exit_builtin (arrivals : list (Z * Z)) (p : process) :
  status p = Running -> sigchld_blocked p = false ->
  status (builtin_exit arrivals p) = Exited 0 /\
  status (kill_group SIGTERM (set_cleanup_signal_handlers p)) = Running /\
  handlers (builtin_exit arrivals p) SIGTERM = SIG_IGN /\
  handlers (builtin_exit arrivals p) SIGCHLD = Fn_SIGCHLD_handler_no_output /\
  exists reaps,
    trace (builtin_exit arrivals p) =
      trace p ++ [Ev_sigaction SIGCHLD Fn_SIGCHLD_handler_no_output;
                  Ev_sigaction SIGTERM SIG_IGN;
                  Ev_kill 0 SIGTERM;
                  Ev_usleep 5000] ++ reaps ++ [Ev_exit 0] /\
    Forall (fun e => is_output e = false) reaps /\
    (forall c st, In (c, st) arrivals -> In (Ev_waitpid c st) reaps) /\
    (arrivals <> [] -> zombies (builtin_exit arrivals p) = []).
Proof.
  intros Hrun Hmask. unfold builtin_exit.
  set (p1 := set_cleanup_signal_handlers p).
  assert (status p1 = Running) as Hrun1 by exact Hrun.
  set (p2 := kill_group SIGTERM p1).
  assert (p2 = emit [Ev_kill 0 SIGTERM] p1) as Hp2.
  { unfold p2, kill_group, deliver, run_disposition. simpl. rewrite Hrun.
    reflexivity. }
  assert (status p2 = Running) as Hrun2 by (rewrite Hp2; exact Hrun).
  set (p3 := emit [Ev_usleep 5000] p2).
  assert (handlers p3 SIGCHLD = Fn_SIGCHLD_handler_no_output) as Hh3
    by (unfold p3; rewrite Hp2; reflexivity).
  assert (status p3 = Running) as Hrun3 by exact Hrun2.
  assert (sigchld_blocked p3 = false) as Hmask3
    by (unfold p3; rewrite Hp2; exact Hmask).
  destruct (children_terminate_cleanup arrivals p3 Hrun3 Hmask3 Hh3)
    as (Hq & [_ Hm] & reaps & Ht & Hout & Hin & Hz).
  assert (usleep 5000 arrivals p2 = children_terminate arrivals p3) as Hu.
  { unfold usleep. rewrite Hrun2. reflexivity. }
  rewrite Hu. unfold sys_exit. rewrite Hq. simpl.
  split; [reflexivity|]. split; [exact Hrun2|].
  split; [rewrite <- Hm; unfold p3; rewrite Hp2; reflexivity|].
  split; [rewrite <- Hm; exact Hh3|].
  exists reaps. split; [|split; [exact Hout | split; [exact Hin | exact Hz]]].
  rewrite Ht. unfold p3. rewrite Hp2. simpl.
  rewrite <- !app_assoc. reflexivity.
Qed.

Lemma C9_exit_builtin_witness :
  status (builtin_exit [(101, 15); (102, 0)] (setup fresh_process)) = Exited 0.
Proof.
  apply (C9_exit_builtin [(101, 15); (102, 0)] (setup fresh_process));
    reflexivity.
Defined.

(** The calls of the exit built-in in the interpreter as [setup] leaves it:
    the broadcast is the third call, after the two that install the cleanup
    dispositions, and not before them; made first, under the interactive
    dispositions, the same broadcast kills the caller, which then makes no
    further call and never reaches [exit(0)]. *)
Lemma C9_counterexample :
  new_events (setup fresh_process) (builtin_exit [] (setup fresh_process))
    = [Ev_sigaction SIGCHLD Fn_SIGCHLD_handler_no_output;
       Ev_sigaction SIGTERM SIG_IGN; Ev_kill 0 SIGTERM; Ev_usleep 5000;
       Ev_exit 0] /\
  ~ (exists before after,
       new_events (setup fresh_process) (builtin_exit [] (setup fresh_process))
         = before ++ Ev_kill 0 SIGTERM :: after /\
       In (Ev_sigaction SIGTERM SIG_IGN) after) /\
  status (sys_exit 0
            (usleep 5000 []
               (set_cleanup_signal_handlers
                  (kill_group SIGTERM (setup fresh_process)))))
    = Killed SIGTERM.
Proof.
  assert (new_events (setup fresh_process) (builtin_exit [] (setup fresh_process))
          = [Ev_sigaction SIGCHLD Fn_SIGCHLD_handler_no_output;
             Ev_sigaction SIGTERM SIG_IGN; Ev_kill 0 SIGTERM; Ev_usleep 5000;
             Ev_exit 0]) as Hev by reflexivity.
  split; [exact Hev|]. split; [|reflexivity].
  rewrite Hev. intros (before & after & H & Hin).
  destruct before as [|e1 before]; [discriminate H|].
  destruct before as [|e2 before]; [discriminate H|].
  destruct before as [|e3 before].
  - injection H as _ _ H. subst after.
    destruct Hin as [Hin|[Hin|[]]]; discriminate Hin.
  - destruct before as [|e4 before]; [discriminate H|].
    destruct before as [|e5 before]; [discriminate H|].
    destruct before; discriminate H.
Qed.

(** Under the interactive dispositions the same broadcast kills the caller:
    the order of the two calls in [builtin_exit] is what protects it. *)
Example broadcast_before_cleanup_kills :
  status (kill_group SIGTERM (setup fresh_process)) = Killed SIGTERM.
Proof. reflexivity. Qed.

End ExitBuiltin.

(** ** The process launcher *)

Section Launcher.

Local Open Scope Z_scope.

Lemma emit_emit a b p : emit b (emit a p) = emit (a ++ b) p.
Proof. unfold emit; simpl. rewrite <- app_assoc. reflexivity. Qed.

Lemma emit_nil p : emit [] p = p.
Proof. unfold emit. rewrite app_nil_r. destruct p; reflexivity. Qed.

Lemma new_events_emit p es : new_events p (emit es p) = es.
Proof.
  unfold new_events; simpl.
  rewrite skipn_app, skipn_all, Nat.sub_diag. reflexivity.
Qed.

Lemma new_events_trace p q es : trace q = trace p ++ es -> new_events p q = es.
Proof.
  intros H. unfold new_events. rewrite H.
  rewrite skipn_app, skipn_all, Nat.sub_diag. reflexivity.
Qed.

(** The two stream choices when every [open] succeeds. *)
Lemma open_input_ok w i bg p :
  (forall path mode, sys_open w path mode <> -1) ->
  exists fd opens,
    open_input w i bg p = (fd, emit opens p) /\ fd <> -1 /\
    Forall (fun e => is_open e = true) opens.
Proof.
  intros Hok. unfold open_input. destruct i as [f|]; [|destruct bg].
  - eexists _, [_]. split; [reflexivity|]. split; [apply Hok|].
    repeat constructor.
  - eexists _, [_]. split; [reflexivity|]. split; [apply Hok|].
    repeat constructor.
  - exists STDIN_FILENO, []. rewrite emit_nil.
    split; [reflexivity|]. split; [discriminate | constructor].
Qed.

Lemma open_output_ok w o bg p :
  (forall path mode, sys_open w path mode <> -1) ->
  exists fd opens,
    open_output w o bg p = (fd, emit opens p) /\ fd <> -1 /\
    Forall (fun e => is_open e = true) opens.
Proof.
  intros Hok. unfold open_output. destruct o as [f|]; [|destruct bg].
  - eexists _, [_]. split; [reflexivity|]. split; [apply Hok|].
    repeat constructor.
  - eexists _, [_]. split; [reflexivity|]. split; [apply Hok|].
    repeat constructor.
  - exists STDOUT_FILENO, []. rewrite emit_nil.
    split; [reflexivity|]. split; [discriminate | constructor].
Qed.

(** With both streams open and a child created, [run_command] continues in
    the parent branch. *)
Lemma run_command_parent w args i o bg p :
  (forall path mode, sys_open w path mode <> -1) ->
  0 < sys_fork w ->
  exists opens,
    Forall (fun e => is_open e = true) opens /\
    run_command w args i o bg p =
      run_parent w (sys_fork w) bg (emit (opens ++ [Ev_fork (sys_fork w)]) p).
Proof.
  intros Hok Hpid. unfold run_command.
  destruct (open_input_ok w i bg p Hok) as (ifd & iopens & -> & Hifd & Hio).
  destruct (ifd =? -1) eqn:E1; [apply Z.eqb_eq in E1; contradiction|].
  destruct (open_output_ok w o bg (emit iopens p) Hok)
    as (ofd & oopens & -> & Hofd & Hoo).
  destruct (ofd =? -1) eqn:E2; [apply Z.eqb_eq in E2; contradiction|].
  destruct (sys_fork w =? -1) eqn:E3; [apply Z.eqb_eq in E3; lia|].
  destruct (sys_fork w =? 0) eqn:E4; [apply Z.eqb_eq in E4; lia|].
  exists (iopens ++ oopens). split; [apply Forall_app; split; assumption|].
  rewrite !emit_emit, <- app_assoc. reflexivity.
Qed.

Lemma Forall_is_open_neq opens e :
  Forall (fun e => is_open e = true) opens -> is_open e = false -> ~ In e opens.
Proof.
  intros HF He Hin. rewrite Forall_forall in HF.
  specialize (HF e Hin). congruence.
Qed.

Lemma Forall_is_open_not_notice opens :
  Forall (fun e => is_open e = true) opens ->
  Forall (fun e => is_background_notice e = false) opens.
Proof.
  intros HF. eapply Forall_impl; [|exact HF].
  intros [] He; simpl in *; try discriminate; reflexivity.
Qed.

(** The foreground branch of the parent: the wait, then the status line if a
    signal ended the child; the result is what the wait status says. *)
Lemma run_parent_foreground w pid p :
  exists report,
    trace (run_parent w pid false p) =
      trace p ++ Ev_waitpid pid (sys_waitpid w pid) :: report /\
    Forall (fun e => is_background_notice e = false) report /\
    last_foreground_result (run_parent w pid false p) =
      decode_status (sys_waitpid w pid).
Proof.
  unfold run_parent, last_foreground_result, decode_status. simpl exit_status.
  destruct (WIFEXITED (sys_waitpid w pid)).
  - exists []. simpl. repeat split; constructor.
  - eexists [_; _]. simpl. rewrite <- !app_assoc. simpl.
    split; [reflexivity|]. split; [|reflexivity].
    repeat constructor.
Qed.

(** C7: for a command handed to the launcher (not a built-in) whose streams
    open and whose child is created, the child runs in the background (the
    "Background PID" notice is printed and the launcher does not wait) if and
    only if the descriptor asks for the background and the mode flag is not
    ForegroundOnly; a background request in ForegroundOnly mode is waited
    for, prints no such notice, and the last-foreground-result becomes what
    the wait status says. *)
Theorem C7_background_resolution (w : os) (c : command) (p : process) :
  is_builtin c = false ->
  (forall path mode, sys_open w path mode <> -1) ->
  0 < sys_fork w ->
  In (Ev_fork (sys_fork w)) (new_events p (fst (dispatch w c p))) /\
  ((In (background_notice (sys_fork w)) (new_events p (fst (dispatch w c p))) /\
    forall st, ~ In (Ev_waitpid (sys_fork w) st)
                    (new_events p (fst (dispatch w c p))))
   <-> (background c = true /\ mode_of p = Normal)) /\
  (background c = true -> mode_of p = ForegroundOnly ->
   In (Ev_waitpid (sys_fork w) (sys_waitpid w (sys_fork w)))
      (new_events p (fst (dispatch w c p))) /\
   Forall (fun e => is_background_notice e = false)
          (new_events p (fst (dispatch w c p))) /\
   last_foreground_result (fst (dispatch w c p)) =
     decode_status (sys_waitpid w (sys_fork w))).
Proof.
  intros Hnb Hok Hpid.
  unfold is_builtin in Hnb. unfold dispatch.
  destruct (argv c) as [|argv0 rest] eqn:Hargv; [discriminate|].
  apply orb_false_iff in Hnb as [Hnb Hstatus].
  apply orb_false_iff in Hnb as [Hexit Hcd].
  rewrite Hexit, Hcd, Hstatus. simpl fst.
  set (bg := background c && negb (get_foreground_flag p =? 1)).
  destruct (run_command_parent w (argv0 :: rest) (i_stream c) (o_stream c) bg p
              Hok Hpid) as (opens & Hopens & ->).
  set (pid := sys_fork w) in *.
  assert (bg = true <-> background c = true /\ mode_of p = Normal) as Hbg.
  { unfold bg, mode_of. destruct (background c), (get_foreground_flag p =? 1);
      simpl; intuition congruence. }
  destruct bg eqn:Ebg.
  - (* background *)
    unfold run_parent. rewrite emit_emit, new_events_emit, <- app_assoc. simpl.
    split; [apply in_or_app; right; simpl; auto|]. split.
    + split; [intros _; apply Hbg; reflexivity|]. intros _. split.
      * apply in_or_app; right; simpl; auto.
      * intros st Hin. apply in_app_or in Hin as [Hin|Hin].
        -- revert Hin. apply Forall_is_open_neq; [exact Hopens | reflexivity].
        -- simpl in Hin. destruct Hin as [Hin|[Hin|[]]]; discriminate.
    + intros Hb Hm. destruct Hbg as [Hbg _].
      destruct (Hbg eq_refl) as [_ Hn]. congruence.
  - (* foreground *)
    destruct (run_parent_foreground w pid (emit (opens ++ [Ev_fork pid]) p))
      as (report & Ht & Hquiet & Hres).
    assert (trace (run_parent w pid false (emit (opens ++ [Ev_fork pid]) p)) =
            trace p ++ opens
              ++ Ev_fork pid :: Ev_waitpid pid (sys_waitpid w pid) :: report)
      as Ht'.
    { rewrite Ht. simpl. rewrite <- !app_assoc. reflexivity. }
    rewrite (new_events_trace _ _ _ Ht').
    split; [apply in_or_app; right; simpl; auto|]. split.
    + split.
      * intros [_ Hno]. exfalso. apply (Hno (sys_waitpid w pid)).
        apply in_or_app; right; simpl; auto.
      * intros Hb. apply Hbg in Hb. discriminate.
    + intros _ _. split; [apply in_or_app; right; simpl; auto|].
      split; [|exact Hres].
      apply Forall_app; split; [apply Forall_is_open_not_notice; exact Hopens|].
      repeat constructor. exact Hquiet.
Qed.

Lemma C7_background_resolution_witness :
  last_foreground_result
    (fst (dispatch os_child_interrupted
            (mk_command [str "sleep"; str "5"] true None None)
            (SIGTSTP_handler_normal_mode (setup fresh_process))))
  = (TerminatedBySignal, 2).
Proof.
  apply (C7_background_resolution os_child_interrupted
           (mk_command [str "sleep"; str "5"] true None None)
           (SIGTSTP_handler_normal_mode (setup fresh_process)));
    try reflexivity.
  intros path mode; simpl; discriminate.
Defined.

(** X21: what [run_command] does when a stream cannot be opened: the exit
    status becomes 1, [by_signal] keeps its old value, no child is created,
    and a stream that was opened is closed again (descriptor 0 is the
    interpreter's own input, so [open] never returns it). *)
Lemma run_command_open_failure w args i o bg p :
  (forall path mode, sys_open w path mode <> STDIN_FILENO) ->
  fst (open_input w i bg p) = -1 \/
  fst (open_output w o bg (snd (open_input w i bg p))) = -1 ->
  exit_status (run_command w args i o bg p) = 1 /\
  by_signal (run_command w args i o bg p) = by_signal p /\
  Forall (fun e => is_fork e = false) (new_events p (run_command w args i o bg p)) /\
  (forall path mode fd,
     In (Ev_open path mode fd) (new_events p (run_command w args i o bg p)) ->
     fd <> -1 -> In (Ev_close fd) (new_events p (run_command w args i o bg p))).
Proof.
  intros Hnz Hfail. unfold run_command.
  destruct (open_input w i bg p) as [ifd p1] eqn:Hin. simpl in Hfail.
  assert (exists es1, p1 = emit es1 p /\
            (forall path mode fd, In (Ev_open path mode fd) es1 -> fd = ifd) /\
            Forall (fun e => is_fork e = false) es1 /\
            (es1 = [] -> ifd = STDIN_FILENO) /\ (es1 <> [] -> ifd <> STDIN_FILENO))
    as (es1 & -> & Hes1 & Hnf1 & Hstd1 & Hnstd1).
  { unfold open_input in Hin. destruct i as [f|]; [|destruct bg];
      inversion Hin; subst.
    - eexists [_]. split; [reflexivity|]. split.
      + intros ? ? ? [H|[]]; inversion H; reflexivity.
      + split; [repeat constructor|]. split; [discriminate|]. intros _; apply Hnz.
    - eexists [_]. split; [reflexivity|]. split.
      + intros ? ? ? [H|[]]; inversion H; reflexivity.
      + split; [repeat constructor|]. split; [discriminate|]. intros _; apply Hnz.
    - exists []. rewrite emit_nil. split; [reflexivity|]. split.
      + intros ? ? ? [].
      + split; [constructor|]. split; [reflexivity|]. intros H; congruence. }
  destruct (ifd =? -1) eqn:E1.
  - apply Z.eqb_eq in E1. unfold handle_file_error. rewrite emit_emit.
    simpl exit_status. simpl by_signal.
    replace (new_events p _) with
      (es1 ++ [Ev_stderr (str "Error. Could not open file "
                          ++ file_or_dev_null i ++ [SP]);
               Ev_perror (str "for input")])
      by (symmetry; apply new_events_trace; reflexivity).
    split; [reflexivity|]. split; [reflexivity|]. split.
    + apply Forall_app; split; [exact Hnf1 | repeat constructor].
    + intros path mode fd Hin' Hfd. exfalso.
      apply in_app_or in Hin' as [Hin'|Hin'].
      * apply Hes1 in Hin'. congruence.
      * simpl in Hin'. destruct Hin' as [H|[H|[]]]; discriminate.
  - destruct Hfail as [Hfail|Hfail]; [rewrite Hfail in E1; discriminate|].
    destruct (open_output w o bg (emit es1 p)) as [ofd p2] eqn:Hout.
    simpl in Hfail. subst ofd.
    assert (exists es2, p2 = emit es2 (emit es1 p) /\
              (forall path mode fd, In (Ev_open path mode fd) es2 -> fd = -1) /\
              Forall (fun e => is_fork e = false) es2)
      as (es2 & -> & Hes2 & Hnf2).
    { unfold open_output in Hout. destruct o as [f|]; [|destruct bg];
        inversion Hout as [[Hfd Hp2]].
      - eexists [_]. split; [reflexivity|]. split; [|repeat constructor].
        intros ? ? ? [H|[]]; inversion H. reflexivity.
      - eexists [_]. split; [reflexivity|]. split; [|repeat constructor].
        intros ? ? ? [H|[]]; inversion H. reflexivity. }
    simpl (-1 =? -1). cbv iota.
    unfold handle_file_error.
    set (closes := if negb (ifd =? STDIN_FILENO) then [Ev_close ifd] else []).
    assert ((if negb (ifd =? STDIN_FILENO)
             then emit [Ev_close ifd] (emit es2 (emit es1 p))
             else emit es2 (emit es1 p)) = emit closes (emit es2 (emit es1 p)))
      as ->.
    { unfold closes. destruct (negb (ifd =? STDIN_FILENO)); [reflexivity|].
      rewrite emit_nil; reflexivity. }
    rewrite !emit_emit.
    match goal with
    | |- context [set_exit_status 1 (emit ?a p)] =>
        replace (new_events p (set_exit_status 1 (emit a p))) with a
          by (symmetry; apply new_events_trace; reflexivity)
    end.
    split; [reflexivity|]. split; [reflexivity|]. split.
    + apply Forall_app; split; [exact Hnf1|].
      apply Forall_app; split; [exact Hnf2|].
      apply Forall_app; split; [|repeat constructor].
      unfold closes. destruct (negb _); repeat constructor.
    + intros path mode fd Hin' Hfd.
      apply in_app_or in Hin' as [Hin'|Hin'].
      * pose proof (Hes1 _ _ _ Hin'); subst fd.
        assert (es1 <> []) as Hne by (destruct es1; [destruct Hin' | discriminate]).
        specialize (Hnstd1 Hne).
        apply in_or_app; right. apply in_or_app; right. apply in_or_app; left.
        unfold closes. destruct (ifd =? STDIN_FILENO) eqn:E0;
          [apply Z.eqb_eq in E0; contradiction | simpl; auto].
      * apply in_app_or in Hin' as [Hin'|Hin'].
        -- apply Hes2 in Hin'. contradiction.
        -- exfalso. apply in_app_or in Hin' as [Hin'|Hin'].
           ++ unfold closes in Hin'. destruct (negb _); simpl in Hin';
                [destruct Hin' as [H|[]]; discriminate | destruct Hin'].
           ++ simpl in Hin'. destruct Hin' as [H|[H|[]]]; discriminate.
Qed.

(** C1, evaluated after a command that a signal ended: a foreground child is killed by
    signal 2, which records {TerminatedBySignal, 2}; the next command cannot
    open its input file.  [run_command] creates no child and stores exit
    status 1, but it leaves [by_signal] set, so the last-foreground-result
    reads {TerminatedBySignal, 1} and not {ExitedNormally, 1}. *)
Theorem C1_failed_open_keeps_signal_kind :
  last_foreground_result after_interrupted_sleep = (TerminatedBySignal, 2) /\
  last_foreground_result after_failed_redirect = (TerminatedBySignal, 1) /\
  last_foreground_result after_failed_redirect <> (ExitedNormally, 1) /\
  Forall (fun e => is_fork e = false)
         (new_events after_interrupted_sleep after_failed_redirect).
Proof.
  split; [reflexivity|]. split; [reflexivity|]. split; [discriminate|].
  vm_compute. repeat constructor.
Qed.

End Launcher.

(** ** The main loop *)

Section MainLoop.

Local Open Scope Z_scope.

Lemma skipn_length_app {A} (l x : list A) : skipn (List.length l) (l ++ x) = x.
Proof. rewrite skipn_app, skipn_all, Nat.sub_diag. reflexivity. Qed.

(** The elementary operations are history-free. *)
Lemma hf_id : history_free (fun p => p).
Proof.
  intros t p. unfold new_events. rewrite skipn_all, !app_nil_r.
  split; [destruct p|]; reflexivity.
Qed.

Ltac hf_basic :=
  intros t p; unfold new_events, with_trace; destruct p; cbn;
  rewrite ?skipn_length_app; split; reflexivity.

Lemma hf_emit es : history_free (emit es).
Proof. hf_basic. Qed.

Lemma hf_set_exit_status v : history_free (set_exit_status v).
Proof.
  intros t p. unfold new_events. cbn. rewrite skipn_all, !app_nil_r.
  split; reflexivity.
Qed.

Lemma hf_set_by_signal b : history_free (set_by_signal b).
Proof.
  intros t p. unfold new_events. cbn. rewrite skipn_all, !app_nil_r.
  split; reflexivity.
Qed.

Lemma hf_set_status s : history_free (set_status s).
Proof.
  intros t p. unfold new_events. cbn. rewrite skipn_all, !app_nil_r.
  split; reflexivity.
Qed.

Lemma hf_sigaction sig h : history_free (sigaction sig h).
Proof. hf_basic. Qed.

Lemma hf_set_zombies zs : history_free (set_zombies zs).
Proof.
  intros t p. unfold new_events. cbn. rewrite skipn_all, !app_nil_r.
  split; reflexivity.
Qed.

Lemma hf_set_foreground_flag v : history_free (set_foreground_flag v).
Proof.
  intros t p. unfold new_events. cbn. rewrite skipn_all, !app_nil_r.
  split; reflexivity.
Qed.

Lemma hf_set_sigchld_blocked b : history_free (set_sigchld_blocked b).
Proof.
  intros t p. unfold new_events. cbn. rewrite skipn_all, !app_nil_r.
  split; reflexivity.
Qed.

Lemma hf_set_sigchld_pending b : history_free (set_sigchld_pending b).
Proof.
  intros t p. unfold new_events. cbn. rewrite skipn_all, !app_nil_r.
  split; reflexivity.
Qed.

Lemma hf_sys_write fd buf n : history_free (sys_write fd buf n).
Proof. unfold sys_write. apply hf_emit. Qed.

Lemma hf_comp f g :
  history_free f -> history_free g -> history_free (fun p => g (f p)).
Proof.
  intros Hf Hg t p.
  destruct (Hf t p) as [Hf1 Hf2].
  destruct (Hg (t ++ new_events p (f p)) (f p)) as [Hg1 Hg2].
  assert (new_events p (g (f p)) = new_events p (f p) ++ new_events (f p) (g (f p)))
    as Hnew.
  { unfold new_events at 1. rewrite Hg2, Hf2 at 1.
    rewrite <- app_assoc, skipn_length_app. reflexivity. }
  split.
  - rewrite Hf1, Hg1, Hnew, app_assoc. reflexivity.
  - rewrite Hnew, app_assoc, <- Hf2. exact Hg2.
Qed.

(** A test on anything but the history keeps an operation history-free. *)
Lemma hf_test {A} (c : process -> A) (F : A -> process -> process) :
  (forall t p, c (with_trace t p) = c p) ->
  (forall a, history_free (F a)) ->
  history_free (fun p => F (c p) p).
Proof. intros Hc HF t p. rewrite Hc. apply HF. Qed.

Ltac hf :=
  repeat first
    [ apply hf_id | apply hf_emit | apply hf_set_exit_status
    | apply hf_set_by_signal | apply hf_set_status | apply hf_sigaction
    | apply hf_set_zombies | apply hf_set_foreground_flag
    | apply hf_set_sigchld_blocked | apply hf_set_sigchld_pending
    | apply hf_sys_write
    | match goal with
      | |- history_free (fun p => ?g (@?f p)) => apply (hf_comp f g)
      end ].

Lemma hf_sys_exit code : history_free (sys_exit code).
Proof.
  unfold sys_exit.
  apply (hf_test status
           (fun s p => match s with
                       | Running => set_status (Exited code) (emit [Ev_exit code] p)
                       | _ => p
                       end)); [reflexivity|].
  intros []; hf.
Qed.

Lemma hf_usleep_quiet usec : history_free (usleep usec []).
Proof.
  unfold usleep. cbn [children_terminate].
  apply (hf_test status
           (fun s p => match s with Running => emit [Ev_usleep usec] p | _ => p end));
    [reflexivity|].
  intros []; hf.
Qed.

(** The handlers are history-free, and so are the delivery of a signal and
    the change of the mask. *)
Lemma hf_write_int v : history_free (write_int v).
Proof.
  unfold write_int. destruct (v =? 0); [hf|].
  destruct (v <? 0); cbv zeta; hf.
Qed.

Lemma hf_report_child c st : history_free (report_child c st).
Proof.
  unfold report_child. cbv zeta.
  apply (hf_comp _ (sys_write STDOUT_FILENO [NL] 1)); [|hf].
  assert (history_free
            (fun p => sys_write STDOUT_FILENO (str " is done: ") 10
                        (write_int c
                           (sys_write STDOUT_FILENO (str "Background PID ") 15 p))))
    as Hhead.
  { apply (hf_comp _ (sys_write STDOUT_FILENO (str " is done: ") 10)); [|hf].
    apply (hf_comp _ (write_int c)); [hf | apply hf_write_int]. }
  destruct (WIFEXITED st); [|destruct (WIFSIGNALED st)]; [| |exact Hhead].
  - apply (hf_comp _ (write_int (WEXITSTATUS st))); [|apply hf_write_int].
    apply (hf_comp _ (sys_write STDOUT_FILENO (str "exit value ") 11));
      [exact Hhead | hf].
  - apply (hf_comp _ (write_int (WTERMSIG st))); [|apply hf_write_int].
    apply (hf_comp _ (sys_write STDOUT_FILENO (str "terminated by signal ") 21));
      [exact Hhead | hf].
Qed.

Lemma hf_reap_and_report zs : history_free (reap_and_report zs).
Proof.
  induction zs as [|[c st] zs IH]; cbn [reap_and_report]; [hf|].
  apply (hf_comp (fun p => report_child c st (emit [Ev_waitpid c st] p))
           (reap_and_report zs)); [|exact IH].
  apply (hf_comp _ (report_child c st)); [hf | apply hf_report_child].
Qed.

Lemma hf_reap_silently zs : history_free (reap_silently zs).
Proof.
  induction zs as [|[c st] zs IH]; cbn [reap_silently]; [hf|].
  apply (hf_comp (emit [Ev_waitpid c st]) (reap_silently zs)); [hf | exact IH].
Qed.

Lemma hf_run_disposition sig : history_free (run_disposition sig).
Proof.
  unfold run_disposition.
  apply (hf_test (fun p => handlers p sig)
           (fun h p => match h with
                       | SIG_DFL => default_action sig p
                       | SIG_IGN => p
                       | Fn_SIGCHLD_handler => SIGCHLD_handler p
                       | Fn_SIGCHLD_handler_no_output => SIGCHLD_handler_no_output p
                       | Fn_SIGTSTP_handler_normal_mode =>
                           SIGTSTP_handler_normal_mode p
                       | Fn_SIGTSTP_handler_foreground_only_mode =>
                           SIGTSTP_handler_foreground_only_mode p
                       end)); [reflexivity|].
  intros [].
  - destruct sig; cbn [default_action]; hf.
  - hf.
  - unfold SIGCHLD_handler.
    apply (hf_test zombies (fun zs p => set_zombies [] (reap_and_report zs p)));
      [reflexivity|].
    intros zs. apply (hf_comp _ (set_zombies [])); [apply hf_reap_and_report | hf].
  - unfold SIGCHLD_handler_no_output.
    apply (hf_test zombies (fun zs p => set_zombies [] (reap_silently zs p)));
      [reflexivity|].
    intros zs. apply (hf_comp _ (set_zombies [])); [apply hf_reap_silently | hf].
  - unfold SIGTSTP_handler_normal_mode, set_SIGTSTP_handler. cbv zeta. hf.
  - unfold SIGTSTP_handler_foreground_only_mode, set_SIGTSTP_handler. cbv zeta. hf.
Qed.

Lemma hf_deliver sig : history_free (deliver sig).
Proof.
  unfold deliver.
  apply (hf_test (fun p => (status p, sigchld_blocked p))
           (fun a p => match fst a with
                       | Running =>
                           if signal_eqb sig SIGCHLD && snd a
                           then set_sigchld_pending true p
                           else run_disposition sig p
                       | _ => p
                       end)); [reflexivity|].
  intros [[] blocked]; cbn [fst snd]; try hf.
  destruct (signal_eqb sig SIGCHLD && blocked); [hf | apply hf_run_disposition].
Qed.

Lemma hf_children_terminate arrivals : history_free (children_terminate arrivals).
Proof.
  induction arrivals as [|[c st] arrivals IH]; cbn [children_terminate]; [hf|].
  apply (hf_comp (child_terminates c st) (children_terminate arrivals)); [|exact IH].
  unfold child_terminates.
  apply (hf_test zombies
           (fun zs p => deliver SIGCHLD (set_zombies (zs ++ [(c, st)]) p)));
    [reflexivity|].
  intros zs. apply (hf_comp _ (deliver SIGCHLD)); [hf | apply hf_deliver].
Qed.

Lemma hf_sigprocmask b : history_free (sigprocmask b).
Proof.
  unfold sigprocmask.
  apply (hf_test (fun p => (status p, sigchld_pending p))
           (fun a p =>
              match fst a with
              | Running =>
                  if negb b && snd a
                  then run_disposition SIGCHLD
                         (set_sigchld_pending false
                            (set_sigchld_blocked b
                               (emit [Ev_sigprocmask b SIGCHLD] p)))
                  else set_sigchld_blocked b (emit [Ev_sigprocmask b SIGCHLD] p)
              | _ => p
              end)); [reflexivity|].
  intros [[] pend]; cbn [fst snd]; try hf.
  destruct (negb b && pend); [|hf].
  apply (hf_comp _ (run_disposition SIGCHLD)); [hf | apply hf_run_disposition].
Qed.

Lemma hf_builtin_status : history_free builtin_status.
Proof.
  unfold builtin_status.
  apply (hf_test (fun p => (by_signal p, exit_status p))
           (fun a p =>
              emit [Ev_stdout (str "Last foreground process status: "
                               ++ (if fst a then str "terminated by signal"
                                   else str "exit value")
                               ++ [SP] ++ sprintf_d (snd a) ++ [NL])] p));
    [reflexivity|].
  intros a; hf.
Qed.

Lemma hf_run_parent w pid bg : history_free (run_parent w pid bg).
Proof.
  destruct bg; [unfold run_parent; hf|].
  set (st := sys_waitpid w pid).
  assert (history_free
            (fun p => if WIFEXITED st
                      then set_exit_status (WEXITSTATUS st)
                             (set_by_signal false
                                (set_exit_status st (emit [Ev_waitpid pid st] p)))
                      else builtin_status
                             (emit [Ev_stdout [NL]]
                                (set_exit_status (WTERMSIG st)
                                   (set_by_signal true
                                      (set_exit_status st
                                         (emit [Ev_waitpid pid st] p)))))))
    as Hgoal.
  { destruct (WIFEXITED st); [hf|].
    apply (hf_comp _ builtin_status); [hf | apply hf_builtin_status]. }
  exact Hgoal.
Qed.

Lemma hf_run_child w args ifd ofd bg : history_free (run_child w args ifd ofd bg).
Proof.
  unfold run_child, set_child_signal_handlers, handle_exec_error. cbv zeta.
  destruct (sys_execvp w (hd [] args)); [hf|].
  apply (hf_comp _ (sys_exit 1)); [hf | apply hf_sys_exit].
Qed.

(** [run_command] neither reads the history of calls nor removes from it. *)
Lemma hf_run_command w args i o bg : history_free (run_command w args i o bg).
Proof.
  unfold run_command, open_input, open_output, handle_file_error,
    handle_fork_error.
  destruct i as [fi|], o as [fo|], bg; cbv beta iota zeta;
    repeat match goal with
           | |- context [if ?c then _ else _] => destruct c
           end;
    first [ solve [hf]
          | apply (hf_comp _ (run_child _ _ _ _ _)); [hf | apply hf_run_child]
          | apply (hf_comp _ (run_parent _ _ _)); [hf | apply hf_run_parent] ].
Qed.

Lemma run_command_history w args i o bg t p :
  run_command w args i o bg (with_trace t p) =
    with_trace (t ++ new_events p (run_command w args i o bg p))
               (run_command w args i o bg p) /\
  trace (run_command w args i o bg p) =
    trace p ++ new_events p (run_command w args i o bg p).
Proof. apply hf_run_command. Qed.

Lemma hf_dispatch w c : history_free (fun p => fst (dispatch w c p)).
Proof.
  unfold dispatch. destruct (argv c) as [|argv0 rest]; cbn [fst]; [hf|].
  destruct (strcmp_eq argv0 (str "exit")); cbn [fst]; [hf|].
  destruct (strcmp_eq argv0 (str "cd")); cbn [fst].
  { unfold builtin_cd, handle_path_error. cbv zeta.
    destruct (sys_chdir w (nth_error (argv0 :: rest) 1) =? -1); hf. }
  destruct (strcmp_eq argv0 (str "status")); cbn [fst]; [apply hf_builtin_status|].
  apply (hf_test (fun p => background c && negb (get_foreground_flag p =? 1))
           (fun b => run_command w (argv0 :: rest) (i_stream c) (o_stream c) b));
    [reflexivity|].
  intros b. apply hf_run_command.
Qed.

Lemma dispatch_triggered w c p :
  snd (dispatch w c p) = is_exit_command c.
Proof.
  unfold dispatch, is_exit_command. destruct (argv c) as [|argv0 rest];
    [reflexivity|].
  destruct (strcmp_eq argv0 (str "exit")); [reflexivity|].
  destruct (strcmp_eq argv0 (str "cd")); [reflexivity|].
  destruct (strcmp_eq argv0 (str "status")); reflexivity.
Qed.

Lemma hf_after_read w pid buffer :
  history_free (fun p => fst (after_read w pid buffer p)).
Proof.
  unfold after_read.
  destruct (parse_command pid buffer) as [[c|]|].
  - assert (forall p,
              fst (let (p0, triggered) := dispatch w c p in
                   (usleep 5000 [] (sigprocmask false p0), triggered))
              = usleep 5000 [] (sigprocmask false (fst (dispatch w c p)))) as Heq
      by (intros p; destruct (dispatch w c p); reflexivity).
    intros t p. rewrite !Heq.
    apply (hf_comp (fun p => sigprocmask false (fst (dispatch w c p)))
             (usleep 5000 [])); [|apply hf_usleep_quiet].
    apply (hf_comp (fun p => fst (dispatch w c p))
             (sigprocmask false)); [apply hf_dispatch | apply hf_sigprocmask].
  - cbn [fst].
    apply (hf_comp (sigprocmask false) (usleep 5000 []));
      [apply hf_sigprocmask | apply hf_usleep_quiet].
  - cbn [fst].
    apply (hf_comp (fun p => sigprocmask false (set_status Undefined p))
             (usleep 5000 [])); [|apply hf_usleep_quiet].
    apply (hf_comp (set_status Undefined) (sigprocmask false));
      [hf | apply hf_sigprocmask].
Qed.

Lemma after_read_snd w pid buffer p :
  snd (after_read w pid buffer p) =
    match parse_command pid buffer with
    | Ret (Some c) => is_exit_command c
    | _ => false
    end.
Proof.
  unfold after_read. destruct (parse_command pid buffer) as [[c|]|]; try reflexivity.
  rewrite <- (dispatch_triggered w c p). destruct (dispatch w c p); reflexivity.
Qed.

Lemma after_read_history w pid buffer t p :
  after_read w pid buffer (with_trace t p) =
    (with_trace (t ++ new_events p (fst (after_read w pid buffer p)))
                (fst (after_read w pid buffer p)),
     snd (after_read w pid buffer p)) /\
  trace (fst (after_read w pid buffer p)) =
    trace p ++ new_events p (fst (after_read w pid buffer p)).
Proof.
  destruct (hf_after_read w pid buffer t p) as [H1 H2]. split; [|exact H2].
  rewrite <- H1, (after_read_snd w pid buffer p),
    <- (after_read_snd w pid buffer (with_trace t p)).
  destruct (after_read w pid buffer (with_trace t p)); reflexivity.
Qed.

Lemma main_body_after_read w r sh :
  main_body w r sh =
    let p0 := children_terminate (sys_terminated w)
                (emit [Ev_stdout (str ": ")] (sigprocmask true (proc sh))) in
    let buffer := match r with Fgets_line line => line | Fgets_null => input_buffer sh end in
    let p1 := match r with Fgets_line _ => p0 | Fgets_null => emit [Ev_clearerr] p0 end in
    mk_shell (fst (after_read w (shell_pid sh) buffer p1)) (shell_pid sh) buffer
             (snd (after_read w (shell_pid sh) buffer p1)).
Proof.
  unfold main_body, after_read. destruct r; simpl.
  - destruct (parse_command (shell_pid sh) line) as [[c|]|]; try reflexivity.
    destruct (dispatch w c _); reflexivity.
  - destruct (parse_command (shell_pid sh) (input_buffer sh)) as [[c|]|];
      try reflexivity.
    destruct (dispatch w c _); reflexivity.
Qed.

Lemma after_read_triggered w pid buffer p :
  snd (after_read w pid buffer p) = true <->
  exists c, parse_command pid buffer = Ret (Some c) /\ is_exit_command c = true.
Proof.
  unfold after_read. destruct (parse_command pid buffer) as [[c|]|]; simpl.
  - pose proof (dispatch_triggered w c p) as H.
    destruct (dispatch w c p) as [q tr]; simpl in *. subst tr. split.
    + intros He; exists c; auto.
    + intros (c' & Hc & He). inversion Hc; subst; exact He.
  - split; [discriminate|]. intros (c & Hc & _); discriminate.
  - split; [discriminate|]. intros (c & Hc & _); discriminate.
Qed.

(** Blocking SIGCHLD runs nothing. *)
Lemma sigprocmask_block p :
  status p = Running ->
  sigprocmask true p
  = set_sigchld_blocked true (emit [Ev_sigprocmask true SIGCHLD] p).
Proof. intros Hrun. unfold sigprocmask. rewrite Hrun. reflexivity. Qed.

(** Children that terminate while SIGCHLD is blocked stay unreaped, and
    their signal stays pending. *)
Lemma children_terminate_blocked arrivals : forall p,
  status p = Running -> sigchld_blocked p = true ->
  children_terminate arrivals p
  = match arrivals with
    | [] => p
    | _ :: _ => set_sigchld_pending true (set_zombies (zombies p ++ arrivals) p)
    end.
Proof.
  induction arrivals as [|[c st] arrivals IH]; intros p Hrun Hmask;
    cbn [children_terminate]; [reflexivity|].
  assert (child_terminates c st p
          = set_sigchld_pending true (set_zombies (zombies p ++ [(c, st)]) p)) as ->.
  { unfold child_terminates, deliver. cbn [status set_zombies sigchld_blocked].
    rewrite Hrun, Hmask. reflexivity. }
  rewrite IH by assumption.
  destruct arrivals as [|a arrivals]; [reflexivity|].
  unfold set_sigchld_pending, set_zombies. cbn. rewrite <- app_assoc. reflexivity.
Qed.

(** The process when [fgets] returns: SIGCHLD is blocked, the prompt is
    out, and the children that terminated meanwhile wait to be reaped. *)
Lemma turn_start w p :
  status p = Running ->
  let p0 := children_terminate (sys_terminated w)
              (emit [Ev_stdout (str ": ")] (sigprocmask true p)) in
  trace p0 = trace p ++ [Ev_sigprocmask true SIGCHLD; Ev_stdout (str ": ")] /\
  status p0 = Running /\ same_mode p p0 /\ sigchld_blocked p0 = true /\
  zombies p0 = zombies p ++ sys_terminated w /\
  sigchld_pending p0
    = (sigchld_pending p || negb (List.length (sys_terminated w) =? 0)%nat).
Proof.
  intros Hrun. cbv zeta. rewrite sigprocmask_block by exact Hrun.
  rewrite children_terminate_blocked by (cbn; auto).
  destruct (sys_terminated w) as [|a arrivals]; cbn.
  - rewrite <- app_assoc, app_nil_r, orb_false_r.
    repeat split; auto.
  - rewrite <- app_assoc, orb_true_r. repeat split; auto.
Qed.

Lemma step_shell_pid sh i : shell_pid (step sh i) = shell_pid sh.
Proof.
  unfold step. destruct (status (proc sh)); try reflexivity.
  destruct (exit_triggered sh); try reflexivity.
  destruct i; try reflexivity.
  rewrite main_body_after_read. reflexivity.
Qed.

Lemma run_shell_pid inputs : forall sh, shell_pid (run inputs sh) = shell_pid sh.
Proof.
  unfold run. induction inputs as [|i inputs IH]; intros sh; simpl; auto.
  rewrite IH. apply step_shell_pid.
Qed.

(** Only a parsed [exit] sets [exit_triggered]. *)
Lemma step_exit_only sh i :
  (exit_triggered sh = true ->
   exists c, parse_command (shell_pid sh) (input_buffer sh) = Ret (Some c) /\
             is_exit_command c = true) ->
  exit_triggered (step sh i) = true ->
  exists c, parse_command (shell_pid sh) (input_buffer (step sh i)) = Ret (Some c) /\
            is_exit_command c = true.
Proof.
  intros Hinv. unfold step.
  destruct (status (proc sh)); auto.
  destruct (exit_triggered sh) eqn:Ht; auto.
  destruct i.
  - intros H; simpl in H; congruence.
  - intros H; simpl in H; congruence.
  - rewrite main_body_after_read. cbn [exit_triggered input_buffer]. intros H.
    apply after_read_triggered in H. exact H.
Qed.

Lemma run_exit_only inputs : forall sh,
  (exit_triggered sh = true ->
   exists c, parse_command (shell_pid sh) (input_buffer sh) = Ret (Some c) /\
             is_exit_command c = true) ->
  exit_triggered (run inputs sh) = true ->
  exists c, parse_command (shell_pid sh) (input_buffer (run inputs sh)) = Ret (Some c) /\
            is_exit_command c = true.
Proof.
  unfold run. induction inputs as [|i inputs IH]; intros sh Hinv; simpl; auto.
  intros H. rewrite <- (step_shell_pid sh i). apply IH; [|exact H].
  rewrite step_shell_pid. apply step_exit_only. exact Hinv.
Qed.

(** C10: when [fgets] returns NULL the loop goes on: it calls [clearerr] and
    parses the buffer as it stands, so the turn does exactly what typing the
    previous line again would do (same calls after the prompt, same resulting
    state), the buffer stays, and a blank buffer leaves the interpreter
    running in its loop; [exit_triggered] is set in that turn, and in any
    later one, only by a buffer that parses to the command [exit]. *)
Theorem C10_null_read_reparses (pid : Z) (garbage : list ascii)
  (inputs : list step_input) (w : os) :
  status (proc (run inputs (initial_shell pid garbage))) = Running ->
  exit_triggered (run inputs (initial_shell pid garbage)) = false ->
  forall sh a b,
  sh = run inputs (initial_shell pid garbage) ->
  a = step sh (In_read w Fgets_null) ->
  b = step sh (In_read w (Fgets_line (input_buffer sh))) ->
  input_buffer a = input_buffer sh /\
  (exists rest,
     new_events (proc sh) (proc a) =
       [Ev_sigprocmask true SIGCHLD; Ev_stdout (str ": "); Ev_clearerr] ++ rest /\
     new_events (proc sh) (proc b) =
       [Ev_sigprocmask true SIGCHLD; Ev_stdout (str ": ")] ++ rest) /\
  with_trace [] (proc a) = with_trace [] (proc b) /\
  exit_triggered a = exit_triggered b /\
  (exit_triggered a = true <->
   exists c, parse_command pid (input_buffer sh) = Ret (Some c) /\
             is_exit_command c = true) /\
  (parse_command pid (input_buffer sh) = Ret None ->
   status (proc a) = Running /\ exit_triggered a = false) /\
  (forall more,
     exit_triggered (run more sh) = true ->
     exists c, parse_command pid (input_buffer (run more sh)) = Ret (Some c) /\
               is_exit_command c = true).
Proof.
  intros Hrun Hloop sh a b Hsh Ha Hb.
  rewrite <- Hsh in Hrun, Hloop.
  assert (shell_pid sh = pid) as Hpid by (rewrite Hsh; apply run_shell_pid).
  unfold step in Ha, Hb. rewrite Hrun, Hloop in Ha, Hb.
  rewrite main_body_after_read in Ha, Hb. cbv zeta in Ha, Hb. rewrite Hpid in Ha, Hb.
  assert (interactive (proc sh)) as Hi.
  { rewrite Hsh. apply run_interactive; [|rewrite <- Hsh; exact Hrun].
    intros _; apply setup_interactive. }
  destruct (turn_start w (proc sh) Hrun) as (Htr0 & Hrun0 & Hm0 & _).
  set (p0 := children_terminate (sys_terminated w)
               (emit [Ev_stdout (str ": ")] (sigprocmask true (proc sh)))) in *.
  assert (emit [Ev_clearerr] p0 = with_trace (trace p0 ++ [Ev_clearerr]) p0) as Hp1
    by reflexivity.
  destruct (after_read_history w pid (input_buffer sh) (trace p0 ++ [Ev_clearerr]) p0)
    as [Hhist Hext].
  rewrite Hp1, Hhist in Ha. simpl fst in Ha. simpl snd in Ha.
  set (q := fst (after_read w pid (input_buffer sh) p0)) in *.
  set (rest := new_events p0 q) in *.
  subst a b. simpl.
  split; [reflexivity|]. split.
  - exists rest. split.
    + apply new_events_trace. cbn [proc with_trace trace]. rewrite Htr0.
      rewrite <- !app_assoc. reflexivity.
    + apply new_events_trace. cbn [proc]. fold q. unfold rest.
      rewrite Hext, Htr0. fold q. rewrite <- !app_assoc. reflexivity.
  - split; [reflexivity|]. split; [reflexivity|]. split.
    + apply after_read_triggered.
    + split.
      * intros Hnone. unfold q, after_read. rewrite Hnone. cbn [fst snd].
        rewrite usleep_quiet_status.
        assert (interactive p0) as Hi0
          by (eapply same_mode_interactive; eassumption).
        destruct (sigprocmask_mode false p0 Hi0) as [_ ->].
        split; [exact Hrun0 | reflexivity].
      * intros more Hex. rewrite <- Hpid. apply run_exit_only; [|exact Hex].
        rewrite Hloop. discriminate.
Qed.

Lemma C10_null_read_reparses_witness :
  input_buffer
    (step (run [In_read os_child_interrupted (Fgets_line (str "sleep 5"))]
               (initial_shell 42 (str "?")))
          (In_read os_child_interrupted Fgets_null))
  = str "sleep 5".
Proof.
  apply (C10_null_read_reparses 42 (str "?")
           [In_read os_child_interrupted (Fgets_line (str "sleep 5"))]
           os_child_interrupted eq_refl eq_refl
           (run [In_read os_child_interrupted (Fgets_line (str "sleep 5"))]
                (initial_shell 42 (str "?")))
           _ _ eq_refl eq_refl eq_refl).
Defined.

(** A line, then two NULL reads: the command of the line runs three times. *)
Example stale_line_runs_again :
  List.length
    (filter is_fork
       (trace (proc (run [In_read os_child_interrupted (Fgets_line (str "sleep 5"));
                          In_read os_child_interrupted Fgets_null;
                          In_read os_child_interrupted Fgets_null]
                         (initial_shell 42 (str "?"))))))
  = 3%nat.
Proof. vm_compute. reflexivity. Qed.

End MainLoop.

(** * Further properties of the code *)

(** ** Trimming on the right *)

Section TruncateRight.

#[local] Arguments Ascii.eqb : simpl never.

Lemma truncate_right_facts : forall len s base,
  snd (truncate_right s base len) <= len /\
  List.length (fst (truncate_right s base len)) = List.length s /\
  (forall i, snd (truncate_right s base len) <= i < len ->
     is_blank (get s (base + i)) = true /\
     get (fst (truncate_right s base len)) (base + i) = NUL) /\
  (0 < snd (truncate_right s base len) ->
     is_blank (get s (base + snd (truncate_right s base len) - 1)) = false) /\
  (forall j, j < base + snd (truncate_right s base len) \/ base + len <= j ->
     get (fst (truncate_right s base len)) j = get s j).
Proof.
  induction len as [|l IH]; intros s base.
  - simpl. repeat split; intros; try lia; reflexivity.
  - cbn [truncate_right].
    change (Ascii.eqb (get s (base + l)) SP || Ascii.eqb (get s (base + l)) NL)
      with (is_blank (get s (base + l))).
    destruct (is_blank (get s (base + l))) eqn:Hb.
    + destruct (IH (put0 s (base + l)) base) as (Hn & Hlen & Hcut & Hkeep & Hsame).
      set (r := truncate_right (put0 s (base + l)) base l) in *.
      split; [lia|]. split; [rewrite Hlen; apply put0_length|]. split; [|split].
      * intros i Hi. destruct (Nat.eq_dec i l) as [->|Hne].
        -- split; [exact Hb|]. rewrite Hsame by lia.
           rewrite get_put0, Nat.eqb_refl. reflexivity.
        -- destruct (Hcut i) as [Hbi Hz]; [lia|]. split; [|exact Hz].
           rewrite get_put0 in Hbi.
           destruct (Nat.eqb_spec (base + i) (base + l)); [lia | exact Hbi].
      * intros Hpos. specialize (Hkeep Hpos). rewrite get_put0 in Hkeep.
        destruct (Nat.eqb_spec (base + snd r - 1) (base + l)); [lia | exact Hkeep].
      * intros j Hj. rewrite Hsame by lia. rewrite get_put0.
        destruct (Nat.eqb_spec j (base + l)); [lia | reflexivity].
    + simpl. split; [lia|]. split; [reflexivity|]. split; [|split].
      * intros i Hi; lia.
      * intros _. replace (base + S l - 1) with (base + l) by lia. exact Hb.
      * intros; reflexivity.
Qed.

(** X1: [truncate_right(&s[base], len)] returns the length of the span
    without its trailing spaces and newlines, which is never more than
    [len]: every character it cuts was a space or a newline and is now a
    NUL, the last character it keeps is neither, and
    nothing outside the cut part of the span changes. *)
Theorem truncate_right_trims (s : list ascii) (base len : nat) :
  snd (truncate_right s base len) <= len /\
  (forall i, snd (truncate_right s base len) <= i < len ->
     is_blank (get s (base + i)) = true /\
     get (fst (truncate_right s base len)) (base + i) = NUL) /\
  (0 < snd (truncate_right s base len) ->
     is_blank (get s (base + snd (truncate_right s base len) - 1)) = false) /\
  (forall j, j < base + snd (truncate_right s base len) \/ base + len <= j ->
     get (fst (truncate_right s base len)) j = get s j) /\
  (Forall (fun c => is_blank c = true) (firstn len (skipn base s)) ->
   len <= List.length s - base ->
   snd (truncate_right s base len) = 0).
Proof.
  destruct (truncate_right_facts len s base) as (Hn & _ & Hcut & Hkeep & Hsame).
  repeat (split; [assumption|]).
  intros Hall Hlen.
  destruct (Nat.eq_dec (snd (truncate_right s base len)) 0) as [|Hpos]; [assumption|].
  exfalso. assert (0 < snd (truncate_right s base len)) as Hp by lia.
  specialize (Hkeep Hp).
  set (n := snd (truncate_right s base len)) in *.
  rewrite Forall_forall in Hall.
  assert (is_blank (get s (base + n - 1)) = true) as Hb; [|congruence].
  apply Hall. unfold get.
  replace (nth (base + n - 1) s NUL)
    with (nth (n - 1) (firstn len (skipn base s)) NUL).
  - apply nth_In. rewrite length_firstn, length_skipn. lia.
  - rewrite nth_firstn.
    assert ((n - 1 <? len) = true) as -> by (apply Nat.ltb_lt; lia).
    rewrite nth_skipn. f_equal. lia.
Qed.

Lemma truncate_right_trims_witness :
  snd (truncate_right (str "ab   ") 2 3) = 0.
Proof.
  apply (truncate_right_trims (str "ab   ") 2 3).
  - repeat constructor.
  - simpl. lia.
Defined.

End TruncateRight.

(** ** Integers in decimal *)

Section Decimal.

Local Open Scope Z_scope.

#[local] Arguments Ascii.eqb : simpl never.

(** The characters of a numeral that is read from its last digit. *)
Lemma string_of_revapp d : forall acc,
  str (NilEmpty.string_of_uint (Decimal.revapp d acc)) =
    List.rev (str (NilEmpty.string_of_uint d)) ++ str (NilEmpty.string_of_uint acc).
Proof.
  unfold str.
  induction d; intros acc; cbn [Decimal.revapp]; [reflexivity|..];
    rewrite IHd; cbn [NilEmpty.string_of_uint list_ascii_of_string List.rev];
    rewrite <- app_assoc; reflexivity.
Qed.

Lemma to_lu_small r :
  (0 < r < 10)%N ->
  str (NilEmpty.string_of_uint (Unsigned.to_lu r)) = [ascii_of_nat (48 + N.to_nat r)].
Proof.
  intros Hr.
  assert (r = 1 \/ r = 2 \/ r = 3 \/ r = 4 \/ r = 5 \/ r = 6 \/ r = 7 \/ r = 8
          \/ r = 9)%N as H by lia.
  repeat (destruct H as [->|H]; [reflexivity|]). subst r. reflexivity.
Qed.

Ltac count_up p :=
  repeat match goal with
         | |- context [(10 * N.pos p + ?k)%N] =>
             lazymatch k with
             | 0%N => fail
             | _ => replace (10 * N.pos p + k)%N
                      with (N.succ (10 * N.pos p + N.pred k))%N by lia;
                    rewrite Unsigned.to_lu_succ; simpl N.pred
             end
         end;
  rewrite ?N.add_0_r, Unsigned.to_ldec_tenfold; reflexivity.

(** One more digit in front of a numeral read from its last digit. *)
Lemma to_lu_step q r :
  (0 < q)%N -> (r < 10)%N ->
  str (NilEmpty.string_of_uint (Unsigned.to_lu (10 * q + r))) =
    ascii_of_nat (48 + N.to_nat r) :: str (NilEmpty.string_of_uint (Unsigned.to_lu q)).
Proof.
  intros Hq Hr. destruct q as [|p]; [lia|].
  assert (r = 0 \/ r = 1 \/ r = 2 \/ r = 3 \/ r = 4 \/ r = 5 \/ r = 6 \/ r = 7
          \/ r = 8 \/ r = 9)%N as H by lia.
  repeat (destruct H as [->|H]; [count_up p|]). subst r. count_up p.
Qed.

Lemma write_int_digits_zero fuel acc : write_int_digits fuel 0 acc = acc.
Proof. destruct fuel; reflexivity. Qed.

(** The digit loop of [write_int] leaves the decimal numeral of a positive
    value in front of the buffer, when the value has no more digits than
    the loop has turns. *)
Lemma write_int_digits_spec fuel : forall v acc,
  0 < v < 10 ^ Z.of_nat fuel ->
  write_int_digits fuel v acc =
    List.rev (str (NilEmpty.string_of_uint (Unsigned.to_lu (Z.to_N v)))) ++ acc.
Proof.
  induction fuel as [|f IH]; intros v acc Hv.
  - simpl in Hv. lia.
  - cbn [write_int_digits].
    assert ((v =? 0) = false) as -> by (apply Z.eqb_neq; lia).
    pose proof (Z.quot_rem' v 10) as Hqr.
    pose proof (Z.rem_bound_pos v 10 ltac:(lia) ltac:(lia)) as Hr.
    set (q := Z.quot v 10) in *. set (r := Z.rem v 10) in *.
    rewrite Nat2Z.inj_succ, Z.pow_succ_r in Hv by lia.
    assert (0 <= q) as Hq0 by lia.
    replace (Z.to_nat r) with (N.to_nat (Z.to_N r)) by apply Z_N_nat.
    destruct (Z.eq_dec q 0) as [Hz|Hnz].
    + rewrite Hz, write_int_digits_zero.
      replace (Z.to_N v) with (Z.to_N r) by (f_equal; lia).
      rewrite to_lu_small by lia. reflexivity.
    + rewrite IH by lia.
      replace (Z.to_N v) with (10 * Z.to_N q + Z.to_N r)%N by lia.
      rewrite to_lu_step by lia. cbn [List.rev]. rewrite <- app_assoc. reflexivity.
Qed.

Lemma sprintf_d_positive v :
  0 < v ->
  sprintf_d v = List.rev (str (NilEmpty.string_of_uint (Unsigned.to_lu (Z.to_N v)))).
Proof.
  intros Hv. destruct v as [|p|p]; try lia.
  unfold sprintf_d. cbn [Z.to_int NilEmpty.string_of_int Z.to_N Unsigned.to_lu].
  unfold Pos.to_uint, Decimal.rev. rewrite string_of_revapp.
  cbn [NilEmpty.string_of_uint]. unfold str at 2. simpl list_ascii_of_string.
  apply app_nil_r.
Qed.

Lemma sprintf_d_negative v : v < 0 -> sprintf_d v = "-"%char :: sprintf_d (- v).
Proof. intros Hv. destruct v as [|p|p]; try lia. reflexivity. Qed.

Lemma write_int_digits_length fuel : forall v acc,
  (List.length (write_int_digits fuel v acc) <= fuel + List.length acc)%nat.
Proof.
  induction fuel as [|f IH]; intros v acc; cbn [write_int_digits]; [lia|].
  destruct (v =? 0); [lia|].
  specialize (IH (Z.quot v 10) (ascii_of_nat (48 + Z.to_nat (Z.rem v 10)) :: acc)).
  cbn [List.length] in IH. lia.
Qed.

(** The ten characters of the buffer hold the numeral of every positive [int]. *)
Lemma write_int_digits_decimal v :
  0 < v <= INT_MAX -> write_int_digits 10 v [] = sprintf_d v.
Proof.
  intros Hv. unfold INT_MAX in Hv.
  rewrite write_int_digits_spec by (simpl; lia).
  rewrite app_nil_r, sprintf_d_positive by lia. reflexivity.
Qed.

Lemma sprintf_d_length v :
  - INT_MAX <= v <= INT_MAX -> (List.length (sprintf_d (Z.abs v)) <= 10)%nat.
Proof.
  intros Hv. destruct (Z.eq_dec v 0) as [->|Hnz]; [vm_compute; lia|].
  rewrite <- write_int_digits_decimal by lia.
  pose proof (write_int_digits_length 10 (Z.abs v) []) as H.
  cbn [List.length] in H. lia.
Qed.

(** What [write_int] writes: only [write] calls on the standard output, and
    together they carry the decimal numeral. *)
Lemma write_int_emits v p :
  - INT_MAX <= v <= INT_MAX ->
  exists ws, write_int v p = emit ws p /\
             written STDOUT_FILENO ws = sprintf_d v /\
             Forall (fun e => exists bytes, e = Ev_write STDOUT_FILENO bytes) ws /\
             (0 < List.length ws <= 2)%nat.
Proof.
  intros Hv. unfold write_int, sys_write.
  destruct (v =? 0) eqn:Hz.
  - apply Z.eqb_eq in Hz. subst v. eexists [_]. split; [reflexivity|].
    split; [reflexivity|]. split; [repeat constructor; eexists; reflexivity|].
    simpl; lia.
  - apply Z.eqb_neq in Hz. rewrite firstn_all.
    destruct (v <? 0) eqn:Hneg.
    + apply Z.ltb_lt in Hneg. rewrite write_int_digits_decimal by lia.
      rewrite emit_emit. eexists [_; _]. split; [reflexivity|].
      split; [|split; [repeat constructor; eexists; reflexivity | simpl; lia]].
      cbn. rewrite app_nil_r. symmetry. apply sprintf_d_negative. exact Hneg.
    + apply Z.ltb_ge in Hneg. rewrite write_int_digits_decimal by lia.
      eexists [_]. split; [reflexivity|].
      split; [|split; [repeat constructor; eexists; reflexivity | simpl; lia]].
      cbn. apply app_nil_r.
Qed.

(** X2: for every [int] whose negation is an [int], [write_int] sends to
    the standard output exactly the characters that [printf("%d")] would
    print, zero and negative values included, in at most two [write]
    calls; the numeral of the absolute value fits the ten-character
    buffer; and the process is left as it was. *)
Theorem write_int_decimal (v : Z) (p : process) :
  - INT_MAX <= v <= INT_MAX ->
  written STDOUT_FILENO (new_events p (write_int v p)) = sprintf_d v /\
  (List.length (sprintf_d (Z.abs v)) <= 10)%nat /\
  (List.length (new_events p (write_int v p)) <= 2)%nat /\
  Forall (fun e => exists bytes, e = Ev_write STDOUT_FILENO bytes)
         (new_events p (write_int v p)) /\
  with_trace (trace p) (write_int v p) = p.
Proof.
  intros Hv. destruct (write_int_emits v p Hv) as (ws & -> & Hw & Hall & Hlen).
  rewrite new_events_emit. split; [exact Hw|].
  split; [apply sprintf_d_length; exact Hv|]. split; [lia|].
  split; [exact Hall|]. destruct p; reflexivity.
Qed.

Lemma write_int_decimal_witness :
  written STDOUT_FILENO (new_events fresh_process (write_int (-2022) fresh_process))
  = str "-2022".
Proof.
  apply (write_int_decimal (-2022) fresh_process). unfold INT_MAX. lia.
Defined.

End Decimal.

(** ** The notice for a terminated background child *)

Section ChildNotice.

Local Open Scope Z_scope.

Lemma WTERMSIG_range st : 0 <= WTERMSIG st <= 127.
Proof.
  unfold WTERMSIG.
  assert (Z.land st 127 = st mod 2 ^ 7) as ->
    by (change 127 with (Z.ones 7); apply Z.land_ones; lia).
  pose proof (Z.mod_pos_bound st (2 ^ 7) ltac:(lia)). lia.
Qed.

Lemma WEXITSTATUS_range st : 0 <= WEXITSTATUS st <= 255.
Proof.
  unfold WEXITSTATUS. rewrite Z.shiftr_land.
  change (Z.shiftr 65280 8) with (Z.ones 8).
  rewrite Z.land_ones by lia.
  pose proof (Z.mod_pos_bound (Z.shiftr st 8) (2 ^ 8) ltac:(lia)). lia.
Qed.

Lemma written_app fd a b : written fd (a ++ b) = written fd a ++ written fd b.
Proof. apply flat_map_app. Qed.

(** The body of the reaping loop writes the notice of one child. *)
Lemma report_child_emits child_pid st p :
  0 < child_pid <= INT_MAX ->
  exists ws, report_child child_pid st p = emit ws p /\
             written STDOUT_FILENO ws = child_notice (child_pid, st) /\
             only_writes ws.
Proof.
  intros Hpid. unfold report_child, sys_write.
  pose proof (WTERMSIG_range st) as Hsig.
  pose proof (WEXITSTATUS_range st) as Hcode.
  destruct (write_int_emits child_pid
              (emit [Ev_write STDOUT_FILENO (firstn 15 (str "Background PID "))] p))
    as (w1 & -> & Hw1 & Ho1 & _); [lia|].
  assert (exists w2,
            (if WIFEXITED st
             then write_int (WEXITSTATUS st)
                    (emit [Ev_write STDOUT_FILENO (firstn 11 (str "exit value "))]
                       (emit [Ev_write STDOUT_FILENO (firstn 10 (str " is done: "))]
                          (emit w1 (emit [Ev_write STDOUT_FILENO
                                            (firstn 15 (str "Background PID "))] p))))
             else if WIFSIGNALED st
                  then write_int (WTERMSIG st)
                         (emit [Ev_write STDOUT_FILENO
                                  (firstn 21 (str "terminated by signal "))]
                            (emit [Ev_write STDOUT_FILENO (firstn 10 (str " is done: "))]
                               (emit w1 (emit [Ev_write STDOUT_FILENO
                                                 (firstn 15 (str "Background PID "))] p))))
                  else emit [Ev_write STDOUT_FILENO (firstn 10 (str " is done: "))]
                         (emit w1 (emit [Ev_write STDOUT_FILENO
                                           (firstn 15 (str "Background PID "))] p)))
            = emit w2 (emit [Ev_write STDOUT_FILENO (firstn 10 (str " is done: "))]
                         (emit w1 (emit [Ev_write STDOUT_FILENO
                                           (firstn 15 (str "Background PID "))] p))) /\
            written STDOUT_FILENO w2 =
              (if WIFEXITED st then str "exit value " ++ sprintf_d (WEXITSTATUS st)
               else if WIFSIGNALED st
                    then str "terminated by signal " ++ sprintf_d (WTERMSIG st)
                    else []) /\
            only_writes w2) as (w2 & -> & Hw2 & Ho2).
  { destruct (WIFEXITED st); [|destruct (WIFSIGNALED st)].
    - match goal with
      | |- context [write_int ?v ?q] =>
          destruct (write_int_emits v q) as (w & -> & Hw & Ho & _);
            [unfold INT_MAX; lia|]
      end.
      rewrite emit_emit. eexists. split; [reflexivity|].
      split; [rewrite written_app, Hw; reflexivity|].
      apply Forall_app; split; [repeat constructor; eexists; reflexivity | exact Ho].
    - match goal with
      | |- context [write_int ?v ?q] =>
          destruct (write_int_emits v q) as (w & -> & Hw & Ho & _);
            [unfold INT_MAX; lia|]
      end.
      rewrite emit_emit. eexists. split; [reflexivity|].
      split; [rewrite written_app, Hw; reflexivity|].
      apply Forall_app; split; [repeat constructor; eexists; reflexivity | exact Ho].
    - exists []. rewrite emit_nil. split; [reflexivity|].
      split; [reflexivity | constructor]. }
  rewrite !emit_emit. eexists. split; [reflexivity|]. split.
  - rewrite !written_app, Hw1, Hw2. unfold child_notice. cbn [fst snd].
    cbn [written flat_map firstn str list_ascii_of_string app].
    rewrite <- !app_assoc. reflexivity.
  - unfold only_writes in *. repeat (apply Forall_app; split);
      try assumption; repeat constructor; eexists; reflexivity.
Qed.

(** The loop over the terminated children writes their notices in the order
    in which [waitpid] hands them out. *)
Lemma reap_and_report_emits zs : forall p,
  Forall (fun z => 0 < fst z <= INT_MAX) zs ->
  exists es, reap_and_report zs p = emit es p /\
             written STDOUT_FILENO es = concat (map child_notice zs) /\
             (forall z, In z zs -> In (Ev_waitpid (fst z) (snd z)) es) /\
             Forall (fun e => is_reap_call e = true) es.
Proof.
  induction zs as [|[c st] zs IH]; intros p Hall.
  - exists []. rewrite emit_nil. repeat split; [intros z []|constructor].
  - apply Forall_cons_iff in Hall as [Hc Hall]. cbn [fst] in Hc.
    cbn [reap_and_report].
    destruct (report_child_emits c st (emit [Ev_waitpid c st] p) Hc)
      as (ws & -> & Hws & Hows).
    destruct (IH (emit ws (emit [Ev_waitpid c st] p)) Hall)
      as (es & -> & Hes & Hin & Hkinds).
    rewrite !emit_emit. eexists. split; [reflexivity|]. split; [|split].
    + rewrite !written_app, Hws, Hes. reflexivity.
    + intros z [<-|Hz]; [left; reflexivity|].
      apply in_or_app; right. apply in_or_app; right. apply Hin, Hz.
    + apply Forall_app; split; [apply Forall_cons; [reflexivity | constructor]|].
      apply Forall_app; split; [|exact Hkinds].
      eapply Forall_impl; [|exact Hows]. intros e (b & ->). reflexivity.
Qed.

(** The calls of the reaping loop do not depend on the process that makes
    them, and each is a [waitpid] or a [write] to the standard output. *)
Lemma write_int_calls v :
  exists es, (forall p, write_int v p = emit es p) /\
             Forall (fun e => is_reap_call e = true) es.
Proof.
  unfold write_int, sys_write. destruct (v =? 0).
  - eexists. split; [intros p; reflexivity | repeat constructor].
  - destruct (v <? 0); eexists;
      (split; [intros p; rewrite ?emit_emit; reflexivity | repeat constructor]).
Qed.

Lemma report_child_calls c st :
  exists es, (forall p, report_child c st p = emit es p) /\
             Forall (fun e => is_reap_call e = true) es.
Proof.
  unfold report_child, sys_write.
  destruct (write_int_calls c) as (e1 & H1 & F1).
  destruct (write_int_calls (WEXITSTATUS st)) as (e2 & H2 & F2).
  destruct (write_int_calls (WTERMSIG st)) as (e3 & H3 & F3).
  destruct (WIFEXITED st); [|destruct (WIFSIGNALED st)]; eexists;
    (split; [intros p; rewrite ?H1, ?H2, ?H3, ?emit_emit; reflexivity|]);
    repeat (apply Forall_app; split); try assumption; repeat constructor.
Qed.

Lemma reap_and_report_calls zs :
  exists es, (forall p, reap_and_report zs p = emit es p) /\
             Forall (fun e => is_reap_call e = true) es.
Proof.
  induction zs as [|[c st] zs (es & Hes & Fes)]; cbn [reap_and_report].
  - exists []. split; [intros p; symmetry; apply emit_nil | constructor].
  - destruct (report_child_calls c st) as (e1 & H1 & F1).
    eexists. split; [intros p; rewrite Hes, H1, !emit_emit; reflexivity|].
    repeat (apply Forall_app; split); try assumption; repeat constructor.
Qed.

Lemma reap_calls_spec zs p : reap_and_report zs p = emit (reap_calls zs) p.
Proof.
  destruct (reap_and_report_calls zs) as (es & Hes & _).
  unfold reap_calls. rewrite (Hes fresh_process). rewrite Hes. reflexivity.
Qed.

Lemma reap_calls_kinds zs : Forall (fun e => is_reap_call e = true) (reap_calls zs).
Proof.
  destruct (reap_and_report_calls zs) as (es & Hes & Fes).
  unfold reap_calls. rewrite (Hes fresh_process). exact Fes.
Qed.

Lemma reap_calls_notices zs :
  Forall (fun z => 0 < fst z <= INT_MAX) zs ->
  written STDOUT_FILENO (reap_calls zs) = concat (map child_notice zs) /\
  (forall z, In z zs -> In (Ev_waitpid (fst z) (snd z)) (reap_calls zs)).
Proof.
  intros Hall.
  destruct (reap_and_report_emits zs fresh_process Hall) as (es & Hes & Hw & Hin & _).
  unfold reap_calls. rewrite Hes. cbn [trace emit fresh_process List.length skipn app].
  auto.
Qed.

(** X3: when SIGCHLD reaches a process that has [SIGCHLD_handler]
    installed and does not block the signal, every terminated child is
    reaped and the standard output receives, child after child, the line
    [Background PID <pid> is done: exit value <n>] or
    [... terminated by signal <n>], the numbers in decimal; every call of
    the handler is a [waitpid] or a [write] to the standard output, and it
    changes nothing else of the process. *)
Theorem SIGCHLD_handler_reports (p : process) :
  status p = Running -> sigchld_blocked p = false ->
  handlers p SIGCHLD = Fn_SIGCHLD_handler ->
  Forall (fun z => 0 < fst z <= INT_MAX) (zombies p) ->
  written STDOUT_FILENO (new_events p (deliver SIGCHLD p))
    = concat (map child_notice (zombies p)) /\
  zombies (deliver SIGCHLD p) = [] /\
  (forall z, In z (zombies p) ->
     In (Ev_waitpid (fst z) (snd z)) (new_events p (deliver SIGCHLD p))) /\
  Forall (fun e => is_reap_call e = true) (new_events p (deliver SIGCHLD p)) /\
  set_zombies (zombies p) (with_trace (trace p) (deliver SIGCHLD p)) = p.
Proof.
  intros Hrun Hmask Hh Hall. unfold deliver, run_disposition.
  rewrite Hrun, Hmask, Hh. cbn [signal_eqb andb]. unfold SIGCHLD_handler.
  destruct (reap_and_report_emits (zombies p) p Hall) as (es & -> & Hes & Hin & Hk).
  assert (new_events p (set_zombies [] (emit es p)) = es) as ->
    by (apply new_events_trace; reflexivity).
  repeat (split; [assumption || reflexivity|]).
  destruct p; reflexivity.
Qed.

Lemma SIGCHLD_handler_reports_witness :
  written STDOUT_FILENO
    (new_events (set_zombies [(101, 256); (102, 9)] (setup fresh_process))
       (deliver SIGCHLD (set_zombies [(101, 256); (102, 9)] (setup fresh_process))))
  = str "Background PID 101 is done: exit value 1" ++ NL ::
    str "Background PID 102 is done: terminated by signal 9" ++ [NL].
Proof.
  apply (SIGCHLD_handler_reports (set_zombies [(101, 256); (102, 9)] (setup fresh_process))).
  - reflexivity.
  - reflexivity.
  - reflexivity.
  - unfold INT_MAX. repeat constructor; simpl; lia.
Defined.

End ChildNotice.

(** ** The length of the expanded line *)

Section ExpandLength.

#[local] Arguments Ascii.eqb : simpl never.

Import Config.

Lemma drop_leading_length s :
  List.length (drop_leading_spaces s) <= List.length s.
Proof.
  induction s as [|c r IH]; simpl; [lia|]. destruct (Ascii.eqb c SP); simpl; lia.
Qed.

Lemma collapse_length s : List.length (collapse_spaces s) <= List.length s.
Proof.
  induction s as [|c r IH]; simpl; [lia|].
  destruct (Ascii.eqb c SP && Ascii.eqb (hd NUL r) SP); simpl; lia.
Qed.

(** A pair of dollars becomes the numeral, every other character stays one
    character. *)
Lemma replace_length numeral : forall n x,
  List.length x <= n ->
  2 * List.length (replace_dollars numeral x)
  <= Nat.max 2 (List.length numeral) * List.length x.
Proof.
  pose proof (Nat.le_max_l 2 (List.length numeral)) as H2.
  pose proof (Nat.le_max_r 2 (List.length numeral)) as HL.
  set (M := Nat.max 2 (List.length numeral)) in *. clearbody M.
  induction n as [|n IH]; intros x Hx.
  - destruct x; [simpl; lia | simpl in Hx; lia].
  - destruct x as [|c [|d r]]; [simpl; lia | simpl; lia |].
    assert (2 * List.length (replace_dollars numeral (d :: r))
            <= M * S (List.length r)) as Hone by (apply IH; simpl in *; lia).
    assert (2 * List.length (replace_dollars numeral r) <= M * List.length r)
      as Htwo by (apply IH; simpl in *; lia).
    clear IH. cbn [List.length].
    destruct (Ascii.eqb c "$") eqn:Ec.
    + apply Ascii.eqb_eq in Ec. subst c.
      destruct (Ascii.eqb d "$") eqn:Ed.
      * apply Ascii.eqb_eq in Ed. subst d.
        rewrite replace_pair, length_app, !Nat.mul_succ_r. lia.
      * rewrite replace_lone by exact Ed.
        cbn [List.length]. rewrite (Nat.mul_succ_r M (S _)). lia.
    + apply Ascii.eqb_neq in Ec. rewrite replace_other by exact Ec.
      cbn [List.length]. rewrite (Nat.mul_succ_r M (S _)). lia.
Qed.

Lemma dollars_succ n : dollars (S n) = "$" :: "$" :: dollars n.
Proof. reflexivity. Qed.

Lemma cstr_dollars n : cstr (dollars n) = dollars n.
Proof.
  induction n as [|n IH]; [reflexivity|].
  rewrite dollars_succ, !cstr_cons, IH by discriminate. reflexivity.
Qed.

Lemma replace_dollars_dollars numeral n :
  replace_dollars numeral (dollars n) = concat (repeat numeral n).
Proof.
  induction n as [|n IH]; [reflexivity|].
  rewrite dollars_succ, replace_pair, IH. reflexivity.
Qed.

Lemma collapse_numerals numeral n :
  Forall (fun c => is_plain c = true) numeral ->
  collapse_spaces (concat (repeat numeral n)) = concat (repeat numeral n).
Proof.
  intros Hp. induction n as [|n IH]; [reflexivity|].
  cbn [repeat concat]. rewrite collapse_app_plain, IH by exact Hp. reflexivity.
Qed.

Lemma length_dollars n : List.length (dollars n) = 2 * n.
Proof.
  induction n as [|n IH]; [reflexivity|].
  rewrite dollars_succ. cbn [List.length]. rewrite IH. lia.
Qed.

Lemma length_numerals (numeral : list ascii) n :
  List.length (concat (repeat numeral n)) = n * List.length numeral.
Proof.
  induction n as [|n IH]; [reflexivity|].
  cbn [repeat concat]. rewrite length_app, IH. lia.
Qed.

Lemma write_int_digits_grows fuel : forall v acc,
  List.length acc <= List.length (write_int_digits fuel v acc).
Proof.
  induction fuel as [|f IH]; intros v acc; cbn [write_int_digits]; [lia|].
  destruct (v =? 0)%Z; [lia|].
  specialize (IH (Z.quot v 10) (ascii_of_nat (48 + Z.to_nat (Z.rem v 10)) :: acc)).
  cbn [List.length] in IH. lia.
Qed.

Lemma write_int_digits_step f v acc :
  (v <> 0)%Z ->
  write_int_digits (S f) v acc =
    write_int_digits f (Z.quot v 10)
      (ascii_of_nat (48 + Z.to_nat (Z.rem v 10)) :: acc).
Proof.
  intros Hv. cbn [write_int_digits].
  apply Z.eqb_neq in Hv. rewrite Hv. reflexivity.
Qed.

(** A process id of at least 100 has at least three digits. *)
Lemma three_digits v :
  (100 <= v <= INT_MAX)%Z -> 3 <= List.length (sprintf_d v).
Proof.
  intros Hv. rewrite <- write_int_digits_decimal by lia.
  pose proof (Z.quot_rem' v 10) as H1.
  pose proof (Z.rem_bound_pos v 10 ltac:(lia) ltac:(lia)) as R1.
  pose proof (Z.quot_rem' (Z.quot v 10) 10) as H2.
  assert (0 <= Z.quot v 10)%Z as Q1 by lia.
  pose proof (Z.rem_bound_pos (Z.quot v 10) 10 Q1 ltac:(lia)) as R2.
  change 10%nat with (S (S (S 7))).
  rewrite !write_int_digits_step by lia.
  match goal with
  | |- _ <= List.length (write_int_digits ?f ?q ?acc) =>
      pose proof (write_int_digits_grows f q acc) as Hg
  end.
  cbn [List.length] in Hg. lia.
Qed.

(** X4: the expanded line can be longer than the line that was typed,
    since each [$$] becomes the numeral of the process id: twice its
    length is at most the length of the input times the length of the
    numeral (times two when the numeral is shorter), so for a process id
    that is an [int] it has at most five times the characters of the
    input; and the bound is reached, a line of [n] pairs of dollars
    expands to [n] numerals.  The pass does not look at the size of the
    buffer it fills: for a process id of three digits or more, a line of
    1000 pairs of dollars fits the [MAX_INPUT_CHARS_SIZE] bytes of the
    input buffer and expands to more than that. *)
Theorem expand_length (pid : Z) (s : list ascii) :
  2 * List.length (expand pid s)
    <= Nat.max 2 (List.length (sprintf_d pid)) * List.length (cstr s) /\
  (forall n, expand pid (dollars n) = concat (repeat (sprintf_d pid) n)) /\
  ((0 <= pid <= INT_MAX)%Z ->
   List.length (expand pid s) <= 5 * List.length (cstr s)) /\
  ((100 <= pid <= INT_MAX)%Z ->
   List.length (dollars 1000) < MAX_INPUT_CHARS_SIZE /\
   MAX_INPUT_CHARS_SIZE < List.length (expand pid (dollars 1000))).
Proof.
  assert (2 * List.length (expand pid s)
          <= Nat.max 2 (List.length (sprintf_d pid)) * List.length (cstr s)) as Hb.
  { rewrite expand_is_spec. unfold expand_spec.
    pose proof (drop_leading_length
                  (collapse_spaces (replace_dollars (sprintf_d pid) (cstr s)))).
    pose proof (collapse_length (replace_dollars (sprintf_d pid) (cstr s))).
    pose proof (replace_length (sprintf_d pid) _ (cstr s) (le_n _)).
    lia. }
  assert (forall n, expand pid (dollars n) = concat (repeat (sprintf_d pid) n)) as Hd.
  { intros n. rewrite expand_is_spec. unfold expand_spec.
    rewrite cstr_dollars, replace_dollars_dollars.
    rewrite collapse_numerals by apply sprintf_d_plain.
    apply drop_leading_id. destruct n as [|n]; [reflexivity|].
    cbn [repeat concat]. rewrite get_app_0 by apply sprintf_d_nonempty.
    apply plain_head; [apply sprintf_d_plain | apply sprintf_d_nonempty]. }
  split; [exact Hb|]. split; [exact Hd|]. split.
  2:{ intros Hpid. pose proof (three_digits pid Hpid) as H3.
      rewrite Hd, length_dollars, length_numerals. unfold MAX_INPUT_CHARS_SIZE. lia. }
  - intros Hpid.
    assert (List.length (sprintf_d pid) <= 10) as Hlen.
    { pose proof (sprintf_d_length pid ltac:(lia)) as H.
      rewrite Z.abs_eq in H by lia. exact H. }
    assert (Nat.max 2 (List.length (sprintf_d pid)) <= 10) as Hm by lia.
    nia.
Qed.

Lemma expand_length_witness :
  List.length (expand 30000 (str "echo $$$$ $$")) <= 5 * List.length (cstr (str "echo $$$$ $$")).
Proof.
  apply (expand_length 30000 (str "echo $$$$ $$")). unfold INT_MAX. lia.
Defined.

End ExpandLength.

(** ** What [parse_command] reads of its line *)

Section ParsedText.

#[local] Arguments Ascii.eqb : simpl never.

(** [parse_command] as a function of the expanded, trimmed line: the NULs
    that [truncate_right] stored behind it are not read. *)
Lemma parse_command_unpadded pid line :
  fits_buffer pid line ->
  parse_command pid line =
    if List.length (trimmed pid line) =? 0 then Ret None
    else if Ascii.eqb (get (trimmed pid line) 0) "#" then Ret None
         else match detect_background (trimmed pid line) 0
                      (List.length (trimmed pid line) - 1) with
              | (bg, cs, new_right) => parse_spans bg cs 0 new_right
              end.
Proof.
  intros Hfit.
  destruct (parse_command_unfold pid line Hfit) as (k & ->).
  set (t := trimmed pid line).
  destruct (List.length t =? 0) eqn:Hlen; [reflexivity|].
  apply Nat.eqb_neq in Hlen.
  destruct (Ascii.eqb (get t 0) "#"); [reflexivity|].
  unfold detect_background. rewrite !get_padded.
  destruct (Ascii.eqb (get t (List.length t - 1)) "&" && (0 + 1 <? List.length t - 1)
            && Ascii.eqb (get t (List.length t - 1 - 1)) SP) eqn:Hbg.
  - apply andb_true_iff in Hbg as [Hbg _]. apply andb_true_iff in Hbg as [_ Hr].
    apply Nat.ltb_lt in Hr.
    apply parse_spans_agree.
    + apply buf_agree_put0. intros i _. apply get_padded.
    + rewrite get_put0.
      replace (List.length t - 1 - 2 + 1) with (List.length t - 1 - 1) by lia.
      rewrite Nat.eqb_refl. reflexivity.
  - apply parse_spans_agree.
    + intros i _. apply get_padded.
    + rewrite get_padded. apply get_overflow. lia.
Qed.

(** So are the filename blocks of the call. *)
Lemma parse_command_blocks_unpadded pid line :
  parse_command_blocks pid line =
    if List.length (trimmed pid line) =? 0 then []
    else if Ascii.eqb (get (trimmed pid line) 0) "#" then []
         else match detect_background (trimmed pid line) 0
                      (List.length (trimmed pid line) - 1) with
              | (_, cs, new_right) => parse_spans_blocks cs 0 new_right
              end.
Proof.
  destruct (parse_command_blocks_unfold pid line) as (k & ->).
  set (t := trimmed pid line).
  destruct (List.length t =? 0) eqn:Hlen; [reflexivity|].
  apply Nat.eqb_neq in Hlen.
  destruct (Ascii.eqb (get t 0) "#"); [reflexivity|].
  unfold detect_background. rewrite !get_padded.
  destruct (Ascii.eqb (get t (List.length t - 1)) "&" && (0 + 1 <? List.length t - 1)
            && Ascii.eqb (get t (List.length t - 1 - 1)) SP) eqn:Hbg.
  - apply andb_true_iff in Hbg as [Hbg _]. apply andb_true_iff in Hbg as [_ Hr].
    apply Nat.ltb_lt in Hr.
    apply parse_spans_blocks_agree.
    + apply buf_agree_put0. intros i _. apply get_padded.
    + rewrite get_put0.
      replace (List.length t - 1 - 2 + 1) with (List.length t - 1 - 1) by lia.
      rewrite Nat.eqb_refl. reflexivity.
  - apply parse_spans_blocks_agree.
    + intros i _. apply get_padded.
    + rewrite get_padded. apply get_overflow. lia.
Qed.

Lemma cstr_idem s : cstr (cstr s) = cstr s.
Proof.
  induction s as [|c r IH]; [reflexivity|]. simpl.
  destruct (Ascii.eqb c NUL) eqn:E; [reflexivity|].
  simpl. rewrite E, IH. reflexivity.
Qed.

Lemma cstr_app_nul s stale : cstr (cstr s ++ NUL :: stale) = cstr s.
Proof.
  induction s as [|c r IH]; [reflexivity|]. simpl.
  destruct (Ascii.eqb c NUL) eqn:E; [reflexivity|].
  simpl. rewrite E, IH. reflexivity.
Qed.

Lemma cstr_snoc s c : c <> NUL -> cstr (cstr s ++ [c]) = cstr s ++ [c].
Proof.
  intros Hc. induction s as [|a r IH].
  - simpl. apply Ascii.eqb_neq in Hc. rewrite Hc. reflexivity.
  - simpl. destruct (Ascii.eqb a NUL) eqn:E.
    + simpl. apply Ascii.eqb_neq in Hc. rewrite Hc. reflexivity.
    + simpl. rewrite E, IH. reflexivity.
Qed.

Lemma replace_snoc numeral c :
  c <> "$" ->
  forall n x, List.length x <= n ->
    replace_dollars numeral (x ++ [c]) = replace_dollars numeral x ++ [c].
Proof.
  intros Hc. induction n as [|n IH]; intros x Hx.
  - destruct x; [|simpl in Hx; lia]. reflexivity.
  - destruct x as [|a x']; [reflexivity|]. simpl in Hx.
    destruct (Ascii.eqb a "$") eqn:Ea.
    + apply Ascii.eqb_eq in Ea. subst a.
      destruct x' as [|d r].
      * cbn [app]. rewrite replace_lone
          by (apply Ascii.eqb_neq; unfold get; simpl; exact Hc).
        reflexivity.
      * destruct (Ascii.eqb d "$") eqn:Ed.
        -- apply Ascii.eqb_eq in Ed. subst d. cbn [app].
           rewrite !replace_pair, IH by (simpl in Hx; lia).
           apply app_assoc.
        -- cbn [app]. rewrite !replace_lone by exact Ed.
           change (d :: r ++ [c]) with ((d :: r) ++ [c]).
           rewrite IH by lia. reflexivity.
    + apply Ascii.eqb_neq in Ea. cbn [app].
      rewrite !replace_other, IH by (exact Ea || lia). reflexivity.
Qed.

Lemma drop_leading_snoc c s :
  c <> SP -> drop_leading_spaces (s ++ [c]) = drop_leading_spaces s ++ [c].
Proof.
  intros Hc. induction s as [|a r IH]; simpl.
  - apply Ascii.eqb_neq in Hc. rewrite Hc. reflexivity.
  - destruct (Ascii.eqb a SP); [exact IH | reflexivity].
Qed.

Lemma collapse_snoc c s :
  c <> SP -> collapse_spaces (s ++ [c]) = collapse_spaces s ++ [c].
Proof.
  intros Hc. induction s as [|a r IH].
  - simpl. apply Ascii.eqb_neq in Hc. rewrite Hc. reflexivity.
  - cbn [app]. destruct (Ascii.eqb a SP) eqn:Ea.
    + apply Ascii.eqb_eq in Ea. subst a.
      rewrite !collapse_space, IH, drop_leading_snoc by exact Hc. reflexivity.
    + apply Ascii.eqb_neq in Ea. rewrite !collapse_other, IH by exact Ea.
      reflexivity.
Qed.

Lemma expand_cstr pid s : expand pid (cstr s) = expand pid s.
Proof.
  rewrite !expand_is_spec. unfold expand_spec. rewrite cstr_idem. reflexivity.
Qed.

Lemma expand_stale pid s stale : expand pid (cstr s ++ NUL :: stale) = expand pid s.
Proof.
  rewrite !expand_is_spec. unfold expand_spec. rewrite cstr_app_nul. reflexivity.
Qed.

Lemma expand_newline pid s : expand pid (cstr s ++ [NL]) = expand pid s ++ [NL].
Proof.
  rewrite !expand_is_spec. unfold expand_spec.
  rewrite cstr_snoc by discriminate.
  rewrite (replace_snoc _ NL ltac:(discriminate) _ _ (le_n _)).
  rewrite collapse_snoc, drop_leading_snoc by discriminate. reflexivity.
Qed.

Lemma expand_leading_space pid s : expand pid (SP :: s) = expand pid s.
Proof.
  rewrite !expand_is_spec. unfold expand_spec.
  rewrite cstr_cons, replace_other, collapse_space by discriminate.
  cbn [drop_leading_spaces]. change (Ascii.eqb SP SP) with true. cbn iota.
  rewrite drop_leading_idem. reflexivity.
Qed.

Lemma trimmed_cstr pid s : trimmed pid (cstr s) = trimmed pid s.
Proof. unfold trimmed. rewrite expand_cstr. reflexivity. Qed.

Lemma trimmed_stale pid s stale : trimmed pid (cstr s ++ NUL :: stale) = trimmed pid s.
Proof. unfold trimmed. rewrite expand_stale. reflexivity. Qed.

Lemma trimmed_newline pid s : trimmed pid (cstr s ++ [NL]) = trimmed pid s.
Proof. unfold trimmed. rewrite expand_newline, rtrim_snoc. reflexivity. Qed.

Lemma trimmed_leading_space pid s : trimmed pid (SP :: s) = trimmed pid s.
Proof. unfold trimmed. rewrite expand_leading_space. reflexivity. Qed.

(** Lines with the same expansion are parsed alike, overrun included. *)
Lemma parse_command_of_expanded pid a b :
  expand pid a = expand pid b -> parse_command pid a = parse_command pid b.
Proof. intros H. unfold parse_command. rewrite H. reflexivity. Qed.

(** Lines whose expansions fit the buffer and have the same trimmed text
    have the same descriptor. *)
Lemma parse_command_of_trimmed pid a b :
  fits_buffer pid a -> fits_buffer pid b ->
  trimmed pid a = trimmed pid b -> parse_command pid a = parse_command pid b.
Proof.
  intros Ha Hb H.
  rewrite (parse_command_unpadded pid a Ha), (parse_command_unpadded pid b Hb), H.
  reflexivity.
Qed.

Lemma parse_command_blocks_of_trimmed pid a b :
  trimmed pid a = trimmed pid b ->
  parse_command_blocks pid a = parse_command_blocks pid b.
Proof.
  intros H.
  rewrite (parse_command_blocks_unpadded pid a), (parse_command_blocks_unpadded pid b), H.
  reflexivity.
Qed.

(** X5: the result of [parse_command] depends only on the expansion of the
    line, and, among the lines whose expansion fits the buffer, only on the
    expansion after the right trim.  So it reads the input buffer up to its
    first NUL only (whatever an earlier, longer line left behind it is not
    parsed) and a leading space changes nothing, whatever the length; the
    newline that [fgets] stores changes nothing where the expansion still
    fits with it. *)
Theorem parse_command_reads_trimmed_line (pid : Z) (line : list ascii) :
  (forall other, fits_buffer pid line -> fits_buffer pid other ->
     trimmed pid line = trimmed pid other ->
     parse_command pid line = parse_command pid other) /\
  (forall other, expand pid line = expand pid other ->
     parse_command pid line = parse_command pid other) /\
  parse_command pid (cstr line) = parse_command pid line /\
  (forall stale, parse_command pid (cstr line ++ NUL :: stale) = parse_command pid line) /\
  (fits_buffer pid (cstr line ++ [NL]) ->
   parse_command pid (cstr line ++ [NL]) = parse_command pid line) /\
  parse_command pid (SP :: line) = parse_command pid line.
Proof.
  split; [intros other Ha Hb H; apply parse_command_of_trimmed; assumption|].
  split; [intros other H; apply parse_command_of_expanded, H|].
  split; [apply parse_command_of_expanded, expand_cstr|].
  split; [intros stale; apply parse_command_of_expanded, expand_stale|].
  split; [|apply parse_command_of_expanded, expand_leading_space].
  intros Hfit. apply parse_command_of_trimmed.
  - exact Hfit.
  - unfold fits_buffer in *. rewrite expand_newline, length_app in Hfit.
    cbn [List.length] in Hfit. lia.
  - apply trimmed_newline.
Qed.

Lemma parse_command_reads_trimmed_line_witness :
  parse_command 42 (str "  ls   -l $$  ") = parse_command 42 (str "ls -l 42").
Proof.
  destruct (parse_command_reads_trimmed_line 42 (str "  ls   -l $$  ")) as [H _].
  apply H.
  - unfold fits_buffer. apply Nat.ltb_lt. vm_compute. reflexivity.
  - unfold fits_buffer. apply Nat.ltb_lt. vm_compute. reflexivity.
  - reflexivity.
Defined.

End ParsedText.
(** ** Operators that are not set off by spaces *)

Section UnspacedOperators.

#[local] Arguments Ascii.eqb : simpl never.

Import Config.

Lemma trimmed_no_nul pid line : Forall (fun c => c <> NUL) (trimmed pid line).
Proof.
  unfold trimmed. pose proof (expand_no_nul pid line) as Hn.
  destruct (rtrim_prefix (expand pid line)) as (bl & He & _).
  rewrite He in Hn. apply Forall_app in Hn. apply Hn.
Qed.

(** A line that ends in the background operator is parsed, in the
    background, from the text before the operator. *)
Lemma parse_command_background pid line u :
  fits_buffer pid line ->
  trimmed pid line = u ++ [SP; "&"] -> u <> [] -> get u 0 <> "#" ->
  parse_command pid line = parse_spans true u 0 (List.length u - 1).
Proof.
  intros Hfit Ht Hne Hhash.
  assert (0 < List.length u) as Hlen by (destruct u; [congruence | simpl; lia]).
  assert (trimmed pid line <> []) as Htne by (rewrite Ht; destruct u; discriminate).
  destruct (trimmed_head pid line Htne) as [Hsp _].
  rewrite parse_command_unpadded by exact Hfit.
  pose proof (background_test (trimmed pid line) Htne Hsp) as [_ Htest].
  rewrite Ht in *. rewrite length_app in *. cbn [List.length] in *.
  assert ((List.length u + 2 =? 0) = false) as -> by (apply Nat.eqb_neq; lia).
  rewrite get_app_l by exact Hlen.
  apply Ascii.eqb_neq in Hhash. rewrite Hhash.
  unfold detect_background. rewrite Htest.
  - replace (List.length u + 2 - 1 - 2) with (List.length u - 1) by lia.
    apply parse_spans_agree.
    + intros i Hi. rewrite get_put0.
      replace (List.length u + 2 - 1 - 1) with (List.length u) by lia.
      destruct (Nat.eqb_spec i (List.length u)) as [->|Hneq].
      * symmetry. apply get_overflow. lia.
      * apply get_app_l. lia.
    + rewrite get_put0.
      replace (List.length u - 1 + 1) with (List.length u + 2 - 1 - 1) by lia.
      rewrite Nat.eqb_refl. reflexivity.
  - exists u. split; [reflexivity|].
    rewrite get_app_l in Hsp by exact Hlen.
    destruct u as [|c u']; [congruence|]. apply Exists_cons_hd.
    apply Ascii.eqb_neq. exact Hsp.
Qed.

Lemma parse_command_blocks_background pid line u :
  trimmed pid line = u ++ [SP; "&"] -> u <> [] -> get u 0 <> "#" ->
  parse_command_blocks pid line = parse_spans_blocks u 0 (List.length u - 1).
Proof.
  intros Ht Hne Hhash.
  assert (0 < List.length u) as Hlen by (destruct u; [congruence | simpl; lia]).
  assert (trimmed pid line <> []) as Htne by (rewrite Ht; destruct u; discriminate).
  destruct (trimmed_head pid line Htne) as [Hsp _].
  rewrite parse_command_blocks_unpadded.
  pose proof (background_test (trimmed pid line) Htne Hsp) as [_ Htest].
  rewrite Ht in *. rewrite length_app in *. cbn [List.length] in *.
  assert ((List.length u + 2 =? 0) = false) as -> by (apply Nat.eqb_neq; lia).
  rewrite get_app_l by exact Hlen.
  apply Ascii.eqb_neq in Hhash. rewrite Hhash.
  unfold detect_background. rewrite Htest.
  - replace (List.length u + 2 - 1 - 2) with (List.length u - 1) by lia.
    apply parse_spans_blocks_agree.
    + intros i Hi. rewrite get_put0.
      replace (List.length u + 2 - 1 - 1) with (List.length u) by lia.
      destruct (Nat.eqb_spec i (List.length u)) as [->|Hneq].
      * symmetry. apply get_overflow. lia.
      * apply get_app_l. lia.
    + rewrite get_put0.
      replace (List.length u - 1 + 1) with (List.length u + 2 - 1 - 1) by lia.
      rewrite Nat.eqb_refl. reflexivity.
  - exists u. split; [reflexivity|].
    rewrite get_app_l in Hsp by exact Hlen.
    destruct u as [|c u']; [congruence|]. apply Exists_cons_hd.
    apply Ascii.eqb_neq. exact Hsp.
Qed.

Lemma tokens_from_trailing_space s : forall cur,
  tokens_from cur (s ++ [SP]) = tokens_from cur s.
Proof.
  induction s as [|c r IH]; intros cur.
  - cbn. apply app_nil_r.
  - cbn [app tokens_from]. destruct (Ascii.eqb c NUL); [reflexivity|].
    destruct (Ascii.eqb c SP); rewrite IH; reflexivity.
Qed.

Lemma firstn_snoc_last (u : list ascii) :
  u <> [] -> u = firstn (List.length u - 1) u ++ [get u (List.length u - 1)].
Proof.
  induction u as [|c r IH]; intros Hne; [congruence|].
  destruct r as [|d r']; [reflexivity|].
  cbn [List.length] in *. replace (S (S (List.length r')) - 1) with (S (List.length r')) by lia.
  cbn [firstn]. change (get (c :: d :: r') (S (List.length r')))
    with (get (d :: r') (List.length r')).
  rewrite <- app_comm_cons. f_equal.
  replace (List.length r') with (S (List.length r') - 1) at 1 2 by lia.
  apply IH. discriminate.
Qed.

(** Steps (3) and (4) on a text without an operator: every token is an
    argument and no stream is set. *)
Lemma parse_spans_no_operator bg u :
  u <> [] -> Forall (fun c => c <> NUL) u -> get u 0 <> SP ->
  (forall k, is_redirect_at u k = false) ->
  parse_spans bg u 0 (List.length u - 1)
  = Ret (Some (mk_command (firstn MAX_ARGV_SIZE (tokens u)) bg None None)).
Proof.
  intros Hne Hnn Hsp Hnoop.
  assert (0 < List.length u) as Hlen by (destruct u; [congruence | simpl; lia]).
  assert (tokens u <> []) as Htok.
  { apply tokens_head; apply Ascii.eqb_neq; [exact Hsp|].
    rewrite Forall_forall in Hnn. apply Hnn. unfold get. apply nth_In. exact Hlen. }
  unfold parse_spans. rewrite Nat.sub_0_r.
  set (r := List.length u - 1).
  assert (scan_to_redirect r u r 0 = r) as ->
    by (apply scan_to_redirect_to; [lia | lia | lia | intros; apply Hnoop | left; reflexivity]).
  destruct (Ascii.eqb (get u r) SP) eqn:Hlast.
  - apply Ascii.eqb_eq in Hlast.
    pose proof (firstn_snoc_last u Hne) as Hu. fold r in Hu. rewrite Hlast in Hu.
    assert (cstr_at (put0 u r) 0 = firstn r u) as ->.
    { apply cstr_at_word.
      - intros j Hj. rewrite length_firstn in Hj. rewrite get_put0.
        destruct (Nat.eqb_spec (0 + j) r); [lia|].
        simpl. unfold get. rewrite nth_firstn.
        assert ((j <? r) = true) as -> by (apply Nat.ltb_lt; lia). reflexivity.
      - apply Forall_firstn_keep. exact Hnn.
      - rewrite length_firstn, get_put0.
        replace (0 + Nat.min r (List.length u)) with r by lia.
        rewrite Nat.eqb_refl. reflexivity. }
    assert (tokens (firstn r u) = tokens u) as Heq.
    { rewrite Hu at 2. unfold tokens. symmetry. apply tokens_from_trailing_space. }
    rewrite parse_args_spec by (rewrite Heq; exact Htok).
    rewrite Heq. replace (r - S r) with 0 by lia. reflexivity.
  - assert (cstr_at u 0 = u) as ->
      by (apply cstr_at_word; [reflexivity | exact Hnn | apply get_overflow; lia]).
    rewrite parse_args_spec by exact Htok.
    rewrite Nat.sub_diag. reflexivity.
Qed.

(** Without an operator step (4) allocates no block. *)
Lemma parse_spans_blocks_no_operator u :
  u <> [] -> (forall k, is_redirect_at u k = false) ->
  parse_spans_blocks u 0 (List.length u - 1) = [].
Proof.
  intros Hne Hnoop.
  assert (0 < List.length u) as Hlen by (destruct u; [congruence | simpl; lia]).
  unfold parse_spans_blocks. rewrite Nat.sub_0_r.
  set (r := List.length u - 1).
  assert (scan_to_redirect r u r 0 = r) as ->
    by (apply scan_to_redirect_to; [lia | lia | lia | intros; apply Hnoop | left; reflexivity]).
  destruct (Ascii.eqb (get u r) SP).
  - replace (r - S r) with 0 by lia. reflexivity.
  - rewrite Nat.sub_diag. reflexivity.
Qed.

(** X6: the characters [<] and [>] are operators only as the exact
    sequences [ < ] and [ > ].  A line whose expansion fits the buffer and
    in which neither sequence occurs sets no stream, whatever [<] and [>]
    it holds: all its tokens, those with the characters included, become
    arguments, in the foreground or, after a trailing [ &], in the
    background, and no block is allocated for a filename. *)
Theorem unspaced_operators_are_arguments (pid : Z) (line u : list ascii) (bg : bool) :
  fits_buffer pid line ->
  trimmed pid line = u ++ (if bg then [SP; "&"] else []) ->
  u <> [] -> get u 0 <> "#" ->
  (bg = false -> get u (List.length u - 1) <> "&") ->
  (forall k, is_redirect_at u k = false) ->
  parse_command pid line
  = Ret (Some (mk_command (firstn MAX_ARGV_SIZE (tokens u)) bg None None)) /\
  parse_command_blocks pid line = [].
Proof.
  intros Hfit Ht Hne Hhash Hamp Hnoop.
  assert (0 < List.length u) as Hlen by (destruct u; [congruence | simpl; lia]).
  assert (trimmed pid line <> []) as Htne
    by (rewrite Ht; destruct u; [congruence | discriminate]).
  destruct (trimmed_head pid line Htne) as [Hsp _].
  pose proof (trimmed_no_nul pid line) as Hnn.
  rewrite Ht in Hsp, Hnn. rewrite get_app_l in Hsp by exact Hlen.
  apply Forall_app in Hnn as [Hnn _]. apply Ascii.eqb_neq in Hsp.
  destruct bg.
  - rewrite (parse_command_background pid line u Hfit Ht Hne Hhash).
    rewrite (parse_command_blocks_background pid line u Ht Hne Hhash).
    split; [apply parse_spans_no_operator | apply parse_spans_blocks_no_operator];
      assumption.
  - rewrite app_nil_r in Ht.
    assert (get (trimmed pid line) 0 <> "#") as Hhash' by (rewrite Ht; exact Hhash).
    assert (get (trimmed pid line) (List.length (trimmed pid line) - 1) <> "&")
      as Hamp' by (rewrite Ht; apply Hamp; reflexivity).
    rewrite parse_command_foreground, parse_command_blocks_foreground by assumption.
    rewrite Ht.
    split; [apply parse_spans_no_operator | apply parse_spans_blocks_no_operator];
      assumption.
Qed.

Lemma unspaced_operators_are_arguments_witness :
  parse_command 42 (str "sort <in >out 2>&1 &")
  = Ret (Some (mk_command [str "sort"; str "<in"; str ">out"; str "2>&1"]
                 true None None)) /\
  parse_command_blocks 42 (str "sort <in >out 2>&1 &") = [].
Proof.
  apply (unspaced_operators_are_arguments 42 (str "sort <in >out 2>&1 &")
           (str "sort <in >out 2>&1") true).
  - unfold fits_buffer. apply Nat.ltb_lt. vm_compute. reflexivity.
  - reflexivity.
  - discriminate.
  - discriminate.
  - discriminate.
  - intros k. rewrite is_redirect_at_get.
    do 17 (destruct k as [|k]; [reflexivity|]).
    unfold get. simpl. destruct k as [|k]; [reflexivity|].
    destruct k as [|k]; reflexivity.
Defined.

End UnspacedOperators.

(** ** Tokens and words *)

Section Words.

#[local] Arguments Ascii.eqb : simpl never.

Import Config.

Lemma tokens_from_nil s : forall cur,
  tokens_from cur s = [] <-> cur = [] /\ Forall (fun c => c = SP) (cstr s).
Proof.
  induction s as [|c r IH]; intros cur.
  - simpl. destruct cur; split; try tauto; try discriminate.
    + intros _. split; [reflexivity | constructor].
    + intros [H _]; discriminate.
  - cbn [tokens_from cstr]. destruct (Ascii.eqb c NUL) eqn:En.
    + destruct cur; split; try discriminate.
      * intros _. split; [reflexivity | constructor].
      * reflexivity.
      * intros [H _]; discriminate.
    + destruct (Ascii.eqb c SP) eqn:Es.
      * apply Ascii.eqb_eq in Es. subst c.
        specialize (IH []). split.
        -- intros H. apply app_eq_nil in H as [Hf Ht].
           apply IH in Ht as [_ Ht].
           split; [destruct cur; [reflexivity | discriminate] | constructor; auto].
        -- intros [-> H]. apply Forall_cons_iff in H as [_ H].
           simpl. apply IH. auto.
      * specialize (IH (cur ++ [c])). split.
        -- intros H. apply IH in H as [H _]. destruct cur; discriminate.
        -- intros [_ H]. apply Forall_cons_iff in H as [H _].
           apply Ascii.eqb_neq in Es. contradiction.
Qed.

(** X7: [parse_args] takes the first token for granted.  On a string
    without a token (empty, or spaces only) the NULL that [strtok_r]
    returns is passed to [strlen]; on every other string the call returns
    an [argv] that starts with a token that is not empty. *)
Theorem parse_args_needs_a_token (s : list ascii) :
  (parse_args s = UB <-> Forall (fun c => c = SP) (cstr s)) /\
  (parse_args s <> UB ->
   exists tok rest, parse_args s = Ret (tok :: rest) /\ tok <> [] /\
                    tok :: rest = firstn MAX_ARGV_SIZE (tokens s)).
Proof.
  pose proof (strtok_r_tokens s) as Htk.
  pose proof (tokens_from_nil s []) as Hnil. fold (tokens s) in Hnil.
  split.
  - unfold parse_args. destruct (strtok_r s) as [[tok save]|].
    + destruct Htk as [Htk _]. split; [discriminate|].
      intros H. exfalso.
      assert (tokens s = []) as E by (apply Hnil; auto). congruence.
    + split; [intros _; apply Hnil, Htk | reflexivity].
  - intros Hub.
    assert (tokens s <> []) as Hne.
    { intros E. apply Hub. unfold parse_args.
      destruct (strtok_r s) as [[tok save]|]; [|reflexivity].
      destruct Htk as [Htk _]. congruence. }
    rewrite (parse_args_spec s Hne).
    pose proof (tokens_nonempty s) as Hall.
    destruct (tokens s) as [|tok rest]; [congruence|].
    apply Forall_cons_iff in Hall as [Htok _].
    exists tok, (firstn (MAX_ARGV_SIZE - 1) rest).
    split; [reflexivity|]. split; [exact Htok | reflexivity].
Qed.

Lemma parse_args_needs_a_token_witness :
  exists tok rest, parse_args (str "  ls -l") = Ret (tok :: rest) /\ tok <> [] /\
                   tok :: rest = firstn MAX_ARGV_SIZE (tokens (str "  ls -l")).
Proof.
  apply (parse_args_needs_a_token (str "  ls -l")). discriminate.
Defined.

Lemma tokens_from_word w : forall cur rest,
  Forall (fun c => c <> SP /\ c <> NUL) w ->
  tokens_from cur (w ++ rest) = tokens_from (cur ++ w) rest.
Proof.
  induction w as [|c w IH]; intros cur rest Hw.
  - rewrite app_nil_r. reflexivity.
  - apply Forall_cons_iff in Hw as [[Hs Hn] Hw].
    cbn [app tokens_from].
    apply Ascii.eqb_neq in Hs, Hn. rewrite Hs, Hn.
    rewrite IH by exact Hw. rewrite <- app_assoc. reflexivity.
Qed.

Lemma join_words_cons w ws :
  ws <> [] -> join_words (w :: ws) = w ++ SP :: join_words ws.
Proof. destruct ws; [congruence | reflexivity]. Qed.

Lemma tokens_join ws :
  Forall is_token ws -> tokens (join_words ws) = ws.
Proof.
  unfold tokens. induction ws as [|w ws IH]; intros Hall; [reflexivity|].
  apply Forall_cons_iff in Hall as [[Hne Hw] Hall].
  destruct ws as [|w' ws'].
  - cbn [join_words]. rewrite <- (app_nil_r w) at 1.
    rewrite tokens_from_word by exact Hw. simpl.
    destruct w; [congruence | reflexivity].
  - rewrite join_words_cons by discriminate.
    rewrite tokens_from_word by exact Hw.
    cbn [tokens_from app]. change (Ascii.eqb SP NUL) with false.
    change (Ascii.eqb SP SP) with true. cbn iota.
    rewrite IH by exact Hall.
    destruct w; [congruence | reflexivity].
Qed.

(** X8: what [parse_args] returns for tokens joined by single spaces is
    those tokens again, up to the capacity of [argv]: the first
    [MAX_ARGV_SIZE] of them, so all of them when there are no more. *)
Theorem parse_args_round_trip (ws : list (list ascii)) :
  ws <> [] -> Forall is_token ws ->
  parse_args (join_words ws) = Ret (firstn MAX_ARGV_SIZE ws) /\
  (List.length ws <= MAX_ARGV_SIZE -> parse_args (join_words ws) = Ret ws).
Proof.
  intros Hne Hall.
  assert (parse_args (join_words ws) = Ret (firstn MAX_ARGV_SIZE ws)) as H.
  { rewrite parse_args_spec; rewrite tokens_join by exact Hall; [reflexivity | exact Hne]. }
  split; [exact H|]. intros Hlen. rewrite H, firstn_all2 by exact Hlen. reflexivity.
Qed.

Lemma parse_args_round_trip_witness :
  parse_args (join_words [str "grep"; str "-n"; str "a>b"])
  = Ret [str "grep"; str "-n"; str "a>b"].
Proof.
  apply (parse_args_round_trip [str "grep"; str "-n"; str "a>b"]).
  - discriminate.
  - repeat constructor; discriminate.
  - unfold MAX_ARGV_SIZE. simpl. lia.
Defined.

End Words.

(** ** The documented format, rendered and parsed back *)

Section RoundTrip.

#[local] Arguments Ascii.eqb : simpl never.

Import Config.

Lemma word_char_facts c :
  word_char c = true ->
  c <> NUL /\ c <> SP /\ c <> NL /\ c <> "$" /\ c <> "<" /\ c <> ">" /\ c <> "&".
Proof. intros H. repeat split; intros ->; discriminate H. Qed.

Lemma word_is_token w : is_word w -> is_token w.
Proof.
  intros [Hne Hall]. split; [exact Hne|].
  eapply Forall_impl; [|exact Hall]. intros c Hc.
  apply word_char_facts in Hc. tauto.
Qed.

Lemma word_is_plain_token w : is_word w -> is_plain_token w.
Proof.
  intros [Hne Hall]. split; [exact Hne|].
  eapply Forall_impl; [|exact Hall]. intros c Hc.
  apply word_char_facts in Hc as (Hn & Hs & Hl & Hd & _).
  apply Ascii.eqb_neq in Hn, Hs, Hl, Hd.
  unfold is_plain, is_blank. rewrite Hn, Hs, Hl, Hd. split; reflexivity.
Qed.

Lemma word_is_filename w : is_word w -> is_filename w.
Proof.
  intros Hw. pose proof (word_is_plain_token w Hw) as [Hne Hall].
  destruct Hw as [_ Hw]. split; [exact Hne|].
  eapply Forall_impl; [|exact Hw]. intros c Hc.
  apply word_char_facts in Hc as (Hn & Hs & Hl & _).
  apply Ascii.eqb_neq in Hs, Hl. unfold is_blank. rewrite Hs, Hl. auto.
Qed.

Lemma join_words_app a b :
  a <> [] -> b <> [] -> join_words (a ++ b) = join_words a ++ SP :: join_words b.
Proof.
  intros Ha Hb. induction a as [|w a IH]; [congruence|].
  destruct a as [|w' a'].
  - cbn [app]. rewrite join_words_cons by exact Hb. reflexivity.
  - change ((w :: w' :: a') ++ b) with (w :: ((w' :: a') ++ b)).
    rewrite !join_words_cons by discriminate.
    rewrite IH by discriminate. rewrite <- app_assoc. reflexivity.
Qed.

Lemma join_words_nonempty toks :
  toks <> [] -> Forall (fun t : list ascii => t <> []) toks -> join_words toks <> [].
Proof.
  intros Hne Hall. destruct toks as [|t toks]; [congruence|].
  apply Forall_cons_iff in Hall as [Ht _].
  destruct toks; [exact Ht|]. rewrite join_words_cons by discriminate.
  destruct t; [congruence | discriminate].
Qed.

Lemma join_words_get0 toks :
  hd [] toks <> [] -> get (join_words toks) 0 = get (hd [] toks) 0.
Proof.
  destruct toks as [|t toks]; [reflexivity|]. cbn [hd]. intros Ht.
  destruct toks; [reflexivity|]. rewrite join_words_cons by discriminate.
  apply get_app_0. exact Ht.
Qed.

Lemma Forall_join (P : ascii -> Prop) toks :
  P SP -> Forall (Forall P) toks -> Forall P (join_words toks).
Proof.
  intros Hsp. induction toks as [|t toks IH]; intros Hall; [constructor|].
  apply Forall_cons_iff in Hall as [Ht Hall].
  destruct toks as [|t' toks']; [exact Ht|].
  rewrite join_words_cons by discriminate.
  apply Forall_app; split; [exact Ht|]. constructor; [exact Hsp | apply IH, Hall].
Qed.

(** The last character of tokens joined by spaces is the last character of
    the last token. *)
Lemma join_words_last (P : ascii -> Prop) toks :
  toks <> [] -> Forall (fun t => t <> [] /\ Forall P t) toks ->
  exists y c, join_words toks = y ++ [c] /\ P c.
Proof.
  induction toks as [|t toks IH]; intros Hne Hall; [congruence|].
  apply Forall_cons_iff in Hall as [[Ht HP] Hall].
  destruct toks as [|t' toks'].
  - destruct (exists_last Ht) as (y & c & ->).
    exists y, c. split; [reflexivity|].
    apply Forall_app in HP as [_ HP]. inversion HP; assumption.
  - destruct IH as (y & c & Hy & Hc); [discriminate | exact Hall|].
    rewrite join_words_cons by discriminate. rewrite Hy.
    exists (t ++ SP :: y), c. split; [|exact Hc].
    rewrite <- app_assoc. reflexivity.
Qed.

Lemma cstr_id x : Forall (fun c => c <> NUL) x -> cstr x = x.
Proof.
  induction 1 as [|c r Hc _ IH]; [reflexivity|].
  rewrite cstr_cons, IH by exact Hc. reflexivity.
Qed.

Lemma replace_id numeral x :
  Forall (fun c => c <> "$") x -> replace_dollars numeral x = x.
Proof.
  induction 1 as [|c r Hc _ IH]; [reflexivity|].
  rewrite replace_other, IH by exact Hc. reflexivity.
Qed.

Lemma plain_token_chars t :
  is_plain_token t -> Forall (fun c => is_plain c = true) t.
Proof.
  intros [_ H]. eapply Forall_impl; [|exact H]. intros c [Hc _]; exact Hc.
Qed.

Lemma join_words_head toks :
  toks <> [] -> Forall is_plain_token toks ->
  Ascii.eqb (get (join_words toks) 0) SP = false.
Proof.
  intros Hne Hall. destruct toks as [|t toks]; [congruence|].
  apply Forall_cons_iff in Hall as [Ht _].
  rewrite join_words_get0 by (cbn [hd]; apply Ht).
  cbn [hd]. apply plain_head; [apply plain_token_chars, Ht | apply Ht].
Qed.

Lemma collapse_join toks :
  Forall is_plain_token toks -> collapse_spaces (join_words toks) = join_words toks.
Proof.
  induction toks as [|t toks IH]; intros Hall; [reflexivity|].
  apply Forall_cons_iff in Hall as [Ht Hall].
  destruct toks as [|t' toks'].
  - cbn [join_words]. rewrite <- (app_nil_r t) at 1.
    rewrite collapse_app_plain by (apply plain_token_chars, Ht).
    apply app_nil_r.
  - rewrite join_words_cons by discriminate.
    rewrite collapse_app_plain by (apply plain_token_chars, Ht).
    rewrite collapse_space, IH by exact Hall.
    rewrite drop_leading_id by (apply join_words_head; [discriminate | exact Hall]).
    reflexivity.
Qed.

(** Plain tokens joined by single spaces go through the expansion pass and
    the right trim unchanged. *)
Lemma expand_join pid toks :
  toks <> [] -> Forall is_plain_token toks ->
  cstr (join_words toks) = join_words toks /\
  expand pid (join_words toks) = join_words toks.
Proof.
  intros Hne Hall. rewrite expand_is_spec. unfold expand_spec.
  assert (Forall (Forall (fun c => is_plain c = true)) toks) as Hplain
    by (eapply Forall_impl; [|exact Hall]; intros t; apply plain_token_chars).
  assert (Forall (fun c => is_plain c = true \/ c = SP) (join_words toks)) as Hchars.
  { apply Forall_join; [right; reflexivity|].
    eapply Forall_impl; [|exact Hplain]. intros t Ht.
    eapply Forall_impl; [|exact Ht]. intros c Hc; left; exact Hc. }
  assert (cstr (join_words toks) = join_words toks) as Hc.
  { apply cstr_id.
    eapply Forall_impl; [|exact Hchars]. intros c [Hc | ->]; [|discriminate].
    apply is_plain_cases in Hc. tauto. }
  split; [exact Hc|]. rewrite Hc.
  rewrite replace_id.
  2:{ eapply Forall_impl; [|exact Hchars]. intros c [Hc' | ->]; [|discriminate].
      apply is_plain_cases in Hc'. tauto. }
  rewrite collapse_join by exact Hall.
  apply drop_leading_id, join_words_head; assumption.
Qed.

Lemma trimmed_join pid toks :
  toks <> [] -> Forall is_plain_token toks ->
  trimmed pid (join_words toks) = join_words toks.
Proof.
  intros Hne Hall. unfold trimmed.
  destruct (expand_join pid toks Hne Hall) as [_ ->].
  destruct (join_words_last (fun c => is_blank c = false) toks Hne)
    as (y & c & -> & Hc).
  { eapply Forall_impl; [|exact Hall]. intros t [Ht Hb]. split; [exact Ht|].
    eapply Forall_impl; [|exact Hb]. intros ch [_ H]; exact H. }
  rewrite rtrim_snoc, Hc. reflexivity.
Qed.

(** With the newline that [fgets] stores, the expansion is the line. *)
Lemma expand_join_newline pid toks :
  toks <> [] -> Forall is_plain_token toks ->
  expand pid (join_words toks ++ [NL]) = join_words toks ++ [NL].
Proof.
  intros Hne Hall. destruct (expand_join pid toks Hne Hall) as [Hc He].
  rewrite <- Hc at 1. rewrite expand_newline, He. reflexivity.
Qed.

Lemma trimmed_join_newline pid toks :
  toks <> [] -> Forall is_plain_token toks ->
  trimmed pid (join_words toks ++ [NL]) = join_words toks.
Proof.
  intros Hne Hall.
  destruct (expand_join pid toks Hne Hall) as [Hc _].
  rewrite <- Hc at 1. rewrite trimmed_newline. apply trimmed_join; assumption.
Qed.

Lemma render_tokens c :
  argv c <> [] ->
  render c = join_words (argv c ++ operator_tokens c) ++ [NL].
Proof.
  intros Hne. unfold render, operator_tokens.
  destruct (i_stream c) as [fi|], (o_stream c) as [fo|], (background c);
    cbn [app]; rewrite ?app_nil_r;
    try (rewrite join_words_app by (exact Hne || discriminate));
    cbn [join_words str list_ascii_of_string app];
    repeat (rewrite <- app_assoc; cbn [app]); reflexivity.
Qed.

Lemma tokens_redirections c :
  argv c <> [] ->
  join_words (argv c ++ operator_tokens c) =
    (join_words (argv c) ++ concat (map redirection_text (redirections_of c)))
    ++ (if background c then [SP; "&"] else []).
Proof.
  intros Hne. unfold operator_tokens, redirections_of.
  destruct (i_stream c) as [fi|], (o_stream c) as [fo|], (background c);
    cbn [app]; rewrite ?app_nil_r;
    try (rewrite join_words_app by (exact Hne || discriminate));
    cbn [join_words str list_ascii_of_string app map concat redirection_text
         redirect_char fst snd];
    rewrite ?app_nil_r;
    repeat (rewrite <- app_assoc; cbn [app]); reflexivity.
Qed.

Lemma get_snoc_last (y : list ascii) c : get (y ++ [c]) (List.length (y ++ [c]) - 1) = c.
Proof.
  rewrite length_app. cbn [List.length].
  rewrite get_app_r by lia.
  replace (List.length y + 1 - 1 - List.length y) with 0 by lia. reflexivity.
Qed.

(** X9: the format [command [arg ...] [< file] [> file] [&]] is parsed
    back to what it stands for.  For a descriptor whose words and
    filenames hold no blank and none of [$ < > &], with at most
    [MAX_ARGV_SIZE] words and a command that does not start with [#], the
    line that spells it, newline included, yields exactly that descriptor,
    provided the line is one that the input buffer can hold (fewer than
    [MAX_INPUT_CHARS_SIZE] characters).  Its filenames are copied to the
    blocks of [blocks_of]: the last filename of the line gets a block of
    its length, and its terminator is written one byte past the block. *)
Theorem render_parse_round_trip (pid : Z) (c : command) :
  well_formed c -> List.length (render c) < MAX_INPUT_CHARS_SIZE ->
  parse_command pid (render c) = Ret (Some c) /\
  parse_command_blocks pid (render c) = blocks_of (redirections_of c).
Proof.
  intros (Hne & Hlen & Hwords & Hhash & Hi & Ho) Hsize.
  set (args := join_words (argv c)).
  set (rs := redirections_of c).
  assert (Forall (fun t => t <> [] /\
                           Forall (fun ch => is_plain ch = true /\ is_blank ch = false /\
                                             (background c = false -> ch <> "&")) t)
                 (argv c ++ operator_tokens c)) as Htoks.
  { apply Forall_app; split.
    - eapply Forall_impl; [|exact Hwords]. intros w Hw.
      pose proof (word_is_plain_token w Hw) as [Hwne Hp]. split; [exact Hwne|].
      destruct Hw as [_ Hw]. rewrite Forall_forall in *. intros ch Hin.
      destruct (Hp ch Hin) as [H1 H2]. split; [exact H1|]. split; [exact H2|].
      intros _. apply (word_char_facts ch (Hw ch Hin)).
    - assert (forall f, is_word f ->
                f <> [] /\
                Forall (fun ch => is_plain ch = true /\ is_blank ch = false /\
                                  (background c = false -> ch <> "&")) f) as Hfile.
      { intros f Hf. pose proof (word_is_plain_token f Hf) as [Hfne Hp].
        split; [exact Hfne|]. destruct Hf as [_ Hf]. rewrite Forall_forall in *.
        intros ch Hin. destruct (Hp ch Hin) as [H1 H2].
        split; [exact H1|]. split; [exact H2|].
        intros _. apply (word_char_facts ch (Hf ch Hin)). }
      unfold operator_tokens.
      destruct (i_stream c) as [fi|]; destruct (o_stream c) as [fo|];
        destruct (background c); cbn [app];
        repeat (apply Forall_cons;
                  [first [ solve [apply Hfile; auto]
                         | split; [discriminate|];
                           repeat constructor; intros; congruence ]|]);
        constructor. }
  assert (Forall is_plain_token (argv c ++ operator_tokens c)) as Hplain.
  { eapply Forall_impl; [|exact Htoks]. intros t [Ht Hall]. split; [exact Ht|].
    eapply Forall_impl; [|exact Hall]. intros ch (H1 & H2 & _). auto. }
  assert (argv c ++ operator_tokens c <> []) as Hne'
    by (destruct (argv c); [congruence | discriminate]).
  assert (trimmed pid (render c) =
            (args ++ concat (map redirection_text rs))
            ++ (if background c then [SP; "&"] else [])) as Ht.
  { rewrite render_tokens by exact Hne.
    rewrite trimmed_join_newline by assumption.
    apply tokens_redirections. exact Hne. }
  assert (fits_buffer pid (render c)) as Hfit.
  { unfold fits_buffer. rewrite render_tokens in * by exact Hne.
    rewrite expand_join_newline by assumption. exact Hsize. }
  assert (Forall is_plain_token (argv c)) as Hargs_plain
    by (apply Forall_app in Hplain; apply Hplain).
  assert (args <> []) as Hargs_ne.
  { apply join_words_nonempty; [exact Hne|].
    eapply Forall_impl; [|exact Hwords]. intros w [Hw _]; exact Hw. }
  assert (hd [] (argv c) <> []) as Hhd.
  { destruct (argv c) as [|w ws]; [congruence|].
    apply Forall_cons_iff in Hwords as [[Hw _] _]. exact Hw. }
  assert (is_argument_text args) as Hat.
  { split; [exact Hargs_ne|]. split; [|split].
    - apply Forall_join; [repeat split; discriminate|].
      eapply Forall_impl; [|exact Hwords]. intros w [_ Hw].
      eapply Forall_impl; [|exact Hw]. intros ch Hch.
      apply word_char_facts in Hch. tauto.
    - apply Ascii.eqb_neq, join_words_head; assumption.
    - destruct (join_words_last (fun ch => ch <> SP) (argv c) Hne) as (y & ch & Hy & Hch).
      { eapply Forall_impl; [|exact Hwords]. intros w [Hw Hall]. split; [exact Hw|].
        eapply Forall_impl; [|exact Hall]. intros a Ha.
        apply word_char_facts in Ha. tauto. }
      unfold args. rewrite Hy, get_snoc_last. exact Hch. }
  assert (Forall (fun r => is_filename (snd r)) rs) as Hfiles.
  { unfold rs, redirections_of.
    destruct (i_stream c) as [fi|]; destruct (o_stream c) as [fo|]; cbn [app];
      repeat (apply Forall_cons; [apply word_is_filename; auto|]); constructor. }
  assert (get args 0 <> "#") as Hhash'
    by (unfold args; rewrite join_words_get0 by exact Hhd; exact Hhash).
  assert (firstn MAX_ARGV_SIZE (tokens args) = argv c) as Htok.
  { unfold args. rewrite tokens_join.
    - apply firstn_all2. exact Hlen.
    - eapply Forall_impl; [|exact Hwords]. apply word_is_token. }
  assert (last_stream true rs None = i_stream c /\
          last_stream false rs None = o_stream c) as [Hli Hlo]
    by (unfold rs, redirections_of;
        destruct (i_stream c), (o_stream c); split; reflexivity).
  assert (Ret (Some (mk_command (firstn MAX_ARGV_SIZE (tokens args)) (background c)
                       (last_stream true rs None) (last_stream false rs None)))
          = Ret (Some c)) as Hc
    by (rewrite Htok, Hli, Hlo; destruct c; reflexivity).
  rewrite <- Hc.
  assert (args ++ concat (map redirection_text rs) <> []) as Hbody_ne
    by (destruct args; [congruence | discriminate]).
  assert (get (args ++ concat (map redirection_text rs)) 0 <> "#") as Hbody_hash
    by (rewrite get_app_0 by exact Hargs_ne; exact Hhash').
  destruct (background c) eqn:Hbg.
  - rewrite (parse_command_background pid _ _ Hfit Ht Hbody_ne Hbody_hash).
    rewrite (parse_command_blocks_background pid _ _ Ht Hbody_ne Hbody_hash).
    split; [apply separated_redirections_last_wins
           | apply separated_redirections_blocks]; assumption.
  - rewrite app_nil_r in Ht.
    assert (get (trimmed pid (render c))
              (List.length (trimmed pid (render c)) - 1) <> "&") as Hamp.
    { rewrite Ht.
      pose proof (tokens_redirections c Hne) as Hbody.
      rewrite Hbg, app_nil_r in Hbody. fold args rs in Hbody. rewrite <- Hbody.
      destruct (join_words_last (fun ch => ch <> "&") (argv c ++ operator_tokens c) Hne')
        as (y & ch & Hy & Hch).
      { eapply Forall_impl; [|exact Htoks]. intros t [Htne Hall]. split; [exact Htne|].
        eapply Forall_impl; [|exact Hall]. intros a (_ & _ & Ha). apply Ha. reflexivity. }
      rewrite Hy, get_snoc_last. exact Hch. }
    rewrite parse_command_foreground, parse_command_blocks_foreground;
      try assumption; try (rewrite Ht; assumption).
    rewrite Ht.
    split; [apply separated_redirections_last_wins
           | apply separated_redirections_blocks]; assumption.
Qed.

Lemma render_parse_round_trip_witness :
  parse_command 42 (str "wc -l < in.txt > out.txt &" ++ [NL])
  = Ret (Some (mk_command [str "wc"; str "-l"] true
                 (Some (str "in.txt")) (Some (str "out.txt")))) /\
  parse_command_blocks 42 (str "wc -l < in.txt > out.txt &" ++ [NL])
  = [(7, 7); (7, 8)].
Proof.
  apply (render_parse_round_trip 42
           (mk_command [str "wc"; str "-l"] true
              (Some (str "in.txt")) (Some (str "out.txt")))).
  - unfold well_formed. cbn [argv i_stream o_stream hd].
    split; [discriminate|]. split; [unfold MAX_ARGV_SIZE; simpl; lia|].
    split; [repeat constructor; discriminate|]. split; [discriminate|].
    split; intros f [= <-]; split; try discriminate; repeat constructor.
  - apply Nat.ltb_lt. vm_compute. reflexivity.
Defined.

End RoundTrip.

(** ** The interpreter and the signals of the keyboard *)

Section KeyboardSignals.

Local Open Scope Z_scope.

Ltac split_tests :=
  repeat match goal with
         | |- context [if ?b then _ else _] => destruct b; simpl
         end.

Lemma run_command_survives w args i o bg p :
  survives_keyboard p -> survives_keyboard (run_command w args i o bg p).
Proof.
  unfold survives_keyboard. intros [H1 H2].
  unfold run_command, open_input, open_output, run_child, run_parent, sys_exit,
    handle_file_error, handle_fork_error, handle_exec_error, builtin_status.
  destruct i, o, bg; simpl; split_tests;
    try (destruct (status p) eqn:Hs; simpl);
    split; congruence.
Qed.

Lemma dispatch_survives w c p :
  survives_keyboard p -> survives_keyboard (fst (dispatch w c p)).
Proof.
  intros Hs. unfold dispatch.
  destruct (argv c); [split; discriminate|].
  destruct (strcmp_eq l (str "exit")); [exact Hs|].
  destruct (strcmp_eq l (str "cd")).
  - unfold builtin_cd, handle_path_error. simpl.
    match goal with
    | |- context [if ?b then _ else _] => destruct b
    end; exact Hs.
  - destruct (strcmp_eq l (str "status")); [exact Hs|].
    apply run_command_survives, Hs.
Qed.

Lemma main_body_survives w r sh :
  survives_keyboard (proc sh) -> survives_keyboard (proc (main_body w r sh)).
Proof.
  intros Hs. rewrite main_body_after_read. cbn zeta. cbn [proc].
  match goal with
  | |- survives_keyboard (fst (after_read w ?pid ?buffer ?p1)) =>
      assert (survives_keyboard p1) as Hs1;
      [|generalize dependent p1; generalize buffer]
  end.
  { unfold survives_keyboard in *.
    destruct r; cbn [status emit];
      rewrite children_terminate_status; cbn [status emit];
      rewrite sigprocmask_status; exact Hs. }
  intros buffer p1 Hs1. unfold after_read.
  destruct (parse_command (shell_pid sh) buffer) as [[c|]|].
  - pose proof (dispatch_survives w c p1 Hs1) as Hd.
    destruct (dispatch w c p1) as [q t]. cbn [fst] in *.
    unfold survives_keyboard in *.
    rewrite usleep_quiet_status, sigprocmask_status. exact Hd.
  - cbn [fst]. unfold survives_keyboard in *.
    rewrite usleep_quiet_status, sigprocmask_status. exact Hs1.
  - cbn [fst]. unfold survives_keyboard.
    rewrite usleep_quiet_status, sigprocmask_status.
    split; discriminate.
Qed.

(** Under the interactive dispositions the interrupt is ignored, the
    terminal stop runs one of the two handlers, and only SIGTERM has its
    default action. *)
Lemma deliver_survives sig p :
  interactive p -> survives_keyboard p -> survives_keyboard (deliver sig p).
Proof.
  intros (Hint & Hchld & Hterm & Htstp) Hs.
  destruct sig.
  - unfold deliver, run_disposition. destruct (status p); try exact Hs.
    cbn [signal_eqb andb]. rewrite Hint. exact Hs.
  - unfold deliver, run_disposition. destruct (status p) eqn:Hrun; try exact Hs.
    cbn [signal_eqb andb].
    destruct Htstp as [[_ ->]|[_ ->]]; unfold survives_keyboard; simpl;
      rewrite Hrun; split; discriminate.
  - unfold survives_keyboard. rewrite deliver_sigchld_status. exact Hs.
  - unfold deliver, run_disposition. destruct (status p); try exact Hs.
    cbn [signal_eqb andb]. rewrite Hterm. split; discriminate.
Qed.

Lemma step_survives sh i :
  (status (proc sh) = Running -> interactive (proc sh)) ->
  survives_keyboard (proc sh) -> survives_keyboard (proc (step sh i)).
Proof.
  intros Hinv Hs. unfold step.
  destruct (status (proc sh)) eqn:Hrun; try exact Hs.
  destruct (exit_triggered sh); [exact Hs|].
  specialize (Hinv eq_refl).
  destruct i; cbn [with_proc proc].
  - apply deliver_survives; assumption.
  - unfold child_terminates. apply deliver_survives.
    + exact Hinv.
    + exact Hs.
  - apply main_body_survives. exact Hs.
Qed.

Lemma run_survives inputs : forall sh,
  (status (proc sh) = Running -> interactive (proc sh)) ->
  survives_keyboard (proc sh) ->
  survives_keyboard (proc (run inputs sh)) /\
  (status (proc (run inputs sh)) = Running -> interactive (proc (run inputs sh))).
Proof.
  unfold run. induction inputs as [|i inputs IH]; intros sh Hinv Hs; [auto|].
  cbn [fold_left]. apply IH.
  - apply step_interactive. exact Hinv.
  - apply step_survives; assumption.
Qed.

(** X10: whatever lines are read, whatever children terminate and
    whatever signals arrive, the interpreter is never killed by the
    interrupt of the keyboard (SIGINT) and never stopped by the terminal
    stop (SIGTSTP): in every state it reaches in its loop an interrupt
    changes nothing at all, and a terminal stop leaves it running. *)
Theorem shell_survives_keyboard_signals (pid : Z) (garbage : list ascii)
  (inputs : list step_input) :
  survives_keyboard (proc (run inputs (initial_shell pid garbage))) /\
  deliver SIGINT (proc (run inputs (initial_shell pid garbage)))
    = proc (run inputs (initial_shell pid garbage)) /\
  status (deliver SIGTSTP (proc (run inputs (initial_shell pid garbage))))
    = status (proc (run inputs (initial_shell pid garbage))).
Proof.
  destruct (run_survives inputs (initial_shell pid garbage)) as [Hs Hinv].
  { intros _. apply setup_interactive. }
  { split; discriminate. }
  set (p := proc (run inputs (initial_shell pid garbage))) in *.
  split; [exact Hs|]. unfold deliver, run_disposition.
  destruct (status p) eqn:Hrun; try (split; [reflexivity | exact Hrun]).
  cbn [signal_eqb andb].
  destruct (Hinv eq_refl) as (Hint & _ & _ & Htstp).
  rewrite Hint. split; [reflexivity|].
  destruct Htstp as [[_ ->]|[_ ->]]; simpl; exact Hrun.
Qed.

End KeyboardSignals.

(** ** The launcher, branch by branch *)

Section LauncherBranches.

Local Open Scope Z_scope.

(** The two ways in which the input stream is chosen. *)
Lemma open_input_cases w i bg p :
  (open_input w i bg p = (STDIN_FILENO, p) /\ i = None /\ bg = false) \/
  (open_input w i bg p =
     (sys_open w (file_or_dev_null i) O_RDONLY,
      emit [Ev_open (file_or_dev_null i) O_RDONLY
              (sys_open w (file_or_dev_null i) O_RDONLY)] p) /\
   (i = None -> bg = true)).
Proof.
  unfold open_input. destruct i as [f|]; [|destruct bg].
  - right. split; [reflexivity | discriminate].
  - right. split; reflexivity.
  - left. auto.
Qed.

Lemma open_output_cases w o bg p :
  (open_output w o bg p = (STDOUT_FILENO, p) /\ o = None /\ bg = false) \/
  (exists mode,
     open_output w o bg p =
       (sys_open w (file_or_dev_null o) mode,
        emit [Ev_open (file_or_dev_null o) mode
                (sys_open w (file_or_dev_null o) mode)] p) /\
     mode = match o with Some _ => O_WRONLY_CREAT_TRUNC | None => O_WRONLY end /\
     (o = None -> bg = true)).
Proof.
  unfold open_output. destruct o as [f|]; [|destruct bg].
  - right. eexists. split; [reflexivity|]. split; [reflexivity | discriminate].
  - right. eexists. split; [reflexivity|]. split; reflexivity.
  - left. auto.
Qed.

(** What the parent does after a successful [fork]. *)
Lemma run_parent_trace w pid bg q :
  trace (run_parent w pid bg q) = trace q ++
    (if bg then [background_notice pid]
     else Ev_waitpid pid (sys_waitpid w pid) ::
          (if WIFEXITED (sys_waitpid w pid) then []
           else [Ev_stdout [NL];
                 Ev_stdout (status_line (decode_status (sys_waitpid w pid)))])).
Proof.
  unfold run_parent. destruct bg; [reflexivity|].
  unfold decode_status. simpl exit_status.
  destruct (WIFEXITED (sys_waitpid w pid)); [reflexivity|].
  unfold builtin_status, status_line. cbn [trace emit set_exit_status set_by_signal
    by_signal exit_status fst snd].
  rewrite <- !app_assoc. reflexivity.
Qed.

(** What the child does between [fork] and the end of [run_command]. *)
Lemma run_child_trace w args ifd ofd bg q :
  trace (run_child w args ifd ofd bg q) = trace q ++
    [Ev_sigaction SIGTSTP SIG_IGN;
     Ev_sigaction SIGINT (if bg then SIG_IGN else SIG_DFL);
     Ev_sigaction SIGCHLD SIG_DFL;
     Ev_dup2 ifd STDIN_FILENO; Ev_dup2 ofd STDOUT_FILENO;
     Ev_execvp (hd [] args) args]
    ++ (if sys_execvp w (hd [] args) then []
        else [Ev_stderr (str "Error. Command " ++ hd [] args ++ str " not found. ");
              Ev_perror []]
             ++ match status q with Running => [Ev_exit 1] | _ => [] end).
Proof.
  unfold run_child, set_child_signal_handlers, sigaction, handle_exec_error, sys_exit.
  destruct (sys_execvp w (hd [] args)); [|destruct (status q)];
    simpl; rewrite <- ?app_assoc; reflexivity.
Qed.


Lemma new_events_refl p : new_events p p = [].
Proof. unfold new_events. apply skipn_all. Qed.

(** The calls of [run_command], branch by branch: the streams that are
    opened, then the report of a failed [open], or the [fork] and what the
    process that returns from it does. *)
Lemma run_command_events w args i o bg p :
  new_events p (run_command w args i o bg p) =
    new_events p (snd (open_input w i bg p)) ++
    (if fst (open_input w i bg p) =? -1
     then [Ev_stderr (str "Error. Could not open file " ++ file_or_dev_null i ++ [SP]);
           Ev_perror (str "for input")]
     else
       new_events p (snd (open_output w o bg p)) ++
       (if fst (open_output w o bg p) =? -1
        then (if negb (fst (open_input w i bg p) =? STDIN_FILENO)
              then [Ev_close (fst (open_input w i bg p))] else [])
             ++ [Ev_stderr (str "Error. Could not open file "
                            ++ file_or_dev_null o ++ [SP]);
                 Ev_perror (str "for output")]
        else
          Ev_fork (sys_fork w) ::
          (if sys_fork w =? -1 then [Ev_perror (str "Error. fork failed")]
           else if sys_fork w =? 0
                then [Ev_sigaction SIGTSTP SIG_IGN;
                      Ev_sigaction SIGINT (if bg then SIG_IGN else SIG_DFL);
                      Ev_sigaction SIGCHLD SIG_DFL;
                      Ev_dup2 (fst (open_input w i bg p)) STDIN_FILENO;
                      Ev_dup2 (fst (open_output w o bg p)) STDOUT_FILENO;
                      Ev_execvp (hd [] args) args]
                     ++ (if sys_execvp w (hd [] args) then []
                         else [Ev_stderr (str "Error. Command " ++ hd [] args
                                          ++ str " not found. ");
                               Ev_perror []]
                              ++ match status p with
                                 | Running => [Ev_exit 1]
                                 | _ => []
                                 end)
                else
                  if bg then [background_notice (sys_fork w)]
                  else Ev_waitpid (sys_fork w) (sys_waitpid w (sys_fork w)) ::
                       (if WIFEXITED (sys_waitpid w (sys_fork w)) then []
                        else [Ev_stdout [NL];
                              Ev_stdout (status_line
                                           (decode_status
                                              (sys_waitpid w (sys_fork w))))])))).
Proof.
  apply new_events_trace.
  unfold run_command, open_input, open_output, handle_file_error, handle_fork_error.
  destruct i as [fi|], o as [fo|], bg; cbn [fst snd file_or_dev_null];
    rewrite ?new_events_emit, ?new_events_refl;
    change (STDIN_FILENO =? -1) with false;
    change (STDOUT_FILENO =? -1) with false;
    change (STDIN_FILENO =? STDIN_FILENO) with true;
    cbv iota;
    repeat match goal with
           | |- context [if ?c =? ?d then _ else _] => destruct (c =? d)
           end;
    repeat match goal with
           | |- context [negb (?c =? ?d)] => destruct (c =? d)
           end;
    cbn [negb];
    rewrite ?run_child_trace, ?run_parent_trace;
    cbn [trace emit set_exit_status status];
    rewrite <- ?app_assoc; cbn [app]; reflexivity.
Qed.


Lemma open_input_events w i bg p :
  Forall (fun e => is_open e = true) (new_events p (snd (open_input w i bg p))).
Proof.
  destruct (open_input_cases w i bg p) as [(-> & _)|(-> & _)]; cbn [snd].
  - rewrite new_events_refl. constructor.
  - rewrite new_events_emit. repeat constructor.
Qed.

Lemma open_output_events w o bg p :
  Forall (fun e => is_open e = true) (new_events p (snd (open_output w o bg p))).
Proof.
  destruct (open_output_cases w o bg p) as [(-> & _)|(mode & -> & _)]; cbn [snd].
  - rewrite new_events_refl. constructor.
  - rewrite new_events_emit. repeat constructor.
Qed.

Lemma not_open_not_in opens e :
  Forall (fun e => is_open e = true) opens -> is_open e = false -> ~ In e opens.
Proof.
  intros Hall He Hin. rewrite Forall_forall in Hall. apply Hall in Hin. congruence.
Qed.

(** X11: [run_command] closes a descriptor in one situation only: the
    output stream could not be opened after this call had opened the
    input stream, and then no child is created.  So the descriptors that
    it opens for a child are never closed by the interpreter: they are
    still open when [run_command] returns, also after a [fork] that
    failed. *)
Theorem run_command_closes_only_after_failed_output (w : os) (args : list (list ascii))
  (i o : option (list ascii)) (bg : bool) (p : process) (fd : Z) :
  In (Ev_close fd) (new_events p (run_command w args i o bg p)) ->
  fd = fst (open_input w i bg p) /\ fd <> STDIN_FILENO /\ fd <> -1 /\
  In (Ev_open (file_or_dev_null i) O_RDONLY fd)
     (new_events p (run_command w args i o bg p)) /\
  fst (open_output w o bg p) = -1 /\
  Forall (fun e => is_fork e = false) (new_events p (run_command w args i o bg p)).
Proof.
  rewrite run_command_events.
  pose proof (open_input_events w i bg p) as Hin_opens.
  pose proof (open_output_events w o bg p) as Hout_opens.
  set (ifd := fst (open_input w i bg p)) in *.
  set (ofd := fst (open_output w o bg p)) in *.
  set (es1 := new_events p (snd (open_input w i bg p))) in *.
  set (es2 := new_events p (snd (open_output w o bg p))) in *.
  intros Hin.
  apply in_app_or in Hin as [Hin|Hin];
    [exfalso; revert Hin; apply not_open_not_in; [assumption | reflexivity]|].
  destruct (ifd =? -1) eqn:E1.
  { exfalso. simpl in Hin. destruct Hin as [H|[H|[]]]; discriminate. }
  apply in_app_or in Hin as [Hin|Hin];
    [exfalso; revert Hin; apply not_open_not_in; [assumption | reflexivity]|].
  destruct (ofd =? -1) eqn:E2.
  - apply Z.eqb_neq in E1. apply Z.eqb_eq in E2.
    destruct (ifd =? STDIN_FILENO) eqn:E0; cbn [negb app] in *.
    + exfalso. simpl in Hin. destruct Hin as [H|[H|[]]]; discriminate.
    + apply Z.eqb_neq in E0.
      assert (fd = ifd) as ->
        by (simpl in Hin; destruct Hin as [H|[H|[H|[]]]];
            [injection H; auto | discriminate | discriminate]).
      split; [reflexivity|]. split; [exact E0|]. split; [exact E1|].
      split; [|split; [exact E2|]].
      * apply in_or_app; left. unfold es1, ifd.
        destruct (open_input_cases w i bg p) as [(Hoi & _)|(Hoi & _)].
        -- exfalso. apply E0. unfold ifd. rewrite Hoi. reflexivity.
        -- rewrite Hoi. cbn [fst snd]. rewrite new_events_emit. left; reflexivity.
      * apply Forall_app; split.
        { eapply Forall_impl; [|exact Hin_opens]. intros [] H; try discriminate H.
          reflexivity. }
        apply Forall_app; split.
        { eapply Forall_impl; [|exact Hout_opens]. intros [] H; try discriminate H.
          reflexivity. }
        repeat constructor.
  - exfalso. destruct Hin as [H|Hin]; [discriminate|].
    destruct (sys_fork w =? -1); [destruct Hin as [H|[]]; discriminate|].
    destruct (sys_fork w =? 0).
    + destruct (sys_execvp w (hd [] args)); [|destruct (status p)];
        simpl in Hin; repeat (destruct Hin as [H|Hin]; [discriminate|]);
        exact Hin.
    + destruct bg; [destruct Hin as [H|[]]; discriminate|].
      destruct Hin as [H|Hin]; [discriminate|].
      destruct (WIFEXITED (sys_waitpid w (sys_fork w))); [exact Hin|].
      destruct Hin as [H|[H|[]]]; discriminate.
Qed.

Lemma run_command_closes_only_after_failed_output_witness :
  fst (open_output os_output_denied (Some (str "out")) false fresh_process) = -1.
Proof.
  apply (run_command_closes_only_after_failed_output os_output_denied [str "sort"]
           (Some (str "in")) (Some (str "out")) false fresh_process 3).
  vm_compute. right; right; left; reflexivity.
Defined.


Ltac opens_succeed Hopen :=
  repeat match goal with
         | |- context [sys_open ?w ?a ?m =? -1] =>
             rewrite (proj2 (Z.eqb_neq (sys_open w a m) (-1)) (Hopen a m))
         end.

Lemma fst_open_input_ok w i bg p :
  (forall path mode, sys_open w path mode <> -1) ->
  (fst (open_input w i bg p) =? -1) = false.
Proof.
  intros Hopen. unfold open_input. destruct i; [|destruct bg]; cbn [fst];
    opens_succeed Hopen; reflexivity.
Qed.

Lemma fst_open_output_ok w o bg p :
  (forall path mode, sys_open w path mode <> -1) ->
  (fst (open_output w o bg p) =? -1) = false.
Proof.
  intros Hopen. unfold open_output. destruct o; [|destruct bg]; cbn [fst];
    opens_succeed Hopen; reflexivity.
Qed.

(** The calls up to the [fork] when both streams open. *)
Lemma run_command_forked_events w args i o bg p :
  (forall path mode, sys_open w path mode <> -1) ->
  exists opens after,
    Forall (fun e => is_open e = true) opens /\
    new_events p (run_command w args i o bg p)
      = opens ++ Ev_fork (sys_fork w) :: after /\
    after =
      (if sys_fork w =? -1 then [Ev_perror (str "Error. fork failed")]
       else if sys_fork w =? 0
            then [Ev_sigaction SIGTSTP SIG_IGN;
                  Ev_sigaction SIGINT (if bg then SIG_IGN else SIG_DFL);
                  Ev_sigaction SIGCHLD SIG_DFL;
                  Ev_dup2 (fst (open_input w i bg p)) STDIN_FILENO;
                  Ev_dup2 (fst (open_output w o bg p)) STDOUT_FILENO;
                  Ev_execvp (hd [] args) args]
                 ++ (if sys_execvp w (hd [] args) then []
                     else [Ev_stderr (str "Error. Command " ++ hd [] args
                                      ++ str " not found. ");
                           Ev_perror []]
                          ++ match status p with
                             | Running => [Ev_exit 1]
                             | _ => []
                             end)
            else
              if bg then [background_notice (sys_fork w)]
              else Ev_waitpid (sys_fork w) (sys_waitpid w (sys_fork w)) ::
                   (if WIFEXITED (sys_waitpid w (sys_fork w)) then []
                    else [Ev_stdout [NL];
                          Ev_stdout (status_line
                                       (decode_status
                                          (sys_waitpid w (sys_fork w))))])).
Proof.
  intros Hopen. rewrite run_command_events.
  rewrite fst_open_input_ok, fst_open_output_ok by exact Hopen.
  eexists (_ ++ _), _. split; [|split; [|reflexivity]].
  - apply Forall_app; split; [apply open_input_events | apply open_output_events].
  - rewrite <- app_assoc. reflexivity.
Qed.

(** X12: when [fork] fails, [run_command] reports it with [perror] and
    returns: it waits for nothing and prints no notice, and the process is
    as it was before the call (the last-foreground-result included), so
    the loop goes on to the next prompt. *)
Theorem fork_failure_changes_nothing (w : os) (args : list (list ascii))
  (i o : option (list ascii)) (bg : bool) (p : process) :
  (forall path mode, sys_open w path mode <> -1) ->
  sys_fork w = -1 ->
  (exists opens,
     Forall (fun e => is_open e = true) opens /\
     new_events p (run_command w args i o bg p)
       = opens ++ [Ev_fork (-1); Ev_perror (str "Error. fork failed")]) /\
  with_trace (trace p) (run_command w args i o bg p) = p.
Proof.
  intros Hopen Hfork. split.
  - destruct (run_command_forked_events w args i o bg p Hopen)
      as (opens & after & Hall & Hev & Hafter).
    rewrite Hfork in *. change (-1 =? -1) with true in Hafter. cbv iota in Hafter.
    exists opens. split; [exact Hall|]. rewrite Hev, Hafter. reflexivity.
  - unfold run_command, open_input, open_output, handle_fork_error.
    destruct i, o, bg; cbn [fst snd];
      change (STDIN_FILENO =? -1) with false;
      change (STDOUT_FILENO =? -1) with false; cbv iota;
      opens_succeed Hopen; rewrite Hfork; destruct p; reflexivity.
Qed.

Lemma fork_failure_changes_nothing_witness :
  with_trace (trace (setup fresh_process))
    (run_command os_no_fork [str "ls"] None (Some (str "out")) true
       (setup fresh_process))
  = setup fresh_process.
Proof.
  apply (fork_failure_changes_nothing os_no_fork [str "ls"] None (Some (str "out")) true
           (setup fresh_process)).
  - intros path mode. discriminate.
  - reflexivity.
Defined.

(** X13: in the forked child, [run_command] ignores SIGTSTP, leaves
    SIGINT at its default for a foreground command only, puts the two
    chosen descriptors on the standard input and output, and calls
    [execvp] with [argv[0]] and the whole [argv].  The child never comes
    back to the loop of the interpreter: either the program replaces it,
    or [execvp] fails, the child prints [Error. Command <argv[0]> not
    found. ] and the reason on the standard error, and exits with
    status 1. *)
Theorem child_execs_or_exits (w : os) (args : list (list ascii))
  (i o : option (list ascii)) (bg : bool) (p : process) :
  status p = Running ->
  (forall path mode, sys_open w path mode <> -1) ->
  sys_fork w = 0 ->
  status (run_command w args i o bg p)
    = (if sys_execvp w (hd [] args) then Replaced (hd [] args) else Exited 1) /\
  handlers (run_command w args i o bg p) SIGTSTP = SIG_IGN /\
  handlers (run_command w args i o bg p) SIGINT = (if bg then SIG_IGN else SIG_DFL) /\
  exists before,
    new_events p (run_command w args i o bg p) =
      before
      ++ [Ev_dup2 (fst (open_input w i bg p)) STDIN_FILENO;
          Ev_dup2 (fst (open_output w o bg p)) STDOUT_FILENO;
          Ev_execvp (hd [] args) args]
      ++ (if sys_execvp w (hd [] args) then []
          else [Ev_stderr (str "Error. Command " ++ hd [] args ++ str " not found. ");
                Ev_perror []; Ev_exit 1]) /\
    Forall (fun e => is_output e = false) before.
Proof.
  intros Hrun Hopen Hfork.
  assert (status (run_command w args i o bg p)
            = (if sys_execvp w (hd [] args) then Replaced (hd [] args) else Exited 1) /\
          handlers (run_command w args i o bg p) SIGTSTP = SIG_IGN /\
          handlers (run_command w args i o bg p) SIGINT
            = (if bg then SIG_IGN else SIG_DFL)) as (Hs & Ht & Hi).
  { unfold run_command, open_input, open_output, run_child, sys_exit,
      handle_exec_error, set_child_signal_handlers.
    destruct i, o, bg; cbn [fst snd];
      change (STDIN_FILENO =? -1) with false;
      change (STDOUT_FILENO =? -1) with false; cbv iota;
      opens_succeed Hopen; rewrite Hfork; simpl; rewrite Hrun;
      destruct (sys_execvp w (hd [] args)); repeat split; reflexivity. }
  split; [exact Hs|]. split; [exact Ht|]. split; [exact Hi|].
  destruct (run_command_forked_events w args i o bg p Hopen)
    as (opens & after & Hall & Hev & Hafter).
  rewrite Hfork, Hrun in Hafter. change (0 =? -1) with false in Hafter.
  change (0 =? 0) with true in Hafter. cbv iota in Hafter.
  exists (opens ++ [Ev_fork 0; Ev_sigaction SIGTSTP SIG_IGN;
                    Ev_sigaction SIGINT (if bg then SIG_IGN else SIG_DFL);
                    Ev_sigaction SIGCHLD SIG_DFL]).
  split.
  - rewrite Hev, Hafter, Hfork. rewrite <- !app_assoc.
    destruct (sys_execvp w (hd [] args)); reflexivity.
  - apply Forall_app; split; [|repeat constructor].
    eapply Forall_impl; [|exact Hall]. intros [] H; try discriminate H. reflexivity.
Qed.

Lemma child_execs_or_exits_witness :
  status (run_command os_child_no_program [str "nosuch"] None None false
            (setup fresh_process))
  = Exited 1.
Proof.
  apply (child_execs_or_exits os_child_no_program [str "nosuch"] None None false
           (setup fresh_process)).
  - reflexivity.
  - intros path mode. discriminate.
  - reflexivity.
Defined.

Lemma builtin_status_line q :
  new_events q (builtin_status q)
    = [Ev_stdout (status_line (last_foreground_result q))].
Proof.
  unfold builtin_status. rewrite new_events_emit.
  unfold status_line, last_foreground_result. cbn [fst snd].
  destruct (by_signal q); reflexivity.
Qed.

(** X14: a foreground child that exits is waited for in silence; one
    that a signal ends (more exactly, one whose wait status is not that of
    an exit) is reported at once, with a newline and then the very line
    that the [status] built-in prints afterwards:
    [Last foreground process status: terminated by signal <n>].  Without
    a redirection nothing is opened for it. *)
Theorem foreground_child_report (w : os) (args : list (list ascii))
  (i o : option (list ascii)) (p : process) :
  (forall path mode, sys_open w path mode <> -1) ->
  0 < sys_fork w ->
  last_foreground_result (run_command w args i o false p)
    = decode_status (sys_waitpid w (sys_fork w)) /\
  filter is_output (new_events p (run_command w args i o false p))
    = (if WIFEXITED (sys_waitpid w (sys_fork w)) then []
       else [Ev_stdout [NL];
             Ev_stdout (status_line (decode_status (sys_waitpid w (sys_fork w))))]) /\
  new_events (run_command w args i o false p)
             (builtin_status (run_command w args i o false p))
    = [Ev_stdout (status_line (decode_status (sys_waitpid w (sys_fork w))))] /\
  (i = None -> o = None ->
   Forall (fun e => is_open e = false) (new_events p (run_command w args i o false p))).
Proof.
  intros Hopen Hfork.
  assert (last_foreground_result (run_command w args i o false p)
          = decode_status (sys_waitpid w (sys_fork w))) as Hres.
  { destruct (run_command_parent w args i o false p Hopen Hfork) as (opens & _ & ->).
    destruct (run_parent_foreground w (sys_fork w)
                (emit (opens ++ [Ev_fork (sys_fork w)]) p)) as (_ & _ & _ & H).
    exact H. }
  assert ((sys_fork w =? -1) = false) as E1 by (apply Z.eqb_neq; lia).
  assert ((sys_fork w =? 0) = false) as E0 by (apply Z.eqb_neq; lia).
  split; [exact Hres|]. split; [|split; [rewrite builtin_status_line, Hres; reflexivity|]].
  2:{ intros -> ->. rewrite run_command_events. cbn [open_input open_output fst snd].
      rewrite new_events_refl. change (STDIN_FILENO =? -1) with false.
      change (STDOUT_FILENO =? -1) with false. cbv iota. rewrite E1, E0. cbn [app].
      destruct (WIFEXITED (sys_waitpid w (sys_fork w))); repeat constructor. }
  destruct (run_command_forked_events w args i o false p Hopen)
    as (opens & after & Hall & Hev & Hafter).
  rewrite E1, E0 in Hafter. rewrite Hev, Hafter.
  rewrite filter_app.
  assert (filter is_output opens = []) as ->.
  { clear Hev. induction Hall as [|e es He _ IH]; [reflexivity|].
    simpl. destruct e; try discriminate He. exact IH. }
  cbn [app filter is_output].
  destruct (WIFEXITED (sys_waitpid w (sys_fork w))); reflexivity.
Qed.

Lemma foreground_child_report_witness :
  filter is_output
    (new_events (setup fresh_process)
       (run_command os_child_interrupted [str "sleep"; str "5"] None None false
          (setup fresh_process)))
  = [Ev_stdout [NL];
     Ev_stdout (str "Last foreground process status: terminated by signal 2" ++ [NL])].
Proof.
  apply (foreground_child_report os_child_interrupted [str "sleep"; str "5"] None None
           (setup fresh_process)).
  - intros path mode. discriminate.
  - reflexivity.
Defined.


(** X15: a command that runs in the background always gets both streams
    from files, the named ones or [/dev/null], opened for reading and for
    writing in this order; the interpreter prints [Background PID <pid>]
    and returns without waiting, and the process is otherwise as it was: a
    background command never changes the last-foreground-result. *)
Theorem background_launch (w : os) (args : list (list ascii))
  (i o : option (list ascii)) (p : process) :
  (forall path mode, sys_open w path mode <> -1) ->
  0 < sys_fork w ->
  new_events p (run_command w args i o true p) =
    [Ev_open (file_or_dev_null i) O_RDONLY (sys_open w (file_or_dev_null i) O_RDONLY);
     Ev_open (file_or_dev_null o)
       (match o with Some _ => O_WRONLY_CREAT_TRUNC | None => O_WRONLY end)
       (sys_open w (file_or_dev_null o)
          (match o with Some _ => O_WRONLY_CREAT_TRUNC | None => O_WRONLY end));
     Ev_fork (sys_fork w);
     Ev_stdout (str "Background PID " ++ sprintf_d (sys_fork w) ++ [NL])] /\
  with_trace (trace p) (run_command w args i o true p) = p.
Proof.
  intros Hopen Hfork.
  assert ((sys_fork w =? -1) = false) as E1 by (apply Z.eqb_neq; lia).
  assert ((sys_fork w =? 0) = false) as E0 by (apply Z.eqb_neq; lia).
  split.
  - rewrite run_command_events.
    rewrite fst_open_input_ok, fst_open_output_ok by exact Hopen.
    rewrite E1, E0. unfold open_input, open_output.
    destruct i, o; cbn [snd file_or_dev_null]; rewrite !new_events_emit; reflexivity.
  - unfold run_command, open_input, open_output, run_parent.
    destruct i, o; cbn [fst snd]; opens_succeed Hopen; rewrite E1, E0;
      destruct p; reflexivity.
Qed.

Lemma background_launch_witness :
  with_trace (trace after_interrupted_sleep)
    (run_command os_child_interrupted [str "sleep"; str "100"] None None true
       after_interrupted_sleep)
  = after_interrupted_sleep.
Proof.
  apply (background_launch os_child_interrupted [str "sleep"; str "100"] None None
           after_interrupted_sleep).
  - intros path mode. discriminate.
  - reflexivity.
Defined.

End LauncherBranches.

(** ** Terminated children and the signal mask *)

Ltac process_fields :=
  apply process_eq;
  cbn [foreground_flag exit_status by_signal handlers zombies sigchld_blocked
       sigchld_pending trace status set_zombies set_sigchld_pending
       set_sigchld_blocked emit];
  rewrite <- ?app_assoc; try reflexivity; try (symmetry; assumption);
  try assumption.

Section Reaping.

Local Open Scope Z_scope.

(** The launcher and the built-ins leave the kernel's view of the children
    and of SIGCHLD alone. *)
Lemma run_command_kernel w args i o bg p :
  zombies (run_command w args i o bg p) = zombies p /\
  sigchld_blocked (run_command w args i o bg p) = sigchld_blocked p /\
  sigchld_pending (run_command w args i o bg p) = sigchld_pending p.
Proof.
  unfold run_command, open_input, open_output, run_child, run_parent, sys_exit,
    handle_file_error, handle_fork_error, handle_exec_error, builtin_status.
  destruct i, o, bg; simpl;
    repeat match goal with
           | |- context [if ?b then _ else _] => destruct b; simpl
           end;
    try (destruct (status p); simpl); auto.
Qed.

Lemma dispatch_kernel w c p :
  zombies (fst (dispatch w c p)) = zombies p /\
  sigchld_blocked (fst (dispatch w c p)) = sigchld_blocked p /\
  sigchld_pending (fst (dispatch w c p)) = sigchld_pending p.
Proof.
  unfold dispatch. destruct (argv c) as [|argv0 rest]; [auto|].
  destruct (strcmp_eq argv0 (str "exit")); [auto|].
  destruct (strcmp_eq argv0 (str "cd")).
  - unfold builtin_cd, handle_path_error. simpl.
    match goal with
    | |- context [if ?b then _ else _] => destruct b
    end; auto.
  - destruct (strcmp_eq argv0 (str "status")); [auto|].
    apply run_command_kernel.
Qed.

Lemma after_command_kernel w pid buffer p :
  zombies (after_command w pid buffer p) = zombies p /\
  sigchld_blocked (after_command w pid buffer p) = sigchld_blocked p /\
  sigchld_pending (after_command w pid buffer p) = sigchld_pending p.
Proof.
  unfold after_command. destruct (parse_command pid buffer) as [[c|]|]; cbn [fst].
  - apply dispatch_kernel.
  - auto.
  - auto.
Qed.

Lemma after_command_handlers w pid buffer p :
  status p = Running -> status (after_command w pid buffer p) = Running ->
  forall s, handlers (after_command w pid buffer p) s = handlers p s.
Proof.
  unfold after_command. destruct (parse_command pid buffer) as [[c|]|]; cbn [fst].
  - apply dispatch_handlers.
  - auto.
  - intros _ Hbad; discriminate.
Qed.

(** A turn of the loop, by its three parts. *)
Lemma main_body_parts w r sh :
  proc (main_body w r sh)
  = usleep 5000 []
      (sigprocmask false
         (after_command w (shell_pid sh)
            (match r with Fgets_line line => line | Fgets_null => input_buffer sh end)
            (match r with
             | Fgets_line _ => at_read w (proc sh)
             | Fgets_null => emit [Ev_clearerr] (at_read w (proc sh))
             end))).
Proof.
  unfold main_body, after_command, at_read. destruct r.
  - destruct (parse_command (shell_pid sh) line) as [[c|]|]; try reflexivity.
    destruct (dispatch w c _); reflexivity.
  - destruct (parse_command (shell_pid sh) (input_buffer sh)) as [[c|]|];
      try reflexivity.
    destruct (dispatch w c _); reflexivity.
Qed.

(** When [fgets] returns, the children that terminated meanwhile are all
    there to be reaped. *)
Lemma at_read_kernel w p :
  status p = Running -> nothing_to_reap p ->
  status (at_read w p) = Running /\
  zombies (at_read w p) = sys_terminated w /\
  sigchld_blocked (at_read w p) = true /\
  sigchld_pending (at_read w p) = negb (List.length (sys_terminated w) =? 0)%nat /\
  (forall s, handlers (at_read w p) s = handlers p s) /\
  trace (at_read w p)
    = trace p ++ [Ev_sigprocmask true SIGCHLD; Ev_stdout (str ": ")].
Proof.
  intros Hrun (Hz & Hpend & _).
  destruct (turn_start w p Hrun) as (Ht & Hs & [_ Hh] & Hb & Hzz & Hp).
  fold (at_read w p) in *. rewrite Hz in Hzz. rewrite Hpend in Hp.
  repeat split; auto.
Qed.

(** The end of a turn: unblocking SIGCHLD runs the handler, which reaps
    every child that is there, and the interpreter sleeps. *)
Lemma turn_end q :
  status q = Running -> handlers q SIGCHLD = Fn_SIGCHLD_handler ->
  sigchld_pending q = negb (List.length (zombies q) =? 0)%nat ->
  usleep 5000 [] (sigprocmask false q)
  = emit (Ev_sigprocmask false SIGCHLD :: reap_calls (zombies q) ++ [Ev_usleep 5000])
      (set_zombies [] (set_sigchld_pending false (set_sigchld_blocked false q))).
Proof.
  intros Hrun Hh Hpend.
  assert (sigprocmask false q
          = emit (Ev_sigprocmask false SIGCHLD :: reap_calls (zombies q))
              (set_zombies [] (set_sigchld_pending false
                                 (set_sigchld_blocked false q)))) as ->.
  { unfold sigprocmask. rewrite Hrun.
    cbn [negb andb sigchld_pending set_sigchld_blocked emit]. rewrite Hpend.
    destruct (zombies q) as [|z zs] eqn:Hz; cbn [List.length Nat.eqb negb].
    - cbn [List.length Nat.eqb negb] in Hpend.
      change (reap_calls []) with (@nil event). process_fields.
    - unfold run_disposition.
      cbn [handlers set_sigchld_pending set_sigchld_blocked emit]. rewrite Hh.
      unfold SIGCHLD_handler.
      cbn [zombies set_sigchld_pending set_sigchld_blocked emit]. rewrite Hz.
      rewrite reap_calls_spec. generalize (reap_calls (z :: zs)). intros es.
      process_fields. }
  rewrite usleep_quiet. cbn [status emit set_zombies set_sigchld_pending
                             set_sigchld_blocked]. rewrite Hrun.
  rewrite emit_emit. reflexivity.
Qed.

(** A turn whose command leaves the process alone. *)
Lemma quiet_turn w p :
  status p = Running -> handlers p SIGCHLD = Fn_SIGCHLD_handler ->
  nothing_to_reap p ->
  usleep 5000 [] (sigprocmask false (at_read w p))
  = emit ([Ev_sigprocmask true SIGCHLD; Ev_stdout (str ": ");
           Ev_sigprocmask false SIGCHLD]
          ++ reap_calls (sys_terminated w) ++ [Ev_usleep 5000])
      (set_sigchld_blocked false p).
Proof.
  intros Hrun Hh Hn.
  destruct (at_read_kernel w p Hrun Hn) as (Hs & Hz & Hb & Hp & Hhs & Ht).
  rewrite turn_end; [|exact Hs | rewrite Hhs; exact Hh | rewrite Hz; exact Hp].
  rewrite Hz. clear Hs Hz Hb Hp Hhs Ht. destruct Hn as (Hz0 & Hp0 & _).
  unfold at_read. rewrite sigprocmask_block by exact Hrun.
  rewrite children_terminate_blocked by (exact Hrun || reflexivity).
  generalize (reap_calls (sys_terminated w)). intros es.
  destruct (sys_terminated w) as [|a arrivals]; process_fields.
Qed.

(** Between two turns, reached running, nothing waits to be reaped. *)
Lemma deliver_nothing_to_reap sig p :
  interactive p -> nothing_to_reap p -> status (deliver sig p) = Running ->
  nothing_to_reap (deliver sig p).
Proof.
  intros (Hint & Hchld & Hterm & Htstp) (Hz & Hp & Hb).
  unfold deliver, run_disposition. destruct (status p) eqn:Hrun;
    try (intros; repeat split; assumption).
  rewrite Hb, andb_false_r.
  destruct sig.
  - rewrite Hint. intros; repeat split; assumption.
  - destruct Htstp as [[_ ->]|[_ ->]]; intros; repeat split; assumption.
  - rewrite Hchld. unfold SIGCHLD_handler. rewrite reap_calls_spec.
    intros; repeat split; assumption.
  - rewrite Hterm. cbn. discriminate.
Qed.

Lemma child_terminates_reaped c st p :
  status p = Running -> handlers p SIGCHLD = Fn_SIGCHLD_handler ->
  nothing_to_reap p ->
  child_terminates c st p = emit (reap_calls [(c, st)]) p.
Proof.
  intros Hrun Hh (Hz & Hp & Hb).
  unfold child_terminates, deliver, run_disposition.
  cbn [status handlers sigchld_blocked set_zombies]. rewrite Hrun, Hb, Hh, Hz.
  cbn [signal_eqb andb app]. unfold SIGCHLD_handler.
  cbn [zombies set_zombies]. rewrite reap_calls_spec.
  generalize (reap_calls [(c, st)]). intros es.
  process_fields.
Qed.

Lemma main_body_nothing_to_reap w r sh :
  status (proc sh) = Running -> interactive (proc sh) ->
  nothing_to_reap (proc sh) ->
  status (proc (main_body w r sh)) = Running ->
  nothing_to_reap (proc (main_body w r sh)).
Proof.
  intros Hrun Hi Hn. rewrite main_body_parts.
  rewrite usleep_quiet_status, sigprocmask_status.
  destruct (at_read_kernel w (proc sh) Hrun Hn) as (Hs & Hz & Hb & Hp & Hhs & _).
  set (p1 := match r with
             | Fgets_line _ => at_read w (proc sh)
             | Fgets_null => emit [Ev_clearerr] (at_read w (proc sh))
             end).
  assert (status p1 = Running /\ zombies p1 = sys_terminated w /\
          sigchld_pending p1 = negb (List.length (sys_terminated w) =? 0)%nat /\
          forall s, handlers p1 s = handlers (proc sh) s) as (Hs1 & Hz1 & Hp1 & Hh1)
    by (unfold p1; destruct r; cbn [status zombies sigchld_pending handlers emit];
        auto).
  set (q := after_command w (shell_pid sh) _ p1).
  intros Hq.
  destruct (after_command_kernel w (shell_pid sh)
              (match r with Fgets_line line => line | Fgets_null => input_buffer sh end)
              p1) as (Hzq & _ & Hpq).
  fold q in Hzq, Hpq.
  rewrite turn_end.
  - repeat split.
  - exact Hq.
  - unfold q. rewrite after_command_handlers by assumption.
    rewrite Hh1. apply Hi.
  - rewrite Hpq, Hzq, Hz1. exact Hp1.
Qed.

Lemma step_nothing_to_reap sh i :
  (status (proc sh) = Running -> interactive (proc sh) /\ nothing_to_reap (proc sh)) ->
  status (proc (step sh i)) = Running -> nothing_to_reap (proc (step sh i)).
Proof.
  intros Hinv. unfold step.
  destruct (status (proc sh)) eqn:Hrun; try (intros H; rewrite Hrun in H; discriminate).
  destruct (exit_triggered sh); [intros _; apply Hinv; reflexivity|].
  destruct (Hinv eq_refl) as [Hi Hn].
  destruct i; cbn [with_proc proc].
  - apply deliver_nothing_to_reap; assumption.
  - rewrite child_terminates_reaped by (assumption || apply Hi).
    intros _. exact Hn.
  - apply main_body_nothing_to_reap; assumption.
Qed.

Lemma run_nothing_to_reap inputs : forall sh,
  (status (proc sh) = Running -> interactive (proc sh) /\ nothing_to_reap (proc sh)) ->
  status (proc (run inputs sh)) = Running ->
  interactive (proc (run inputs sh)) /\ nothing_to_reap (proc (run inputs sh)).
Proof.
  unfold run. induction inputs as [|i inputs IH]; intros sh Hinv; [exact Hinv|].
  cbn [fold_left]. apply IH. intros Hrun. split.
  - apply step_interactive; [|exact Hrun]. intros H; apply Hinv, H.
  - apply step_nothing_to_reap; assumption.
Qed.

Lemma reachable_nothing_to_reap pid garbage inputs :
  status (proc (run inputs (initial_shell pid garbage))) = Running ->
  interactive (proc (run inputs (initial_shell pid garbage))) /\
  nothing_to_reap (proc (run inputs (initial_shell pid garbage))).
Proof.
  apply run_nothing_to_reap. intros _.
  split; [apply setup_interactive | repeat split].
Qed.

(** X23: in its loop the interpreter leaves no terminated child unreaped
    from one turn to the next, but it reaps late.  In every state that it
    reaches between two turns no child waits to be reaped and no SIGCHLD is
    blocked or pending, and a child that terminates then is reaped at once.
    A child that terminates while the interpreter waits for its line, where
    SIGCHLD is blocked, is still unreaped when the command of that line has
    been dealt with; it is reaped, with the others, by the handler that the
    unblocking at the end of the turn lets run.  The handler writes the
    notice of each child, in the order of their end. *)
Theorem terminated_children_are_reaped (pid : Z) (garbage : list ascii)
  (inputs : list step_input) (w : os) (line : list ascii) (c st : Z) :
  status (proc (run inputs (initial_shell pid garbage))) = Running ->
  exit_triggered (run inputs (initial_shell pid garbage)) = false ->
  nothing_to_reap (proc (run inputs (initial_shell pid garbage))) /\
  proc (step (run inputs (initial_shell pid garbage)) (In_child_terminates c st))
    = emit (reap_calls [(c, st)]) (proc (run inputs (initial_shell pid garbage))) /\
  zombies (after_command w pid line
             (at_read w (proc (run inputs (initial_shell pid garbage)))))
    = sys_terminated w /\
  (status (after_command w pid line
             (at_read w (proc (run inputs (initial_shell pid garbage)))))
     = Running ->
   proc (step (run inputs (initial_shell pid garbage)) (In_read w (Fgets_line line)))
   = emit (Ev_sigprocmask false SIGCHLD
           :: reap_calls (sys_terminated w) ++ [Ev_usleep 5000])
       (set_zombies []
          (set_sigchld_pending false
             (set_sigchld_blocked false
                (after_command w pid line
                   (at_read w (proc (run inputs (initial_shell pid garbage))))))))) /\
  (forall zs, Forall (fun z => 0 < fst z <= INT_MAX) zs ->
     written STDOUT_FILENO (reap_calls zs) = concat (map child_notice zs)).
Proof.
  intros Hrun Hloop.
  destruct (reachable_nothing_to_reap pid garbage inputs Hrun) as [Hi Hn].
  set (sh := run inputs (initial_shell pid garbage)) in *.
  assert (shell_pid sh = pid) as Hpid by (unfold sh; apply run_shell_pid).
  destruct (at_read_kernel w (proc sh) Hrun Hn) as (Hs & Hz & Hb & Hp & Hhs & _).
  destruct (after_command_kernel w pid line (at_read w (proc sh))) as (Hzq & _ & Hpq).
  split; [exact Hn|]. split; [|split; [|split]].
  - unfold step. rewrite Hrun, Hloop. cbn [with_proc proc].
    apply child_terminates_reaped; [exact Hrun | apply Hi | exact Hn].
  - rewrite Hzq. exact Hz.
  - intros Hq. unfold step. rewrite Hrun, Hloop, main_body_parts, Hpid.
    rewrite turn_end.
    + rewrite Hzq, Hz. reflexivity.
    + exact Hq.
    + rewrite after_command_handlers by assumption. rewrite Hhs. apply Hi.
    + rewrite Hpq, Hzq, Hz. exact Hp.
  - intros zs Hall. apply reap_calls_notices. exact Hall.
Qed.

Lemma terminated_children_are_reaped_witness :
  zombies (after_command os_child_ends 42 (str "status")
             (at_read os_child_ends (proc (run [In_signal SIGTSTP] (initial_shell 42 [])))))
    = [(4711, 15)] /\
  written STDOUT_FILENO
    (new_events (proc (run [In_signal SIGTSTP] (initial_shell 42 [])))
       (proc (step (run [In_signal SIGTSTP] (initial_shell 42 []))
                (In_read os_child_ends (Fgets_line (str "status"))))))
  = str "Background PID 4711 is done: terminated by signal 15" ++ [NL].
Proof.
  destruct (terminated_children_are_reaped 42 [] [In_signal SIGTSTP] os_child_ends
              (str "status") 4711 15 eq_refl eq_refl) as (_ & _ & Hz & Hturn & _).
  split; [exact Hz|].
  rewrite Hturn by reflexivity. vm_compute. reflexivity.
Defined.

End Reaping.

(** ** The loop of the interpreter *)

Section LoopTurns.

Local Open Scope Z_scope.

(** X16: the three built-ins look at [argv] only.  Redirections and a
    trailing [&] on their line are parsed and then ignored: the outcome is
    that of the bare command, no file is opened, no process is created or
    waited for, and the last-foreground-result stays what it was. *)
Theorem builtins_ignore_operators (w : os) (c : command) (p : process) :
  is_builtin c = true -> argv c <> [] ->
  dispatch w c p = dispatch w (mk_command (argv c) false None None) p /\
  Forall (fun e => is_launch e = false) (new_events p (fst (dispatch w c p))) /\
  last_foreground_result (fst (dispatch w c p)) = last_foreground_result p /\
  status (fst (dispatch w c p)) = status p.
Proof.
  intros Hb Hne. unfold dispatch, is_builtin in *. cbn [argv].
  destruct (argv c) as [|argv0 rest]; [congruence|].
  destruct (strcmp_eq argv0 (str "exit")).
  { cbn [fst]. rewrite new_events_refl. repeat split. constructor. }
  destruct (strcmp_eq argv0 (str "cd")).
  { cbn [fst]. unfold builtin_cd, handle_path_error.
    destruct (sys_chdir w (nth_error (argv0 :: rest) 1) =? -1);
      rewrite ?emit_emit, new_events_emit; repeat split; repeat constructor. }
  destruct (strcmp_eq argv0 (str "status")); [|discriminate].
  cbn [fst]. unfold builtin_status. rewrite new_events_emit.
  repeat split; repeat constructor.
Qed.

Lemma builtins_ignore_operators_witness :
  dispatch os_no_file
    (mk_command [str "cd"; str "/tmp"] true (Some (str "in")) (Some (str "out")))
    (setup fresh_process)
  = dispatch os_no_file (mk_command [str "cd"; str "/tmp"] false None None)
      (setup fresh_process).
Proof.
  apply (builtins_ignore_operators os_no_file
           (mk_command [str "cd"; str "/tmp"] true (Some (str "in")) (Some (str "out")))
           (setup fresh_process)).
  - reflexivity.
  - discriminate.
Defined.

(** X17: a turn of the loop on a blank line or on a comment, its expansion
    within the buffer, launches nothing.  From a state between two turns it
    blocks SIGCHLD, prints the prompt, unblocks SIGCHLD, at which point the
    handler reaps and reports the children that terminated while the line
    was awaited, and sleeps; the process is otherwise unchanged and the
    loop goes on. *)
Theorem blank_line_only_prompts (w : os) (line : list ascii) (sh : shell) :
  status (proc sh) = Running ->
  handlers (proc sh) SIGCHLD = Fn_SIGCHLD_handler ->
  nothing_to_reap (proc sh) ->
  fits_buffer (shell_pid sh) line ->
  trimmed (shell_pid sh) line = [] \/ get (trimmed (shell_pid sh) line) 0 = "#"%char ->
  main_body w (Fgets_line line) sh
  = mk_shell (emit ([Ev_sigprocmask true SIGCHLD; Ev_stdout (str ": ");
                     Ev_sigprocmask false SIGCHLD]
                    ++ reap_calls (sys_terminated w) ++ [Ev_usleep 5000])
                (proc sh))
             (shell_pid sh) line false /\
  (sys_terminated w = [] -> reap_calls (sys_terminated w) = []) /\
  Forall (fun e => is_reap_call e = true) (reap_calls (sys_terminated w)) /\
  (Forall (fun z => 0 < fst z <= INT_MAX) (sys_terminated w) ->
   written STDOUT_FILENO (reap_calls (sys_terminated w))
   = concat (map child_notice (sys_terminated w))).
Proof.
  intros Hrun Hh Hn Hfit Hblank.
  assert (parse_command (shell_pid sh) line = Ret None) as Hp.
  { destruct (parse_command_cases (shell_pid sh) line Hfit)
      as [(_ & Hp)|(Hne & Hhash & _)]; [exact Hp|].
    destruct Hblank; contradiction. }
  split; [|split; [intros ->; reflexivity|split]].
  - unfold main_body. rewrite Hp. cbv beta iota zeta.
    fold (at_read w (proc sh)). rewrite quiet_turn by assumption.
    f_equal. destruct Hn as (_ & _ & Hb). process_fields.
  - apply reap_calls_kinds.
  - intros Hall. apply reap_calls_notices. exact Hall.
Qed.

Lemma blank_line_only_prompts_witness :
  main_body os_child_ends (Fgets_line (str "   # list the files" ++ [NL]))
    (initial_shell 42 [])
  = mk_shell (emit ([Ev_sigprocmask true SIGCHLD; Ev_stdout (str ": ");
                     Ev_sigprocmask false SIGCHLD]
                    ++ reap_calls [(4711, 15)] ++ [Ev_usleep 5000])
                (setup fresh_process))
             42 (str "   # list the files" ++ [NL]) false /\
  written STDOUT_FILENO (reap_calls [(4711, 15)])
  = str "Background PID 4711 is done: terminated by signal 15" ++ [NL].
Proof.
  destruct (blank_line_only_prompts os_child_ends (str "   # list the files" ++ [NL])
              (initial_shell 42 [])) as (H1 & _ & _ & H2).
  - reflexivity.
  - reflexivity.
  - repeat split.
  - unfold fits_buffer. apply Nat.ltb_lt. vm_compute. reflexivity.
  - right. reflexivity.
  - split; [exact H1|]. apply H2. unfold INT_MAX. repeat constructor; simpl; lia.
Defined.

Lemma builtin_exit_exits arrivals p :
  status p = Running -> sigchld_blocked p = false ->
  status (builtin_exit arrivals p) = Exited 0.
Proof.
  intros Hrun Hmask. unfold builtin_exit.
  set (p1 := set_cleanup_signal_handlers p).
  assert (kill_group SIGTERM p1 = emit [Ev_kill 0 SIGTERM] p1) as ->
    by (unfold kill_group, deliver, run_disposition; simpl; rewrite Hrun;
        reflexivity).
  unfold usleep. cbn [status emit]. change (status p1) with (status p). rewrite Hrun.
  destruct (children_terminate_cleanup arrivals
              (emit [Ev_usleep 5000] (emit [Ev_kill 0 SIGTERM] p1)))
    as (Hq & _); [exact Hrun | exact Hmask | reflexivity|].
  unfold sys_exit. rewrite Hq. reflexivity.
Qed.

Lemma run_snoc inputs i sh : run (inputs ++ [i]) sh = step (run inputs sh) i.
Proof. unfold run. rewrite fold_left_app. reflexivity. Qed.

(** X18: a line whose first token is [exit] ends the interpreter,
    whatever else the line holds (arguments, redirections, [&]): the turn
    that reads it launches nothing (on unblocking SIGCHLD it reaps and
    reports the children that terminated while the line was awaited) and
    leaves the loop, no later input is read, and [main] goes through
    [builtin_exit] to [exit(0)]. *)
Theorem exit_line_ends_the_interpreter (pid : Z) (garbage : list ascii)
  (inputs : list step_input) (w : os) (line : list ascii) (arrivals : list (Z * Z))
  (c : command) :
  status (proc (run inputs (initial_shell pid garbage))) = Running ->
  exit_triggered (run inputs (initial_shell pid garbage)) = false ->
  parse_command pid line = Ret (Some c) -> is_exit_command c = true ->
  status (proc (main pid garbage (inputs ++ [In_read w (Fgets_line line)]) arrivals))
    = Exited 0 /\
  new_events (proc (run inputs (initial_shell pid garbage)))
             (proc (run (inputs ++ [In_read w (Fgets_line line)])
                        (initial_shell pid garbage)))
    = [Ev_sigprocmask true SIGCHLD; Ev_stdout (str ": ");
       Ev_sigprocmask false SIGCHLD]
      ++ reap_calls (sys_terminated w) ++ [Ev_usleep 5000] /\
  (sys_terminated w = [] -> reap_calls (sys_terminated w) = []) /\
  Forall (fun e => is_reap_call e = true) (reap_calls (sys_terminated w)) /\
  (forall more,
     run (inputs ++ [In_read w (Fgets_line line)] ++ more) (initial_shell pid garbage)
     = run (inputs ++ [In_read w (Fgets_line line)]) (initial_shell pid garbage)).
Proof.
  intros Hrun Hloop Hparse Hexit.
  destruct (reachable_nothing_to_reap pid garbage inputs Hrun) as [Hi Hn].
  set (sh := run inputs (initial_shell pid garbage)) in *.
  assert (shell_pid sh = pid) as Hpid by (unfold sh; rewrite run_shell_pid; reflexivity).
  set (turn := [Ev_sigprocmask true SIGCHLD; Ev_stdout (str ": ");
                Ev_sigprocmask false SIGCHLD]
               ++ reap_calls (sys_terminated w) ++ [Ev_usleep 5000]).
  assert (step sh (In_read w (Fgets_line line))
          = mk_shell (emit turn (proc sh)) pid line true) as Hstep.
  { unfold step. rewrite Hrun, Hloop. unfold main_body. rewrite Hpid, Hparse.
    unfold dispatch. unfold is_exit_command in Hexit.
    destruct (argv c) as [|argv0 rest]; [discriminate|]. rewrite Hexit.
    cbv beta iota zeta. fold (at_read w (proc sh)).
    rewrite quiet_turn; [|exact Hrun | apply Hi | exact Hn].
    fold turn. f_equal. destruct Hn as (_ & _ & Hb). process_fields. }
  assert (run (inputs ++ [In_read w (Fgets_line line)]) (initial_shell pid garbage)
          = mk_shell (emit turn (proc sh)) pid line true) as Hturn
    by (rewrite run_snoc; exact Hstep).
  split; [|split; [|split; [|split]]].
  - unfold main. rewrite Hturn. cbn [exit_triggered with_proc proc].
    apply builtin_exit_exits; [exact Hrun | apply Hn].
  - rewrite Hturn. cbn [proc]. apply new_events_emit.
  - intros ->. reflexivity.
  - apply reap_calls_kinds.
  - intros more. rewrite app_assoc. unfold run at 1. rewrite fold_left_app.
    fold (run (inputs ++ [In_read w (Fgets_line line)]) (initial_shell pid garbage)).
    rewrite Hturn. clear.
    induction more as [|i more IH]; [reflexivity|].
    cbn [fold_left]. unfold step at 2. cbn [proc exit_triggered status emit].
    destruct (status (proc sh)); exact IH.
Qed.

Lemma exit_line_ends_the_interpreter_witness :
  status (proc (main 42 [] [In_signal SIGTSTP;
                            In_read os_no_file (Fgets_line (str "exit now > log &"))]
                  [(7, 15)]))
  = Exited 0.
Proof.
  apply (exit_line_ends_the_interpreter 42 [] [In_signal SIGTSTP] os_no_file
           (str "exit now > log &") [(7, 15)]
           (mk_command [str "exit"; str "now"] true None (Some (str "log")))).
  - reflexivity.
  - reflexivity.
  - reflexivity.
  - reflexivity.
Defined.

(** The turn that reads [exit] while a background child ends: the child is
    reported when SIGCHLD is unblocked, before the interpreter leaves. *)
Example exit_turn_reports_child :
  written STDOUT_FILENO
    (trace (proc (run [In_read os_child_ends (Fgets_line (str "exit"))]
                      (initial_shell 42 []))))
  = str "Background PID 4711 is done: terminated by signal 15" ++ [NL].
Proof. vm_compute. reflexivity. Qed.

(** An input file that does not open: the result keeps its kind. *)
Lemma run_command_open_failure_witness :
  by_signal (run_command os_no_file [str "cat"] (Some (str "missing")) None false
               after_interrupted_sleep)
  = by_signal after_interrupted_sleep.
Proof.
  apply (run_command_open_failure os_no_file [str "cat"] (Some (str "missing")) None
           false after_interrupted_sleep).
  - intros path mode. discriminate.
  - left. reflexivity.
Defined.

End LoopTurns.

(** ** The loops of the parser end *)

Section LoopsEnd.

#[local] Arguments Ascii.eqb : simpl never.

Lemma scan_to_redirect_more cs r : forall fuel k,
  r - k <= fuel ->
  scan_to_redirect (S fuel) cs r k = scan_to_redirect fuel cs r k.
Proof.
  induction fuel as [|f IH]; intros k Hk.
  - cbn [scan_to_redirect].
    assert ((k <? r) = false) as -> by (apply Nat.ltb_ge; lia). reflexivity.
  - cbn [scan_to_redirect] in *.
    destruct ((k <? r) && negb (is_redirect_at cs k)) eqn:E; [|reflexivity].
    apply andb_true_iff in E as [E _]. apply Nat.ltb_lt in E.
    apply IH. lia.
Qed.

Lemma skip_spaces_to_more cs r : forall fuel left,
  r - left <= fuel ->
  skip_spaces_to (S fuel) cs r left = skip_spaces_to fuel cs r left.
Proof.
  induction fuel as [|f IH]; intros left Hl.
  - cbn [skip_spaces_to].
    assert ((left <? r) = false) as -> by (apply Nat.ltb_ge; lia).
    rewrite andb_false_r. reflexivity.
  - cbn [skip_spaces_to] in *.
    destruct (Ascii.eqb (get cs left) SP && (left <? r)) eqn:E; [|reflexivity].
    apply andb_true_iff in E as [_ E]. apply Nat.ltb_lt in E.
    apply IH. lia.
Qed.

Lemma redirect_loop_more r : forall fuel st,
  r - rs_left st <= fuel ->
  redirect_loop (S fuel) r st = redirect_loop fuel r st.
Proof.
  induction fuel as [|f IH]; intros st Hst.
  - cbn [redirect_loop].
    assert ((rs_left st <? r) = false) as -> by (apply Nat.ltb_ge; lia). reflexivity.
  - cbn [redirect_loop] in *.
    destruct (rs_left st <? r) eqn:E; [|reflexivity].
    apply Nat.ltb_lt in E. apply IH.
    pose proof (redirect_body_advances r st E). lia.
Qed.

Lemma more_fuel {A} (loop : nat -> A) (bound : nat) :
  (forall fuel, bound <= fuel -> loop (S fuel) = loop fuel) ->
  forall fuel, bound <= fuel -> loop fuel = loop bound.
Proof.
  intros Hstep fuel Hle. induction Hle as [|m Hle IH]; [reflexivity|].
  rewrite Hstep by exact Hle. exact IH.
Qed.

(** X19: every loop of the parser ends by its own test.  The pass over
    the input ends within as many turns as the input has characters, the
    two scans within the distance to [right], and each turn of the loop
    over the redirections moves [left] forward by at least two, so that
    it ends within the same distance: with any larger bound on the number
    of turns the result is the same. *)
Theorem parser_loops_end (pid : Z) (input cs : list ascii) (right k : nat)
  (st : redirect_state) (fuel : nat) :
  (List.length input <= fuel ->
   expand_loop fuel (sprintf_d pid) input [] = expand pid input) /\
  (right - k <= fuel ->
   scan_to_redirect fuel cs right k = scan_to_redirect (right - k) cs right k /\
   skip_spaces_to fuel cs right k = skip_spaces_to (right - k) cs right k) /\
  (rs_left st < right -> rs_left st + 2 <= rs_left (redirect_body right st)) /\
  (right - rs_left st <= fuel ->
   redirect_loop fuel right st = redirect_loop (right - rs_left st) right st /\
   right <= rs_left (redirect_loop fuel right st)).
Proof.
  split; [|split; [|split]].
  - intros Hlen. unfold expand.
    rewrite !(expand_loop_spec (sprintf_d pid) (sprintf_d_plain pid)
                (sprintf_d_nonempty pid)) by lia.
    reflexivity.
  - intros Hk. split.
    + apply (more_fuel (fun f => scan_to_redirect f cs right k)); [|exact Hk].
      intros f Hf. apply scan_to_redirect_more. exact Hf.
    + apply (more_fuel (fun f => skip_spaces_to f cs right k)); [|exact Hk].
      intros f Hf. apply skip_spaces_to_more. exact Hf.
  - apply redirect_body_advances.
  - intros Hst. split.
    + apply (more_fuel (fun f => redirect_loop f right st)); [|exact Hst].
      intros f Hf. apply redirect_loop_more. exact Hf.
    + apply redirect_loop_done. exact Hst.
Qed.

Lemma parser_loops_end_witness :
  expand_loop 100 (sprintf_d 42) (str "a $$  b") [] = expand 42 (str "a $$  b").
Proof.
  apply (parser_loops_end 42 (str "a $$  b") [] 0 0 (mk_redirect_state [] 0 None None []) 100).
  simpl. lia.
Defined.

End LoopsEnd.

(** ** The block that holds a filename *)

Section FilenameBlock.

#[local] Arguments Ascii.eqb : simpl never.

(** The block that a turn of the redirection loop records is the one that
    [filename_copy] describes. *)
Lemma redirect_body_block right st :
  rs_blocks (redirect_body right st)
  = rs_blocks st ++ match filename_copy right st with
                    | Some block => [block]
                    | None => []
                    end.
Proof.
  unfold redirect_body, filename_copy, filename_span.
  destruct (truncate_right _ _ _) as [cs n]. cbn [rs_blocks].
  destruct (0 <? n); [reflexivity | symmetry; apply app_nil_r].
Qed.

Lemma cstr_at_length_le s : forall d k,
  get s (k + d) = NUL -> List.length (cstr_at s k) <= d.
Proof.
  induction d as [|d IH]; intros k Hnul; rewrite cstr_at_unfold.
  - rewrite Nat.add_0_r in Hnul. rewrite Hnul. simpl. lia.
  - destruct (Ascii.eqb (get s k) NUL); [simpl; lia|].
    cbn [List.length]. apply le_n_S, IH.
    replace (S k + d) with (k + S d) by lia. exact Hnul.
Qed.

Lemma cstr_at_length_ge s : forall d k,
  (forall j, j < d -> get s (k + j) <> NUL) -> d <= List.length (cstr_at s k).
Proof.
  induction d as [|d IH]; intros k Hnn; [lia|]. rewrite cstr_at_unfold.
  pose proof (Hnn 0 ltac:(lia)) as H0. rewrite Nat.add_0_r in H0.
  apply Ascii.eqb_neq in H0. rewrite H0. cbn [List.length].
  apply le_n_S, IH. intros j Hj.
  replace (S k + j) with (k + S j) by lia. apply Hnn. lia.
Qed.

(** X20: the block that a turn of the redirection loop allocates for a
    filename has [filename_end - left + 1] bytes, and [strcpy] then writes
    the stored name and its NUL into it: never more than one byte beyond
    the block, and exactly one byte beyond it when the filename runs to
    the end of the parsed text, where [truncate_right] finds nothing to
    cut and the NUL that ends the name is the one after [right]. *)
Theorem filename_copy_bound (right : nat) (st : redirect_state) (size bytes : nat) :
  rs_left st < right ->
  get (rs_buffer st) (right + 1) = NUL ->
  filename_copy right st = Some (size, bytes) ->
  rs_left (redirect_body right st) = snd (filename_span right st) + 1 /\
  (exists name,
     (rs_i_stream (redirect_body right st) = Some name \/
      rs_o_stream (redirect_body right st) = Some name) /\
     bytes = List.length name + 1) /\
  size = snd (filename_span right st) - fst (filename_span right st) + 1 /\
  bytes <= size + 1 /\
  (snd (filename_span right st) = right ->
   is_blank (get (rs_buffer st) right) = false ->
   (forall j, fst (filename_span right st) <= j <= right ->
      get (rs_buffer st) j <> NUL) ->
   bytes = size + 1).
Proof.
  intros Hleft Hnul Hcopy.
  unfold filename_copy in Hcopy. unfold redirect_body.
  destruct (filename_span right st) as [left fe] eqn:Hspan.
  unfold filename_span in Hspan. cbv zeta in Hspan.
  injection Hspan as Hl Hfe.
  rewrite Hl. rewrite Hl in Hfe. rewrite Hfe. cbn [fst snd].
  assert (S (rs_left st) <= left <= right) as Hlb
    by (rewrite <- Hl; apply skip_spaces_to_bound; lia).
  assert (left <= fe <= right) as Hfb
    by (rewrite <- Hfe; apply scan_to_redirect_bound; lia).
  pose proof (truncate_right_facts (fe - left + 1) (rs_buffer st) left)
    as (Hn & _ & Hcut & Hkeep & Hsame).
  destruct (truncate_right (rs_buffer st) left (fe - left + 1)) as [cs n] eqn:Htr.
  cbn [fst snd] in *.
  destruct (0 <? n) eqn:Hpos; [|discriminate].
  apply Nat.ltb_lt in Hpos. injection Hcopy as <- <-.
  split; [reflexivity|]. split; [|split; [reflexivity|split]].
  - exists (cstr_at cs left). split; [|reflexivity].
    cbn [rs_i_stream rs_o_stream andb].
    destruct (Ascii.eqb (get (rs_buffer st) (rs_left st)) "<"); cbn [negb]; auto.
  - assert (List.length (cstr_at cs left) <= fe - left + 1); [|lia].
    destruct (Nat.eq_dec n (fe - left + 1)) as [Hfull|Hless].
    + specialize (Hkeep Hpos). rewrite Hfull in Hkeep.
      replace (left + (fe - left + 1) - 1) with fe in Hkeep by lia.
      destruct (Nat.eq_dec fe right) as [->|Hne].
      * apply cstr_at_length_le. rewrite Hsame by lia.
        replace (left + (right - left + 1)) with (right + 1) by lia. exact Hnul.
      * exfalso.
        pose proof (scan_to_redirect_stops (rs_buffer st) right (right - left) left
                      (le_n _)) as Hstop.
        rewrite Hfe in Hstop.
        assert ((fe <? right) = true) as Hlt by (apply Nat.ltb_lt; lia).
        rewrite Hlt in Hstop. cbn [andb] in Hstop.
        apply negb_false_iff in Hstop. rewrite is_redirect_at_get in Hstop.
        apply andb_true_iff in Hstop as [Hstop _].
        apply andb_true_iff in Hstop as [Hsp _].
        apply Ascii.eqb_eq in Hsp. rewrite Hsp in Hkeep. discriminate.
    + assert (List.length (cstr_at cs left) <= n); [|lia].
      apply cstr_at_length_le. apply (Hcut n). lia.
  - intros -> Hblank Hnn.
    assert (n = right - left + 1) as Hfull.
    { destruct (Nat.eq_dec n (right - left + 1)) as [|Hless]; [assumption|].
      exfalso. destruct (Hcut (right - left)) as [Hb _]; [lia|].
      replace (left + (right - left)) with right in Hb by lia. congruence. }
    assert (right - left + 1 <= List.length (cstr_at cs left)) as Hge.
    { apply cstr_at_length_ge. intros j Hj. rewrite Hsame by lia. apply Hnn. lia. }
    assert (List.length (cstr_at cs left) <= right - left + 1) as Hle.
    { apply cstr_at_length_le. rewrite Hsame by lia.
      replace (left + (right - left + 1)) with (right + 1) by lia. exact Hnul. }
    lia.
Qed.

Lemma filename_copy_bound_witness :
  filename_copy 8 (mk_redirect_state (put0 (str "cmd > out") 3) 4 None None [])
    = Some (3, 4) /\
  4 = 3 + 1.
Proof.
  split; [reflexivity|].
  apply (filename_copy_bound 8
           (mk_redirect_state (put0 (str "cmd > out") 3) 4 None None []) 3 4).
  - simpl. lia.
  - reflexivity.
  - reflexivity.
  - reflexivity.
  - reflexivity.
  - intros j Hj. cbn [fst filename_span] in Hj.
    assert (j = 6 \/ j = 7 \/ j = 8) as [-> | [-> | ->]] by (vm_compute in Hj; lia);
      discriminate.
Defined.

End FilenameBlock.

